(** * PanZoom slideshow generator: a shallow embedding of [panzoom/slideshow.py]

    The development follows the Python module function by function:
    discovery of the images ([find_images]), the effect policy
    ([prepare_images]), the filter graph ([_build_filter_complex]), the parser
    of the engine's progress stream ([_parse_ffmpeg_progress]), the driver
    ([generate], [cancel]) and the length estimate ([estimate_duration]).

    Conventions of the embedding.
    - Python [float] values (durations, intensities, progress figures) are
      exact rationals [Q] wherever the property proved does not depend on how
      a result is rounded.  Where it does (the running offset of the
      cross-fades, the percent and the eta of the parser, the conversions
      that can fail) the code is read a second time with the binary64
      numbers of the interpreter, in the module [Float64].  Python [int]
      values are [Z], list positions are [nat].
    - Python [str] values are [string]; the text read from the engine is
      taken to be ASCII, so [\d] is [0-9] and [\s] is the ASCII white space of
      [str.isspace].
    - The object [self] is the record [Generator.t]; a method that mutates it
      returns the new record.  What Python raises is a value of [exn].
    - The file system, the random generator and the child process are
      explicit arguments: a map from paths to nodes, a stream of raw
      draws, and the script of what the pump loop observes. *)

From Stdlib Require Import QArith Qround Qminmax Lqa ZArith String Ascii List
  Lia Bool PeanoNat Sorted Permutation DecimalString SpecFloat.
Import ListNotations.

Set Implicit Arguments.
Open Scope string_scope.
Open Scope Q_scope.

(** ** Python built-ins on numbers *)

Definition Qltb (x y : Q) : bool := negb (Qle_bool y x).

(** [max(a, b)] returns [a] unless [b > a]. *)
Definition py_max (a b : Q) : Q := if Qltb a b then b else a.

(** [min(a, b)] returns [a] unless [b < a]. *)
Definition py_min (a b : Q) : Q := if Qltb b a then b else a.

(** [round(x)] on a float: to the nearest integer, ties to the even one. *)
Definition py_round (x : Q) : Z :=
  let f := Qfloor x in
  let r := x - inject_Z f in
  if Qltb r (1 # 2) then f
  else if Qltb (1 # 2) r then (f + 1)%Z
  else if Z.even f then f else (f + 1)%Z.

(** ** Configuration ([panzoom/config.py]) *)

Module VideoConfig.
Record t := mk {
  duration : Q;
  crossfade : Q;
  fps : Z;
  width : Z;
  height : Z;
  zoom_intensity : Q;
  pan_intensity : Q;
  zoom_direction : string;
  pan_direction : string;
  vertical_position : Q;
  transition : string;
  shuffle : bool;
  reverse : bool;
  crf : Z;
  preset : string;
  audio_bitrate : string
}.

(** The dataclass defaults. *)
Definition default : t :=
  mk 10 2 60 1920 1080 (8 # 100) (25 # 100) "alternate" "alternate"
     (3 # 10) "fade" false false 18 "slow" "320k".
End VideoConfig.

Module WatermarkConfig.
Record t := mk {
  enabled : bool;
  image_path : string;
  position : string;
  opacity : Q;
  scale : Q;
  margin : Z
}.
End WatermarkConfig.

Module TitleConfig.
Record t := mk {
  enabled : bool;
  text : string;
  subtitle : string;
  duration : Q;
  font_size : Z;
  subtitle_size : Z;
  font_color : string;
  background_color : string;
  fade_in : Q;
  fade_out : Q
}.
End TitleConfig.

(** The keys of the [TRANSITIONS] dictionary, in insertion order. *)
Definition TRANSITIONS : list string :=
  [ "fade"; "fadeblack"; "fadewhite"; "wipeleft"; "wiperight"; "wipeup";
    "wipedown"; "slideleft"; "slideright"; "slideup"; "slidedown";
    "smoothleft"; "smoothright"; "circlecrop"; "circleclose"; "circleopen";
    "dissolve"; "pixelize"; "radial"; "hblur"; "hlslice"; "vlslice";
    "zoomin"; "squeezeh"; "squeezev" ].

Definition in_strings (s : string) (l : list string) : bool :=
  existsb (String.eqb s) l.

(** ** The data classes of [slideshow.py] *)

Module ImageInfo.
Record t := mk {
  path : string;
  index : nat;
  zoom_in : bool;
  pan_left_to_right : bool;
  transition : string
}.
End ImageInfo.

Module ProgressInfo.
Record t := mk {
  frame : Z;
  fps : Q;
  time_encoded : Q;
  speed : Q;
  percent : Q;
  eta_seconds : Q
}.

Definition initial : t := mk 0 0 0 0 0 0.
End ProgressInfo.

(** ** The generator object *)

Module Generator.
Record t := mk {
  config : VideoConfig.t;
  watermark : option WatermarkConfig.t;
  title : option TitleConfig.t;
  images : list ImageInfo.t;
  _progress_info : ProgressInfo.t;
  _stop_flag : bool
}.

(** [__init__]. *)
Definition init (config : VideoConfig.t)
    (watermark : option WatermarkConfig.t) (title : option TitleConfig.t) : t :=
  mk config watermark title [] ProgressInfo.initial false.

Definition set_config (c : VideoConfig.t) (g : t) : t :=
  mk c (watermark g) (title g) (images g) (_progress_info g) (_stop_flag g).

Definition set_images (l : list ImageInfo.t) (g : t) : t :=
  mk (config g) (watermark g) (title g) l (_progress_info g) (_stop_flag g).

Definition set_progress_info (p : ProgressInfo.t) (g : t) : t :=
  mk (config g) (watermark g) (title g) (images g) p (_stop_flag g).

Definition set_stop_flag (b : bool) (g : t) : t :=
  mk (config g) (watermark g) (title g) (images g) (_progress_info g) b.
End Generator.

(** ** [estimate_duration] *)

(** [self.title and self.title.enabled]. *)
Definition title_enabled (g : Generator.t) : bool :=
  match Generator.title g with
  | Some t => TitleConfig.enabled t
  | None => false
  end.

Definition title_duration (g : Generator.t) : Q :=
  match Generator.title g with
  | Some t => TitleConfig.duration t
  | None => 0
  end.

Definition nQ (n : nat) : Q := inject_Z (Z.of_nat n).

Definition estimate_duration (g : Generator.t) : Q :=
  match Generator.images g with
  | [] => 0
  | _ :: _ =>
      let n := length (Generator.images g) in
      let cfg := Generator.config g in
      let total :=
        VideoConfig.duration cfg * nQ n
        - VideoConfig.crossfade cfg * inject_Z (Z.of_nat n - 1) in
      let total :=
        if title_enabled g then total + title_duration g else total in
      py_max 0 total
  end.

(** ** Strings and paths *)

Definition is_upper (c : ascii) : bool :=
  let n := nat_of_ascii c in (65 <=? n)%nat && (n <=? 90)%nat.

Definition is_lower (c : ascii) : bool :=
  let n := nat_of_ascii c in (97 <=? n)%nat && (n <=? 122)%nat.

Definition lower_ascii (c : ascii) : ascii :=
  if is_upper c then ascii_of_nat (nat_of_ascii c + 32) else c.

Definition upper_ascii (c : ascii) : ascii :=
  if is_lower c then ascii_of_nat (nat_of_ascii c - 32) else c.

Fixpoint map_string (f : ascii -> ascii) (s : string) : string :=
  match s with
  | EmptyString => EmptyString
  | String c r => String (f c) (map_string f r)
  end.

(** [str.lower] and [str.upper] on ASCII text. *)
Definition lower : string -> string := map_string lower_ascii.
Definition upper : string -> string := map_string upper_ascii.

(** [s.endswith(suf)]. *)
Definition ends_with (suf s : string) : bool :=
  let n := String.length s in
  let k := String.length suf in
  (k <=? n)%nat && String.eqb (substring (n - k) k s) suf.

(** [s.rfind(c)]: the last position of [c] in [s], counted from [i]. *)
Fixpoint rfind_from (c : ascii) (i : nat) (s : string) : option nat :=
  match s with
  | EmptyString => None
  | String a r =>
      match rfind_from c (S i) r with
      | Some j => Some j
      | None => if Ascii.eqb a c then Some i else None
      end
  end.

Definition rfind (c : ascii) (s : string) : option nat := rfind_from c 0 s.

(** The text after the last ["/"]: [PurePath.name] of a path in normal form. *)
Definition path_name (p : string) : string :=
  match rfind "/" p with
  | Some i => substring (S i) (String.length p - S i) p
  | None => p
  end.

(** [PurePath.suffix]: the last dot of the name and what follows it, unless
    that dot is the first or the last character of the name. *)
Definition path_suffix (p : string) : string :=
  let name := path_name p in
  match rfind "." name with
  | Some i =>
      if (0 <? i)%nat && (i <? String.length name - 1)%nat
      then substring i (String.length name - i) name
      else ""
  | None => ""
  end.

(** [str(directory / name)] for a directory in normal form. *)
Definition joinpath (d name : string) : string :=
  if String.eqb d "." then name
  else if ends_with "/" d then d ++ name
  else d ++ "/" ++ name.

(** ** The file system

    A path, in the normal form [str(Path(p))] returns, is a regular file, a
    directory with the names of its entries in the order the system lists
    them, or nothing. *)

Inductive node :=
| File
| Dir (entries : list string).

Definition filesystem := string -> option node.

Definition path_exists (fs : filesystem) (p : string) : bool :=
  match fs p with Some _ => true | None => false end.

(** [directory.glob("*" + ext)]: the entries whose name ends in [ext], the
    comparison being case-sensitive as on POSIX. *)
Definition glob_ext (d : string) (entries : list string) (ext : string)
  : list string :=
  map (joinpath d) (filter (ends_with ext) entries).

(** ** [sorted(set(...))] *)

Fixpoint insert_sorted (x : string) (l : list string) : list string :=
  match l with
  | [] => [x]
  | y :: r => if String.leb x y then x :: l else y :: insert_sorted x r
  end.

Fixpoint py_sorted (l : list string) : list string :=
  match l with
  | [] => []
  | x :: r => insert_sorted x (py_sorted r)
  end.

(** The elements of a list without repetition, as [set(l)] holds them. *)
Definition py_set (l : list string) : list string := nodup string_dec l.

(** ** [find_images] *)

Definition SUPPORTED_FORMATS : list string :=
  [ ".png"; ".jpg"; ".jpeg"; ".webp"; ".bmp"; ".tiff" ].

Definition SUPPORTED_AUDIO : list string :=
  [ ".wav"; ".mp3"; ".aac"; ".flac"; ".ogg"; ".m4a" ].

Definition find_images (fs : filesystem) (path : string) : list string :=
  let images :=
    match fs path with
    | Some File =>
        if in_strings (lower (path_suffix path)) SUPPORTED_FORMATS
        then [path] else []
    | Some (Dir entries) =>
        flat_map
          (fun ext => (glob_ext path entries ext
                       ++ glob_ext path entries (upper ext))%list)
          SUPPORTED_FORMATS
    | None => []
    end in
  py_sorted (py_set images).

(** ** Exceptions *)

Inductive exn :=
| ValueError (msg : string)
| ZeroDivisionError
| FileNotFoundError
| OverflowError
| OtherError (msg : string).

(** ** The random generator

    The module-level generator of [random] is a stream of raw draws;
    [randbelow n] consumes one of them. *)

Definition rng := nat -> nat.

Definition randbelow (n : nat) (r : rng) : nat * rng :=
  ((r 0%nat) mod n, fun k => r (S k)).

(** [random.choice(seq)] is [seq[randbelow(len(seq))]]. *)
Definition choice {A} (d : A) (l : list A) (r : rng) : A * rng :=
  let (k, r') := randbelow (length l) r in (nth k l d, r').

Fixpoint set_nth {A} (k : nat) (x : A) (l : list A) : list A :=
  match l, k with
  | [], _ => []
  | _ :: t, O => x :: t
  | y :: t, S k' => y :: set_nth k' x t
  end.

(** [x[i], x[j] = x[j], x[i]]. *)
Definition swap {A} (d : A) (i j : nat) (l : list A) : list A :=
  let xi := nth i l d in
  let xj := nth j l d in
  set_nth j xi (set_nth i xj l).

(** [random.shuffle]: for [i] from [len(x) - 1] down to [1], exchange [x[i]]
    with [x[randbelow(i + 1)]].  [shuffle_from i] runs the positions [i], ...,
    [1]. *)
Fixpoint shuffle_from (i : nat) (l : list string) (r : rng)
  : list string * rng :=
  match i with
  | O => (l, r)
  | S i' =>
      let (j, r') := randbelow (S i) r in
      shuffle_from i' (swap "" i j l) r'
  end.

Definition shuffle (l : list string) (r : rng) : list string * rng :=
  shuffle_from (length l - 1) l r.

(** ** [prepare_images] *)

Definition choose_zoom (cfg : VideoConfig.t) (i : nat) (r : rng) : bool * rng :=
  let d := VideoConfig.zoom_direction cfg in
  if String.eqb d "in" then (true, r)
  else if String.eqb d "out" then (false, r)
  else if String.eqb d "random" then choice true [true; false] r
  else ((i mod 2 =? 0)%nat, r).

Definition choose_pan (cfg : VideoConfig.t) (i : nat) (r : rng) : bool * rng :=
  let d := VideoConfig.pan_direction cfg in
  if String.eqb d "left" then (true, r)
  else if String.eqb d "right" then (false, r)
  else if String.eqb d "random" then choice true [true; false] r
  else ((i mod 2 =? 0)%nat, r).

Definition choose_transition (cfg : VideoConfig.t) (r : rng) : string * rng :=
  if String.eqb (VideoConfig.transition cfg) "random"
  then choice "fade" TRANSITIONS r
  else (VideoConfig.transition cfg, r).

(** The body of [for i, path in enumerate(image_paths)], from position [i]. *)
Fixpoint prepare_loop (cfg : VideoConfig.t) (i : nat) (paths : list string)
    (r : rng) : list ImageInfo.t * rng :=
  match paths with
  | [] => ([], r)
  | path :: rest =>
      let (zoom_in, r1) := choose_zoom cfg i r in
      let (pan_lr, r2) := choose_pan cfg i r1 in
      let (transition, r3) := choose_transition cfg r2 in
      let (images, r4) := prepare_loop cfg (S i) rest r3 in
      (ImageInfo.mk path i zoom_in pan_lr transition :: images, r4)
  end.

(** [prepare_images] returns the new list, which it also stores in
    [self.images], or raises.  The generator after the call is the second
    component. *)
Definition prepare_images (g : Generator.t) (image_paths : list string)
    (r : rng) : (exn + list ImageInfo.t) * Generator.t * rng :=
  match image_paths with
  | [] => (inl (ValueError "No images found"), g, r)
  | _ :: _ =>
      let cfg := Generator.config g in
      let (ordered, r1) :=
        if VideoConfig.shuffle cfg then shuffle image_paths r
        else if VideoConfig.reverse cfg then (rev image_paths, r)
        else (image_paths, r) in
      let (images, r2) := prepare_loop cfg 0 ordered r1 in
      (inr images, Generator.set_images images g, r2)
  end.

(** ** [_build_filter_complex]

    The filter graph is the list of its clauses, which the source joins with
    [";"].  A clause keeps the values the source formats into its text. *)

Inductive label :=
| LInput (k : nat)          (* [k:v] *)
| LV (i : nat)              (* [vi] *)
| LX (i : nat)              (* [xi] *)
| LName (s : string).       (* [vout], [wm], [vfinal], [v] *)

Inductive clause :=
| ZoomPan (input : label) (scale_w scale_h : Z)
    (zoom_in : bool) (zoom : Q) (pan_left_to_right : bool) (pan y_pos : Q)
    (num_frames : Z) (w h fps : Z) (out : label)
| XFade (cur next : label) (transition : string) (duration offset : Q)
    (out : label)
| Format (input : label) (out : label)
| WatermarkScale (input : label) (scale opacity : Q) (out : label)
| Overlay (base mark : label) (position : string) (margin : Z) (out : label).

Definition set_out (l : label) (c : clause) : clause :=
  match c with
  | ZoomPan i sw sh zi z pl p y n w h f _ =>
      ZoomPan i sw sh zi z pl p y n w h f l
  | XFade a b t d o _ => XFade a b t d o l
  | Format i _ => Format i l
  | WatermarkScale i s o _ => WatermarkScale i s o l
  | Overlay b m p g _ => Overlay b m p g l
  end.

(** [filters[-1] = filters[-1].rsplit('[', 1)[0] + '[v]']: every clause ends
    with its output label, which is the text after its last bracket. *)
Fixpoint relabel_last (filters : list clause) : list clause :=
  match filters with
  | [] => []
  | [c] => [set_out (LName "v") c]
  | c :: rest => c :: relabel_last rest
  end.

Definition valid_transition (trans : string) : string :=
  if in_strings trans TRANSITIONS then trans else "fade".

(** The loop [for i in range(1, len(self.images))], over the images from
    position [i] on, with the running label [cur] and the running offset [t]. *)
Fixpoint xfade_chain (cfg : VideoConfig.t) (rest : list ImageInfo.t) (i : nat)
    (cur : label) (t : Q) : list clause * label :=
  match rest with
  | [] => ([], cur)
  | img :: rest' =>
      let trans := valid_transition (ImageInfo.transition img) in
      let c := XFade cur (LV i) trans (VideoConfig.crossfade cfg) t (LX i) in
      let (cs, last) :=
        xfade_chain cfg rest' (S i) (LX i)
          (t + (VideoConfig.duration cfg - VideoConfig.crossfade cfg)) in
      (c :: cs, last)
  end.

Definition watermark_enabled (g : Generator.t) : bool :=
  match Generator.watermark g with
  | Some w => WatermarkConfig.enabled w
  | None => false
  end.

Definition WATERMARK_POSITIONS : list string :=
  [ "top-left"; "top-right"; "bottom-left"; "bottom-right"; "center" ].

Definition _build_filter_complex (g : Generator.t)
    (with_watermark with_title : bool) : list clause :=
  let cfg := Generator.config g in
  let images := Generator.images g in
  let num_frames :=
    Z.max 2 (py_round (VideoConfig.duration cfg
                       * inject_Z (VideoConfig.fps cfg))) in
  let input_offset :=
    if with_title && title_enabled g then 1%nat else 0%nat in
  let stages :=
    map (fun img =>
           let i := ImageInfo.index img in
           ZoomPan (LInput (i + input_offset))
             (VideoConfig.width cfg * 2) (VideoConfig.height cfg * 2)
             (ImageInfo.zoom_in img) (VideoConfig.zoom_intensity cfg)
             (ImageInfo.pan_left_to_right img) (VideoConfig.pan_intensity cfg)
             (VideoConfig.vertical_position cfg)
             num_frames (VideoConfig.width cfg) (VideoConfig.height cfg)
             (VideoConfig.fps cfg) (LV i))
        images in
  let chain :=
    if (1 <? length images)%nat then
      let (cs, cur) :=
        xfade_chain cfg (tl images) 1 (LV 0)
          (VideoConfig.duration cfg - VideoConfig.crossfade cfg) in
      (cs ++ [Format cur (LName "vout")])%list
    else [Format (LV 0) (LName "vout")] in
  let mark :=
    match Generator.watermark g with
    | Some wm =>
        if with_watermark && WatermarkConfig.enabled wm then
          let pos :=
            if in_strings (WatermarkConfig.position wm) WATERMARK_POSITIONS
            then WatermarkConfig.position wm else "bottom-right" in
          let wm_input := (length images + input_offset + 1)%nat in
          [ WatermarkScale (LInput wm_input) (WatermarkConfig.scale wm)
              (WatermarkConfig.opacity wm) (LName "wm");
            Overlay (LName "vout") (LName "wm") pos
              (WatermarkConfig.margin wm) (LName "vfinal") ]
        else []
    | None => []
    end in
  relabel_last (stages ++ chain ++ mark)%list.

(** The cross-fade clauses of a graph, their second inputs and offsets. *)
Definition is_xfade (c : clause) : bool :=
  match c with XFade _ _ _ _ _ _ => true | _ => false end.

Definition xfades (filters : list clause) : list clause :=
  filter is_xfade filters.

Definition xfade_offset (c : clause) : Q :=
  match c with XFade _ _ _ _ o _ => o | _ => 0 end.

(** ** The patterns of the progress parser

    Each pattern of the source is a literal, [\s*] and a run of characters of
    one class that the next item of the pattern cannot start, so the greedy
    match is the only one at a given position; [re.search] returns the match
    at the leftmost position that has one. *)

Definition is_digit (c : ascii) : bool :=
  let n := nat_of_ascii c in (48 <=? n)%nat && (n <=? 57)%nat.

(** ASCII characters for which [str.isspace] holds, which is what [\s]
    matches in a [str] pattern. *)
Definition is_space (c : ascii) : bool :=
  let n := nat_of_ascii c in
  ((9 <=? n)%nat && (n <=? 13)%nat)
  || ((28 <=? n)%nat && (n <=? 32)%nat).

Definition is_dot (c : ascii) : bool := Ascii.eqb c ".".

Definition is_digit_or_dot (c : ascii) : bool := is_digit c || is_dot c.

Fixpoint take_while (p : ascii -> bool) (s : string) : string :=
  match s with
  | EmptyString => EmptyString
  | String c r => if p c then String c (take_while p r) else EmptyString
  end.

Fixpoint drop_while (p : ascii -> bool) (s : string) : string :=
  match s with
  | EmptyString => EmptyString
  | String c r => if p c then drop_while p r else s
  end.

Fixpoint strip_prefix (pre s : string) : option string :=
  match pre, s with
  | EmptyString, _ => Some s
  | String a pre', String b s' =>
      if Ascii.eqb a b then strip_prefix pre' s' else None
  | String _ _, EmptyString => None
  end.

(** A non-empty run of [p] at the head of [s], and what follows it. *)
Definition run1 (p : ascii -> bool) (s : string) : option (string * string) :=
  match take_while p s with
  | EmptyString => None
  | t => Some (t, drop_while p s)
  end.

(** [re.search]: try the pattern at every position, from the left. *)
Fixpoint search {A} (m : string -> option A) (s : string) : option A :=
  match m s with
  | Some x => Some x
  | None =>
      match s with
      | EmptyString => None
      | String _ r => search m r
      end
  end.

(** [frame=\s*(\d+)] at the head of [s]. *)
Definition frame_at (s : string) : option string :=
  match strip_prefix "frame=" s with
  | Some r => option_map fst (run1 is_digit (drop_while is_space r))
  | None => None
  end.

(** [fps=\s*([\d.]+)] at the head of [s]. *)
Definition fps_at (s : string) : option string :=
  match strip_prefix "fps=" s with
  | Some r => option_map fst (run1 is_digit_or_dot (drop_while is_space r))
  | None => None
  end.

(** The pattern of the elapsed time at the head of [s]: [time=], white
    space, then three groups separated by colons, [\d+], [\d+] and a run of
    digits with an optional dot and further digits. *)
Definition time_at (s : string) : option (string * string * string) :=
  match strip_prefix "time=" s with
  | None => None
  | Some r =>
      match run1 is_digit (drop_while is_space r) with
      | None => None
      | Some (h, r1) =>
          match strip_prefix ":" r1 with
          | None => None
          | Some r2 =>
              match run1 is_digit r2 with
              | None => None
              | Some (m, r3) =>
                  match strip_prefix ":" r3 with
                  | None => None
                  | Some r4 =>
                      match run1 is_digit r4 with
                      | None => None
                      | Some (whole, r5) =>
                          match r5 with
                          | String "." r6 =>
                              Some (h, m,
                                    whole ++ "." ++ take_while is_digit r6)
                          | _ => Some (h, m, whole)
                          end
                      end
                  end
              end
          end
      end
  end.

(** [speed=\s*([\d.]+)x] at the head of [s]. *)
Definition speed_at (s : string) : option string :=
  match strip_prefix "speed=" s with
  | None => None
  | Some r =>
      match run1 is_digit_or_dot (drop_while is_space r) with
      | Some (t, String "x" _) => Some t
      | _ => None
      end
  end.

(** ** [int] and [float] on the matched text *)

Definition digit_value (c : ascii) : Z := Z.of_nat (nat_of_ascii c - 48).

Fixpoint int_acc (acc : Z) (s : string) : Z :=
  match s with
  | EmptyString => acc
  | String c r => int_acc (acc * 10 + digit_value c) r
  end.

(** [int(s)] for a run of digits. *)
Definition py_int (s : string) : Z := int_acc 0 s.

Fixpoint count_char (p : ascii -> bool) (s : string) : nat :=
  match s with
  | EmptyString => O
  | String c r => (if p c then 1 else 0) + count_char p r
  end.

Fixpoint remove_char (p : ascii -> bool) (s : string) : string :=
  match s with
  | EmptyString => EmptyString
  | String c r => if p c then remove_char p r else String c (remove_char p r)
  end.

(** [float(s)] for a text made of digits and dots: a number when there is at
    least one digit and at most one dot, [ValueError] otherwise. *)
Definition py_float (s : string) : exn + Q :=
  let dots := count_char is_dot s in
  let digits := remove_char is_dot s in
  if (dots <=? 1)%nat && negb (String.eqb digits "") then
    let frac := (String.length (drop_while is_digit s) - dots)%nat in
    inr (inject_Z (py_int digits) / inject_Z (10 ^ Z.of_nat frac))
  else inl (ValueError ("could not convert string to float: '" ++ s ++ "'")).

(** ** A state and error monad for the parser

    The parser updates the single [ProgressInfo] object of the generator in
    place; what it has written stays written when a conversion raises. *)

Definition M (A : Type) : Type := ProgressInfo.t -> (exn + A) * ProgressInfo.t.

Definition ret {A} (x : A) : M A := fun s => (inr x, s).

Definition raise {A} (e : exn) : M A := fun s => (inl e, s).

Definition bind {A B} (m : M A) (k : A -> M B) : M B :=
  fun s =>
    match m s with
    | (inr x, s') => k x s'
    | (inl e, s') => (inl e, s')
    end.

Definition get : M ProgressInfo.t := fun s => (inr s, s).

Definition modify (f : ProgressInfo.t -> ProgressInfo.t) : M unit :=
  fun s => (inr tt, f s).

Definition lift {A} (r : exn + A) : M A := fun s => (r, s).

Notation "x <- m ;; k" := (bind m (fun x => k))
  (at level 61, m at next level, right associativity).
Notation "m ;;; k" := (bind m (fun _ => k))
  (at level 61, right associativity).

Definition set_frame (v : Z) (p : ProgressInfo.t) : ProgressInfo.t :=
  ProgressInfo.mk v (ProgressInfo.fps p) (ProgressInfo.time_encoded p)
    (ProgressInfo.speed p) (ProgressInfo.percent p)
    (ProgressInfo.eta_seconds p).

Definition set_fps (v : Q) (p : ProgressInfo.t) : ProgressInfo.t :=
  ProgressInfo.mk (ProgressInfo.frame p) v (ProgressInfo.time_encoded p)
    (ProgressInfo.speed p) (ProgressInfo.percent p)
    (ProgressInfo.eta_seconds p).

Definition set_time_encoded (v : Q) (p : ProgressInfo.t) : ProgressInfo.t :=
  ProgressInfo.mk (ProgressInfo.frame p) (ProgressInfo.fps p) v
    (ProgressInfo.speed p) (ProgressInfo.percent p)
    (ProgressInfo.eta_seconds p).

Definition set_speed (v : Q) (p : ProgressInfo.t) : ProgressInfo.t :=
  ProgressInfo.mk (ProgressInfo.frame p) (ProgressInfo.fps p)
    (ProgressInfo.time_encoded p) v (ProgressInfo.percent p)
    (ProgressInfo.eta_seconds p).

Definition set_percent (v : Q) (p : ProgressInfo.t) : ProgressInfo.t :=
  ProgressInfo.mk (ProgressInfo.frame p) (ProgressInfo.fps p)
    (ProgressInfo.time_encoded p) (ProgressInfo.speed p) v
    (ProgressInfo.eta_seconds p).

Definition set_eta_seconds (v : Q) (p : ProgressInfo.t) : ProgressInfo.t :=
  ProgressInfo.mk (ProgressInfo.frame p) (ProgressInfo.fps p)
    (ProgressInfo.time_encoded p) (ProgressInfo.speed p)
    (ProgressInfo.percent p) v.

(** [a / b] on numbers raises when [b] is zero. *)
Definition py_div (a b : Q) : exn + Q :=
  if Qeq_bool b 0 then inl ZeroDivisionError else inr (a / b).

(** ** [_parse_ffmpeg_progress] *)

Definition parse_frame (line : string) : M unit :=
  match search frame_at line with
  | Some d => modify (set_frame (py_int d))
  | None => ret tt
  end.

Definition parse_fps (line : string) : M unit :=
  match search fps_at line with
  | Some t => v <- lift (py_float t) ;; modify (set_fps v)
  | None => ret tt
  end.

Definition parse_time (config_fps : Z) (line : string) (total_duration : Q)
  : M unit :=
  match search time_at line with
  | Some (h, m, s) =>
      sec <- lift (py_float s) ;;
      modify (set_time_encoded
                (inject_Z (py_int h * 3600 + py_int m * 60) + sec)) ;;;
      if Qltb 0 total_duration then
        info <- get ;;
        modify
          (set_percent
             (py_min 100
                (ProgressInfo.time_encoded info / total_duration * 100))) ;;;
        if Qltb 0 (ProgressInfo.fps info) then
          let remaining := total_duration - ProgressInfo.time_encoded info in
          ratio <- lift (py_div (ProgressInfo.fps info)
                           (inject_Z config_fps)) ;;
          eta <- lift (py_div remaining ratio) ;;
          modify (set_eta_seconds eta)
        else ret tt
      else ret tt
  | None => ret tt
  end.

Definition parse_speed (line : string) : M unit :=
  match search speed_at line with
  | Some t => v <- lift (py_float t) ;; modify (set_speed v)
  | None => ret tt
  end.

(** The method returns [self._progress_info], the object it has updated: the
    second component of the result. *)
Definition _parse_ffmpeg_progress (config_fps : Z) (line : string)
    (total_duration : Q) : M unit :=
  parse_frame line ;;;
  parse_fps line ;;;
  parse_time config_fps line total_duration ;;;
  parse_speed line.

(** ** The driver: [cancel] and [generate] *)

Definition cancel (g : Generator.t) : Generator.t :=
  Generator.set_stop_flag true g.

(** The texts [generate] returns, one constructor per format string. *)
Inductive message :=
| AudioNotFound (audio_path : string)      (* Audio file not found: ... *)
| UnsupportedAudio (suffix : string)       (* Unsupported audio format: ... *)
| NoImagesFoundIn (image_path : string)    (* No images found in: ... *)
| GenerationCancelled                      (* Generation cancelled *)
| FFmpegError (stderr : string)            (* FFmpeg error: ... *)
| VideoCreated (output_path : string) (size : Z)   (* Video created: ... *)
| OutputNotCreated                         (* Output file was not created *)
| FFmpegNotFound                           (* FFmpeg not found. ... *)
| ErrorText (e : exn).                     (* Error: ... *)

(** The texts handed to [progress_callback]. *)
Inductive milestone :=
| FoundImages (n : nat)
| StartingGeneration (preview : bool).

(** A callback returns, or raises. *)
Definition text_callback := option (milestone -> option exn).
Definition bar_callback := option (ProgressInfo.t -> option exn).

Definition call {A} (cb : option (A -> option exn)) (x : A) : option exn :=
  match cb with
  | Some f => f x
  | None => None
  end.

(** The command line handed to [subprocess.Popen]. *)
Record command := {
  image_inputs : list string;
  input_duration : Q;
  audio_input : string;
  watermark_input : option string;
  filter_complex : list clause;
  map_audio : nat;
  arg_crf : Z;
  arg_preset : string;
  arg_audio_bitrate : string;
  output : string
}.

(** What one turn of the pump loop observes: whether [cancel] has been called
    since the previous turn (by another thread or by a callback), the line
    [readline] returns (empty at the end of the stream) and whether [poll]
    then reports that the child has exited. *)
Record iteration := {
  cancel_requested : bool;
  line : string;
  exited : bool
}.

(** A child process: the turns of the loop before the one that reads the end
    of the stream of an exited child, then what [communicate] and the file
    system report. *)
Record process := {
  script : list iteration;
  returncode : Z;
  stderr : string;
  output_size : option Z
}.

Inductive popen :=
| PopenRaises (e : exn)
| PopenStarts (p : process).

Inductive pumped :=
| PumpBreak
| PumpCancelled
| PumpRaised (e : exn).

(** The loop [while True] of [generate]. *)
Fixpoint pump (cb : bar_callback) (total_duration : Q) (its : list iteration)
    (g : Generator.t) : pumped * Generator.t :=
  match its with
  | [] => if Generator._stop_flag g then (PumpCancelled, g) else (PumpBreak, g)
  | it :: rest =>
      let g := if cancel_requested it then cancel g else g in
      if Generator._stop_flag g then (PumpCancelled, g)
      else if String.eqb (line it) "" then
        if exited it then (PumpBreak, g) else pump cb total_duration rest g
      else
        match cb with
        | None => pump cb total_duration rest g
        | Some f =>
            let (r, info) :=
              _parse_ffmpeg_progress
                (VideoConfig.fps (Generator.config g)) (line it)
                total_duration (Generator._progress_info g) in
            let g := Generator.set_progress_info info g in
            match r with
            | inl e => (PumpRaised e, g)
            | inr _ =>
                match f info with
                | Some e => (PumpRaised e, g)
                | None => pump cb total_duration rest g
                end
            end
        end
  end.

(** The preview parameters written over the configuration. *)
Definition preview_config (c : VideoConfig.t) : VideoConfig.t :=
  VideoConfig.mk (VideoConfig.duration c) (VideoConfig.crossfade c)
    15 640 360
    (VideoConfig.zoom_intensity c) (VideoConfig.pan_intensity c)
    (VideoConfig.zoom_direction c) (VideoConfig.pan_direction c)
    (VideoConfig.vertical_position c) (VideoConfig.transition c)
    (VideoConfig.shuffle c) (VideoConfig.reverse c)
    35 "ultrafast" (VideoConfig.audio_bitrate c).

(** The tuple [original_config]: width, height, fps, crf, preset. *)
Definition saved_config : Type := Z * Z * Z * Z * string.

Definition save_config (c : VideoConfig.t) : saved_config :=
  (VideoConfig.width c, VideoConfig.height c, VideoConfig.fps c,
   VideoConfig.crf c, VideoConfig.preset c).

Definition restore_config (o : saved_config) (c : VideoConfig.t)
  : VideoConfig.t :=
  let '(w, h, f, q, p) := o in
  VideoConfig.mk (VideoConfig.duration c) (VideoConfig.crossfade c)
    f w h
    (VideoConfig.zoom_intensity c) (VideoConfig.pan_intensity c)
    (VideoConfig.zoom_direction c) (VideoConfig.pan_direction c)
    (VideoConfig.vertical_position c) (VideoConfig.transition c)
    (VideoConfig.shuffle c) (VideoConfig.reverse c)
    q p (VideoConfig.audio_bitrate c).

(** [except FileNotFoundError] before [except Exception]. *)
Definition handler (e : exn) : message :=
  match e with
  | FileNotFoundError => FFmpegNotFound
  | _ => ErrorText e
  end.

Inductive outcome :=
| Returned (success : bool) (msg : message)
| Raised (e : exn).

(** A call of [generate]: how it ends, the generator afterwards and the
    commands it has handed to [Popen]. *)
Record run := {
  result : outcome;
  final : Generator.t;
  launches : list command
}.

Definition has_watermark (fs : filesystem) (g : Generator.t) : bool :=
  match Generator.watermark g with
  | Some w =>
      WatermarkConfig.enabled w && path_exists fs (WatermarkConfig.image_path w)
  | None => false
  end.

Definition build_command (fs : filesystem) (g : Generator.t)
    (audio_path output_path : string) : command :=
  let cfg := Generator.config g in
  let wm := has_watermark fs g in
  {| image_inputs := map ImageInfo.path (Generator.images g);
     input_duration := VideoConfig.duration cfg;
     audio_input := audio_path;
     watermark_input :=
       match Generator.watermark g with
       | Some w => if wm then Some (WatermarkConfig.image_path w) else None
       | None => None
       end;
     filter_complex := _build_filter_complex g wm false;
     map_audio := length (Generator.images g);
     arg_crf := VideoConfig.crf cfg;
     arg_preset := VideoConfig.preset cfg;
     arg_audio_bitrate := VideoConfig.audio_bitrate cfg;
     output := output_path |}.

Definition generate (fs : filesystem) (r : rng) (child : popen)
    (g : Generator.t) (image_path audio_path output_path : string)
    (progress_callback : text_callback)
    (progress_bar_callback : bar_callback) (preview : bool) : run :=
  let g := Generator.set_stop_flag false g in
  if negb (path_exists fs audio_path) then
    Build_run (Returned false (AudioNotFound audio_path)) g []
  else if negb (in_strings (lower (path_suffix audio_path)) SUPPORTED_AUDIO)
  then
    Build_run (Returned false (UnsupportedAudio (path_suffix audio_path))) g []
  else
    match find_images fs image_path with
    | [] => Build_run (Returned false (NoImagesFoundIn image_path)) g []
    | image_files =>
        match prepare_images g image_files r with
        | (inl e, g, _) => Build_run (Raised e) g []
        | (inr _, g, _) =>
            match call progress_callback
                    (FoundImages (length (Generator.images g))) with
            | Some e => Build_run (Raised e) g []
            | None =>
                let original_config :=
                  if preview then Some (save_config (Generator.config g))
                  else None in
                let g :=
                  if preview
                  then Generator.set_config
                         (preview_config (Generator.config g)) g
                  else g in
                let cmd := build_command fs g audio_path output_path in
                match call progress_callback (StartingGeneration preview) with
                | Some e => Build_run (Raised e) g []
                | None =>
                    let total_duration := estimate_duration g in
                    match child with
                    | PopenRaises e =>
                        Build_run (Returned false (handler e)) g [cmd]
                    | PopenStarts p =>
                        match pump progress_bar_callback total_duration
                                (script p) g with
                        | (PumpCancelled, g) =>
                            Build_run (Returned false GenerationCancelled)
                              g [cmd]
                        | (PumpRaised e, g) =>
                            Build_run (Returned false (handler e)) g [cmd]
                        | (PumpBreak, g) =>
                            let g :=
                              match original_config with
                              | Some o =>
                                  Generator.set_config
                                    (restore_config o (Generator.config g)) g
                              | None => g
                              end in
                            if negb (returncode p =? 0)%Z then
                              Build_run
                                (Returned false (FFmpegError (stderr p)))
                                g [cmd]
                            else
                              match output_size p with
                              | Some size =>
                                  Build_run
                                    (Returned true
                                       (VideoCreated output_path size))
                                    g [cmd]
                              | None =>
                                  Build_run (Returned false OutputNotCreated)
                                    g [cmd]
                              end
                        end
                    end
                end
            end
        end
    end.

(** [generate_preview] is [generate] with [preview=True]. *)
Definition generate_preview (fs : filesystem) (r : rng) (child : popen)
    (g : Generator.t) (image_path audio_path output_path : string)
    (progress_callback : text_callback)
    (progress_bar_callback : bar_callback) : run :=
  generate fs r child g image_path audio_path output_path
    progress_callback progress_bar_callback true.

(** ** Reference formulas and sample inputs *)

(** The length the slides add up to, [n * duration - (n - 1) * crossfade],
    plus the title when one is attached and enabled. *)
Definition duration_formula (g : Generator.t) : Q :=
  let n := length (Generator.images g) in
  let cfg := Generator.config g in
  VideoConfig.duration cfg * nQ n - VideoConfig.crossfade cfg * (nQ n - 1)
  + (if title_enabled g then title_duration g else 0).

Definition sample_image (i : nat) : ImageInfo.t :=
  ImageInfo.mk "img.png" i (i mod 2 =? 0)%nat (i mod 2 =? 0)%nat "fade".

(** A generator with the default configuration, no title, no watermark and
    [n] prepared images. *)
Definition sample_generator (n : nat) : Generator.t :=
  Generator.set_images (map sample_image (seq 0 n))
    (Generator.init VideoConfig.default None None).

Definition with_durations (duration crossfade : Q) (c : VideoConfig.t)
  : VideoConfig.t :=
  VideoConfig.mk duration crossfade
    (VideoConfig.fps c) (VideoConfig.width c) (VideoConfig.height c)
    (VideoConfig.zoom_intensity c) (VideoConfig.pan_intensity c)
    (VideoConfig.zoom_direction c) (VideoConfig.pan_direction c)
    (VideoConfig.vertical_position c) (VideoConfig.transition c)
    (VideoConfig.shuffle c) (VideoConfig.reverse c)
    (VideoConfig.crf c) (VideoConfig.preset c) (VideoConfig.audio_bitrate c).

(** Three images shown one second each with a cross-fade of ten seconds. *)
Definition long_crossfade_generator : Generator.t :=
  Generator.set_config (with_durations 1 10 VideoConfig.default)
    (sample_generator 3).

(** The running offset of the cross-fade loop: [n] values from [t] on, each
    one [step] after the previous one. *)
Fixpoint offsets_from (t step : Q) (n : nat) : list Q :=
  match n with
  | O => []
  | S n' => t :: offsets_from (t + step) step n'
  end.

(** A generator of draws for the examples. *)
Definition sample_rng : rng := fun k => (7 * k + 3)%nat.

(** The default configuration with the images shuffled. *)
Definition shuffling_generator : Generator.t :=
  let c := VideoConfig.default in
  Generator.init
    (VideoConfig.mk (VideoConfig.duration c) (VideoConfig.crossfade c)
       (VideoConfig.fps c) (VideoConfig.width c) (VideoConfig.height c)
       (VideoConfig.zoom_intensity c) (VideoConfig.pan_intensity c)
       (VideoConfig.zoom_direction c) (VideoConfig.pan_direction c)
       (VideoConfig.vertical_position c) "random" true false
       (VideoConfig.crf c) (VideoConfig.preset c) (VideoConfig.audio_bitrate c))
    None None.

(** The fps field of a line, when there is one, is a number. *)
Definition fps_well_formed (line : string) : bool :=
  match search fps_at line with
  | Some t => match py_float t with inr _ => true | inl _ => false end
  | None => true
  end.

(** [int(h) * 3600 + int(m) * 60 + float(s)]. *)
Definition elapsed_seconds (h m : string) (sec : Q) : Q :=
  inject_Z (py_int h * 3600 + py_int m * 60) + sec.


(** A line whose fps field is not a number, and a snapshot in mid-run. *)
Definition malformed_fps_line : string := "fps=1.2.3 time=00:00:50.00".

(** The order of [sorted] on strings. *)
Definition string_le (a b : string) : Prop := String.leb a b = true.

(** A name ends in a supported extension written in lower case or in upper
    case: what the two globs of [find_images] select. *)
Definition matches_extension (name : string) : bool :=
  existsb (fun ext => ends_with ext name || ends_with (upper ext) name)
    SUPPORTED_FORMATS.

(** The failure classes of the specification.  The code returns a text and
    nothing else, so a failure is classified by the text it carries. *)
Inductive error_class :=
| InputNotFound | NoImagesFound | UnsupportedFormat | EngineMissing
| EngineExecutionError | OutputMissing | Cancelled.

Definition message_class (m : message) : option error_class :=
  match m with
  | AudioNotFound _ => Some InputNotFound
  | UnsupportedAudio _ => Some UnsupportedFormat
  | NoImagesFoundIn _ => Some NoImagesFound
  | GenerationCancelled => Some Cancelled
  | FFmpegError _ => Some EngineExecutionError
  | OutputNotCreated => Some OutputMissing
  | FFmpegNotFound => Some EngineMissing
  | VideoCreated _ _ => None
  | ErrorText _ => None
  end.

Definition failure_class (o : outcome) : option error_class :=
  match o with
  | Returned false m => message_class m
  | _ => None
  end.

(** A directory with two images and a text file, an empty directory and an
    audio file. *)
Definition sample_fs : filesystem :=
  fun p =>
    if String.eqb p "pics" then Some (Dir ["b.png"; "a.JPG"; "notes.txt"])
    else if String.eqb p "empty" then Some (Dir [])
    else if String.eqb p "song.mp3" then Some File
    else if String.eqb p "notes.txt" then Some File
    else None.

(** A directory whose only image has a mixed-case extension. *)
Definition mixed_case_fs : filesystem :=
  fun p =>
    if String.eqb p "pics" then Some (Dir ["photo.Jpg"])
    else if String.eqb p "pics/photo.Jpg" then Some File
    else None.

Definition default_generator : Generator.t :=
  Generator.init VideoConfig.default None None.

(** A child that prints one progress line and exits with status 0, leaving
    a file of one megabyte. *)
Definition finished_child : process :=
  Build_process
    [ Build_iteration false "frame=1 fps=15.0 time=00:00:01.00" false ]
    0 "" (Some 1048576%Z).

(** A child during whose second turn [cancel] is called. *)
Definition cancelled_child : process :=
  Build_process
    [ Build_iteration false "frame=1 fps=15.0 time=00:00:01.00" false;
      Build_iteration true "frame=2 fps=15.0 time=00:00:02.00" false ]
    0 "" None.

Definition silent_bar : bar_callback := Some (fun _ => None).

(** The paths in the order the loop of [prepare_images] sees them. *)
Definition ordered_paths (cfg : VideoConfig.t) (paths : list string) (r : rng)
  : list string :=
  if VideoConfig.shuffle cfg then fst (shuffle paths r)
  else if VideoConfig.reverse cfg then rev paths
  else paths.

Definition label_eqb (a b : label) : bool :=
  match a, b with
  | LInput i, LInput j => Nat.eqb i j
  | LV i, LV j => Nat.eqb i j
  | LX i, LX j => Nat.eqb i j
  | LName s, LName t => String.eqb s t
  | _, _ => false
  end.

(** The labels a clause reads and the label it writes. *)
Definition clause_inputs (c : clause) : list label :=
  match c with
  | ZoomPan i _ _ _ _ _ _ _ _ _ _ _ _ => [i]
  | XFade a b _ _ _ _ => [a; b]
  | Format i _ => [i]
  | WatermarkScale i _ _ _ => [i]
  | Overlay b m _ _ _ => [b; m]
  end.

Definition clause_out (c : clause) : label :=
  match c with
  | ZoomPan _ _ _ _ _ _ _ _ _ _ _ _ o => o
  | XFade _ _ _ _ _ o => o
  | Format _ o => o
  | WatermarkScale _ _ _ o => o
  | Overlay _ _ _ _ o => o
  end.

Definition is_stream (l : label) : bool :=
  match l with LInput _ => true | _ => false end.

(** Every label a clause reads is an input stream of the command or the
    output of an earlier clause; [known] holds the outputs seen so far. *)
Fixpoint well_scoped (known : list label) (filters : list clause) : bool :=
  match filters with
  | [] => true
  | c :: rest =>
      forallb (fun l => is_stream l || existsb (label_eqb l) known)
        (clause_inputs c)
      && well_scoped (clause_out c :: known) rest
  end.

(** The label [l] is among the outputs seen so far. *)
Definition knows (known : list label) (l : label) : Prop :=
  existsb (label_eqb l) known = true.

Definition xfade_transition (c : clause) : string :=
  match c with XFade _ _ t _ _ _ => t | _ => "" end.

(** The generator at the point where [generate] builds its command: the flag
    lowered, the prepared images stored and, for a preview, the preview
    parameters written over the configuration. *)
Definition staged (preview : bool) (images : list ImageInfo.t)
    (g : Generator.t) : Generator.t :=
  let g1 := Generator.set_images images (Generator.set_stop_flag false g) in
  if preview
  then Generator.set_config (preview_config (Generator.config g1)) g1
  else g1.

Definition set_title (t : option TitleConfig.t) (g : Generator.t)
  : Generator.t :=
  Generator.mk (Generator.config g) (Generator.watermark g) t
    (Generator.images g) (Generator._progress_info g) (Generator._stop_flag g).

(** The input streams of the command that a graph reads, in the order of its
    clauses. *)
Definition stream_index (l : label) : list nat :=
  match l with LInput k => [k] | _ => [] end.

Definition stream_reads (filters : list clause) : list nat :=
  flat_map (fun c => flat_map stream_index (clause_inputs c)) filters.

(** A snapshot with counts that are not negative and a percent between 0
    and 100. *)
Definition sane (p : ProgressInfo.t) : Prop :=
  (0 <= ProgressInfo.frame p)%Z
  /\ 0 <= ProgressInfo.fps p
  /\ 0 <= ProgressInfo.time_encoded p
  /\ 0 <= ProgressInfo.speed p
  /\ 0 <= ProgressInfo.percent p <= 100.

Definition speed_well_formed (line : string) : bool :=
  match search speed_at line with
  | Some t => match py_float t with inr _ => true | inl _ => false end
  | None => true
  end.

(** ** Presets and export profiles ([panzoom/config.py]) *)

Module Preset.
Record t := mk {
  duration : Q;
  crossfade : Q;
  fps : Z;
  zoom_intensity : Q;
  pan_intensity : Q;
  preset : string;
  crf : Z
}.
End Preset.

(** The [PRESETS] dictionary, in insertion order. *)
Definition PRESETS : list (string * Preset.t) :=
  [ ("fast", Preset.mk 6 1 30 (4 # 100) (15 # 100) "fast" 23);
    ("cinematic", Preset.mk 12 3 60 (6 # 100) (20 # 100) "slow" 16);
    ("slow", Preset.mk 15 4 60 (4 # 100) (15 # 100) "slow" 18);
    ("dynamic", Preset.mk 8 (15 # 10) 60 (12 # 100) (35 # 100) "medium" 20);
    ("minimal", Preset.mk 10 2 30 (2 # 100) (10 # 100) "medium" 22) ].

Module Profile.
Record t := mk {
  width : Z;
  height : Z;
  fps : Z;
  crf : Z;
  preset : string;
  audio_bitrate : string
}.
End Profile.

(** The [EXPORT_PROFILES] dictionary, in insertion order, with the six
    entries [apply_export_profile] reads; the display name and the
    description of a profile are only printed by the command line. *)
Definition EXPORT_PROFILES : list (string * Profile.t) :=
  [ ("youtube", Profile.mk 1920 1080 60 18 "slow" "320k");
    ("youtube4k", Profile.mk 3840 2160 60 18 "slow" "320k");
    ("instagram_feed", Profile.mk 1080 1080 30 20 "medium" "256k");
    ("instagram_portrait", Profile.mk 1080 1350 30 20 "medium" "256k");
    ("instagram_reels", Profile.mk 1080 1920 30 20 "medium" "256k");
    ("tiktok", Profile.mk 1080 1920 30 20 "medium" "256k");
    ("facebook", Profile.mk 1280 720 30 22 "medium" "192k");
    ("twitter", Profile.mk 1280 720 30 22 "medium" "192k");
    ("preview", Profile.mk 640 360 15 35 "ultrafast" "96k") ].

(** [d[key]] on a dictionary held as an association list. *)
Fixpoint lookup {A} (key : string) (d : list (string * A)) : option A :=
  match d with
  | [] => None
  | (k, v) :: rest => if String.eqb key k then Some v else lookup key rest
  end.

(** [repr] of a list of plain names: ['a', 'b']. *)
Definition repr_names (l : list string) : string :=
  "[" ++ String.concat ", " (map (fun s => "'" ++ s ++ "'") l) ++ "]".

(** [apply_preset] writes the seven entries of the preset over the
    configuration, which it returns, or raises for an unknown name. *)
Definition apply_preset (config : VideoConfig.t) (preset_name : string)
  : exn + VideoConfig.t :=
  match lookup preset_name PRESETS with
  | None =>
      inl (ValueError ("Unknown preset: " ++ preset_name ++ ". Available: "
                       ++ repr_names (map fst PRESETS)))
  | Some p =>
      inr (VideoConfig.mk (Preset.duration p) (Preset.crossfade p)
             (Preset.fps p)
             (VideoConfig.width config) (VideoConfig.height config)
             (Preset.zoom_intensity p) (Preset.pan_intensity p)
             (VideoConfig.zoom_direction config)
             (VideoConfig.pan_direction config)
             (VideoConfig.vertical_position config)
             (VideoConfig.transition config)
             (VideoConfig.shuffle config) (VideoConfig.reverse config)
             (Preset.crf p) (Preset.preset p)
             (VideoConfig.audio_bitrate config))
  end.

Definition apply_export_profile (config : VideoConfig.t)
    (profile_name : string) : exn + VideoConfig.t :=
  match lookup profile_name EXPORT_PROFILES with
  | None =>
      inl (ValueError ("Unknown profile: " ++ profile_name ++ ". Available: "
                       ++ repr_names (map fst EXPORT_PROFILES)))
  | Some p =>
      inr (VideoConfig.mk (VideoConfig.duration config)
             (VideoConfig.crossfade config)
             (Profile.fps p) (Profile.width p) (Profile.height p)
             (VideoConfig.zoom_intensity config)
             (VideoConfig.pan_intensity config)
             (VideoConfig.zoom_direction config)
             (VideoConfig.pan_direction config)
             (VideoConfig.vertical_position config)
             (VideoConfig.transition config)
             (VideoConfig.shuffle config) (VideoConfig.reverse config)
             (Profile.crf p) (Profile.preset p) (Profile.audio_bitrate p))
  end.

(** [get_transition_list]. *)
Definition get_transition_list : list string := TRANSITIONS.

(** ** The options of the [video] command ([panzoom/cli.py])

    An option that was not given is [None]; the flags are booleans. *)

Module VideoArgs.
Record t := mk {
  preset : option string;
  export : option string;
  duration : option Q;
  crossfade : option Q;
  fps : option Z;
  width : option Z;
  height : option Z;
  zoom : option Q;
  pan : option Q;
  zoom_dir : option string;
  pan_dir : option string;
  transition : option string;
  shuffle : bool;
  reverse : bool;
  quality : option Z
}.

Definition none : t :=
  mk None None None None None None None None None None None None
     false false None.
End VideoArgs.

(** The truth value of an optional number or text in [if args.x:]. *)
Definition truthy_Q (o : option Q) : option Q :=
  match o with
  | Some q => if Qeq_bool q 0 then None else Some q
  | None => None
  end.

Definition truthy_Z (o : option Z) : option Z :=
  match o with
  | Some z => if (z =? 0)%Z then None else Some z
  | None => None
  end.

Definition truthy_string (o : option string) : option string :=
  match o with
  | Some s => if String.eqb s "" then None else Some s
  | None => None
  end.

Definition or_else {A} (o : option A) (d : A) : A :=
  match o with Some x => x | None => d end.

(** The block "Override with command line arguments" of [cmd_video]. *)
Definition override (args : VideoArgs.t) (c : VideoConfig.t) : VideoConfig.t :=
  VideoConfig.mk
    (or_else (truthy_Q (VideoArgs.duration args)) (VideoConfig.duration c))
    (or_else (truthy_Q (VideoArgs.crossfade args)) (VideoConfig.crossfade c))
    (or_else (truthy_Z (VideoArgs.fps args)) (VideoConfig.fps c))
    (or_else (truthy_Z (VideoArgs.width args)) (VideoConfig.width c))
    (or_else (truthy_Z (VideoArgs.height args)) (VideoConfig.height c))
    (or_else (truthy_Q (VideoArgs.zoom args)) (VideoConfig.zoom_intensity c))
    (or_else (truthy_Q (VideoArgs.pan args)) (VideoConfig.pan_intensity c))
    (or_else (truthy_string (VideoArgs.zoom_dir args))
       (VideoConfig.zoom_direction c))
    (or_else (truthy_string (VideoArgs.pan_dir args))
       (VideoConfig.pan_direction c))
    (VideoConfig.vertical_position c)
    (or_else (truthy_string (VideoArgs.transition args))
       (VideoConfig.transition c))
    (if VideoArgs.shuffle args then true else VideoConfig.shuffle c)
    (if VideoArgs.reverse args then true else VideoConfig.reverse c)
    (or_else (truthy_Z (VideoArgs.quality args)) (VideoConfig.crf c))
    (VideoConfig.preset c)
    (VideoConfig.audio_bitrate c).

(** The video configuration [cmd_video] hands to the generator: the export
    profile, then the preset, then the options; a [ValueError] of the first
    two makes the command print it and return 1. *)
Definition configure_video (args : VideoArgs.t) (c : VideoConfig.t)
  : exn + VideoConfig.t :=
  match
    match truthy_string (VideoArgs.export args) with
    | Some name => apply_export_profile c name
    | None => inr c
    end
  with
  | inl e => inl e
  | inr c1 =>
      match
        match truthy_string (VideoArgs.preset args) with
        | Some name => apply_preset c1 name
        | None => inr c1
        end
      with
      | inl e => inl e
      | inr c2 => inr (override args c2)
      end
  end.

(** The options with every value that counts as false taken as not given. *)
Definition drop_falsy (a : VideoArgs.t) : VideoArgs.t :=
  VideoArgs.mk
    (truthy_string (VideoArgs.preset a)) (truthy_string (VideoArgs.export a))
    (truthy_Q (VideoArgs.duration a)) (truthy_Q (VideoArgs.crossfade a))
    (truthy_Z (VideoArgs.fps a)) (truthy_Z (VideoArgs.width a))
    (truthy_Z (VideoArgs.height a))
    (truthy_Q (VideoArgs.zoom a)) (truthy_Q (VideoArgs.pan a))
    (truthy_string (VideoArgs.zoom_dir a))
    (truthy_string (VideoArgs.pan_dir a))
    (truthy_string (VideoArgs.transition a))
    (VideoArgs.shuffle a) (VideoArgs.reverse a)
    (truthy_Z (VideoArgs.quality a)).

(** ** The progress bar ([format_progress_bar]) *)





(** * Double precision

    The numbers of the interpreter are IEEE 754 binary64 values.  Where a
    property depends on how a result is rounded, or on a conversion that can
    fail, the code is read with these numbers: the operations are those of
    the Standard Library's specification of binary64 ([SpecFloat], precision
    53, exponent bound 1024), which round to nearest, ties to even, and give
    infinities and NaN as the hardware does. *)

Module Float64.

Definition prec : Z := 53.
Definition emax : Z := 1024.

Definition t : Type := spec_float.

Definition zero : t := S754_zero false.

Definition add (x y : t) : t := SFadd prec emax x y.
Definition sub (x y : t) : t := SFsub prec emax x y.
Definition mul (x y : t) : t := SFmul prec emax x y.

(** [x < y]; false when either is NaN. *)
Definition ltb (x y : t) : bool := SFltb x y.

Definition is_zero (x : t) : bool :=
  match x with S754_zero _ => true | _ => false end.

(** [x / y] on floats raises when [y] is zero, of either sign. *)
Definition div (x y : t) : exn + t :=
  if is_zero y then inl ZeroDivisionError
  else inr (SFdiv prec emax x y).

(** The double nearest to a rational, infinite beyond the range: the value
    of a float literal and of [float(text)]. *)
Definition of_Q (q : Q) : t :=
  match Qnum q with
  | Z0 => S754_zero false
  | Zpos n =>
      let '(m, e, l) :=
        SFdiv_core_binary prec emax (Zpos n) 0 (Zpos (Qden q)) 0 in
      binary_round_aux prec emax false m e l
  | Zneg n =>
      let '(m, e, l) :=
        SFdiv_core_binary prec emax (Zpos n) 0 (Zpos (Qden q)) 0 in
      binary_round_aux prec emax true m e l
  end.

(** The conversion of an [int] operand in mixed arithmetic: the nearest
    double, or [OverflowError] (int too large to convert to float). *)
Definition of_int (z : Z) : exn + t :=
  match binary_normalize prec emax z 0 false with
  | S754_infinity _ => inl OverflowError
  | x => inr x
  end.


(** [min(a, b)] returns [a] unless [b < a]. *)
Definition py_min (a b : t) : t := if ltb b a then b else a.

(** ** The cross-fade loop of [_build_filter_complex] *)

Record xfade := {
  xf_cur : label;
  xf_next : label;
  xf_transition : string;
  xf_duration : t;
  xf_offset : t;
  xf_out : label
}.

(** The loop [for i in range(1, len(self.images))], over the images from
    position [i] on, with the running label [cur] and the running offset
    [t0], which [t += cfg.duration - cfg.crossfade] advances. *)
Fixpoint xfade_chain (duration crossfade : t) (rest : list ImageInfo.t)
    (i : nat) (cur : label) (t0 : t) : list xfade * label :=
  match rest with
  | [] => ([], cur)
  | img :: rest' =>
      let trans := valid_transition (ImageInfo.transition img) in
      let c := Build_xfade cur (LV i) trans crossfade t0 (LX i) in
      let (cs, last) :=
        xfade_chain duration crossfade rest' (S i) (LX i)
          (add t0 (sub duration crossfade)) in
      (c :: cs, last)
  end.


(** ** [int] and [float] on the matched text *)

(** [int(text)] refuses a text of more than 4300 digits (the default of
    [sys.set_int_max_str_digits]). *)
Definition max_str_digits : nat := 4300.

Definition str_nat (n : nat) : string :=
  NilZero.string_of_uint (Nat.to_uint n).

Definition py_int (s : string) : exn + Z :=
  if (max_str_digits <? String.length s)%nat then
    inl (ValueError
           ("Exceeds the limit (4300 digits) for integer string conversion: "
            ++ "value has " ++ str_nat (String.length s)
            ++ " digits; use sys.set_int_max_str_digits() "
            ++ "to increase the limit"))
  else inr (py_int s).

(** [float(text)] for a text made of digits and dots: the nearest double. *)
Definition py_float (s : string) : exn + t :=
  match py_float s with
  | inr q => inr (of_Q q)
  | inl e => inl e
  end.

(** ** [_parse_ffmpeg_progress] *)

Module ProgressInfo.
Record t := mk {
  frame : Z;
  fps : spec_float;
  time_encoded : spec_float;
  speed : spec_float;
  percent : spec_float;
  eta_seconds : spec_float
}.

Definition initial : t := mk 0 zero zero zero zero zero.
End ProgressInfo.

Definition set_frame (v : Z) (p : ProgressInfo.t) : ProgressInfo.t :=
  ProgressInfo.mk v (ProgressInfo.fps p) (ProgressInfo.time_encoded p)
    (ProgressInfo.speed p) (ProgressInfo.percent p)
    (ProgressInfo.eta_seconds p).

Definition set_fps (v : t) (p : ProgressInfo.t) : ProgressInfo.t :=
  ProgressInfo.mk (ProgressInfo.frame p) v (ProgressInfo.time_encoded p)
    (ProgressInfo.speed p) (ProgressInfo.percent p)
    (ProgressInfo.eta_seconds p).

Definition set_time_encoded (v : t) (p : ProgressInfo.t) : ProgressInfo.t :=
  ProgressInfo.mk (ProgressInfo.frame p) (ProgressInfo.fps p) v
    (ProgressInfo.speed p) (ProgressInfo.percent p)
    (ProgressInfo.eta_seconds p).

Definition set_speed (v : t) (p : ProgressInfo.t) : ProgressInfo.t :=
  ProgressInfo.mk (ProgressInfo.frame p) (ProgressInfo.fps p)
    (ProgressInfo.time_encoded p) v (ProgressInfo.percent p)
    (ProgressInfo.eta_seconds p).

Definition set_percent (v : t) (p : ProgressInfo.t) : ProgressInfo.t :=
  ProgressInfo.mk (ProgressInfo.frame p) (ProgressInfo.fps p)
    (ProgressInfo.time_encoded p) (ProgressInfo.speed p) v
    (ProgressInfo.eta_seconds p).

Definition set_eta_seconds (v : t) (p : ProgressInfo.t) : ProgressInfo.t :=
  ProgressInfo.mk (ProgressInfo.frame p) (ProgressInfo.fps p)
    (ProgressInfo.time_encoded p) (ProgressInfo.speed p)
    (ProgressInfo.percent p) v.

(** How a step ends, and the snapshot it leaves: what has been written
    stays written when a later conversion or division raises. *)
Definition step : Type := (exn + unit) * ProgressInfo.t.

(** Go on with the value of [r], or stop with its exception and the
    snapshot [info]. *)
Definition try {A} (r : exn + A) (info : ProgressInfo.t) (k : A -> step)
  : step :=
  match r with
  | inr x => k x
  | inl e => (inl e, info)
  end.

Definition and_then (s : step) (k : ProgressInfo.t -> step) : step :=
  match s with
  | (inr _, info) => k info
  | (inl e, info) => (inl e, info)
  end.

Definition parse_frame (line : string) (info : ProgressInfo.t) : step :=
  match search frame_at line with
  | Some d => try (py_int d) info (fun v => (inr tt, set_frame v info))
  | None => (inr tt, info)
  end.

Definition parse_fps (line : string) (info : ProgressInfo.t) : step :=
  match search fps_at line with
  | Some d => try (py_float d) info (fun v => (inr tt, set_fps v info))
  | None => (inr tt, info)
  end.

(** [int(h) * 3600 + int(m) * 60 + float(s)]: the two integers are
    converted first, then the text of the seconds, and the sum of an [int]
    and a [float] converts the [int]. *)
Definition parse_time (config_fps : Z) (line : string) (total_duration : t)
    (info : ProgressInfo.t) : step :=
  match search time_at line with
  | Some (h, m, s) =>
      try (py_int h) info (fun hv =>
      try (py_int m) info (fun mv =>
      try (py_float s) info (fun sec =>
      try (of_int (hv * 3600 + mv * 60)) info (fun whole =>
      let info := set_time_encoded (add whole sec) info in
      if ltb zero total_duration then
        try (div (ProgressInfo.time_encoded info) total_duration) info
          (fun q =>
        let info := set_percent (py_min (of_Q 100) (mul q (of_Q 100))) info in
        if ltb zero (ProgressInfo.fps info) then
          let remaining :=
            sub total_duration (ProgressInfo.time_encoded info) in
          try (of_int config_fps) info (fun c =>
          try (div (ProgressInfo.fps info) c) info (fun ratio =>
          try (div remaining ratio) info (fun eta =>
          (inr tt, set_eta_seconds eta info))))
        else (inr tt, info))
      else (inr tt, info)))))
  | None => (inr tt, info)
  end.

Definition parse_speed (line : string) (info : ProgressInfo.t) : step :=
  match search speed_at line with
  | Some d => try (py_float d) info (fun v => (inr tt, set_speed v info))
  | None => (inr tt, info)
  end.

(** The method returns [self._progress_info], the object it has updated: the
    second component of the result. *)
Definition _parse_ffmpeg_progress (config_fps : Z) (line : string)
    (total_duration : t) (info : ProgressInfo.t) : step :=
  and_then (parse_frame line info) (fun info =>
  and_then (parse_fps line info) (fun info =>
  and_then (parse_time config_fps line total_duration info)
    (parse_speed line))).

End Float64.

(** The frame field of a line, when there is one, is within the limit of
    [int]. *)
Definition frame_within_limit (line : string) : bool :=
  match search frame_at line with
  | Some d => (String.length d <=? Float64.max_str_digits)%nat
  | None => true
  end.

(** The fps figure the time step reads, as a double: the one of the line
    when the line has one, the one of the snapshot otherwise. *)
Definition line_fps64 (line : string) (info : Float64.ProgressInfo.t)
  : Float64.t :=
  match search fps_at line with
  | Some d =>
      match Float64.py_float d with
      | inr v => v
      | inl _ => Float64.ProgressInfo.fps info
      end
  | None => Float64.ProgressInfo.fps info
  end.

(** The time step of the method returns: the line has no time field, or
    its hour and minute groups are within the limit of [int], the whole
    seconds fit a double and, when the total and the fps figure in force are
    positive, the quotient of that figure by the configured fps exists and is
    not zero. *)
Definition time_step_returns (cfps : Z) (line : string) (total : Float64.t)
    (info : Float64.ProgressInfo.t) : Prop :=
  search time_at line = None
  \/ (exists h m s whole,
        search time_at line = Some (h, m, s)
        /\ (String.length h <= Float64.max_str_digits)%nat
        /\ (String.length m <= Float64.max_str_digits)%nat
        /\ Float64.of_int (py_int h * 3600 + py_int m * 60) = inr whole
        /\ (Float64.ltb Float64.zero total = false
            \/ Float64.ltb Float64.zero (line_fps64 line info) = false
            \/ exists c ratio,
                 Float64.of_int cfps = inr c
                 /\ Float64.div (line_fps64 line info) c = inr ratio
                 /\ Float64.is_zero ratio = false)).

(** The exceptions of the method. *)
Definition parser_error (e : exn) : Prop :=
  (exists msg, e = ValueError msg) \/ e = OverflowError
  \/ e = ZeroDivisionError.

(** A text of [n] nines. *)
Fixpoint nines (n : nat) : string :=
  match n with
  | O => EmptyString
  | S k => String "9" (nines k)
  end.

(** * Properties *)

(** ** Comparisons *)

Lemma Qltb_true (x y : Q) : Qltb x y = true <-> x < y.
Proof.
  unfold Qltb. rewrite negb_true_iff.
  split; intro H.
  - apply Qnot_le_lt. intro L. apply Qle_bool_iff in L. congruence.
  - destruct (Qle_bool y x) eqn:E; [|reflexivity].
    apply Qle_bool_iff in E. exfalso. apply (Qlt_not_le _ _ H E).
Qed.

Lemma Qltb_false (x y : Q) : Qltb x y = false <-> y <= x.
Proof.
  unfold Qltb. rewrite negb_false_iff. apply Qle_bool_iff.
Qed.

Lemma py_max_spec (a b : Q) :
  (a < b /\ py_max a b = b) \/ (b <= a /\ py_max a b = a).
Proof.
  unfold py_max. destruct (Qltb a b) eqn:E.
  - left. split; [now apply Qltb_true | reflexivity].
  - right. split; [now apply Qltb_false | reflexivity].
Qed.

Lemma py_min_spec (a b : Q) :
  (b < a /\ py_min a b = b) \/ (a <= b /\ py_min a b = a).
Proof.
  unfold py_min. destruct (Qltb b a) eqn:E.
  - left. split; [now apply Qltb_true | reflexivity].
  - right. split; [now apply Qltb_false | reflexivity].
Qed.

(** ** [estimate_duration] *)

Lemma nQ_S (n : nat) : nQ (S n) == nQ n + 1.
Proof.
  unfold nQ. rewrite Nat2Z.inj_succ. unfold Z.succ.
  rewrite inject_Z_plus. reflexivity.
Qed.

Lemma inject_Z_pred (n : nat) : inject_Z (Z.of_nat n - 1) == nQ n - 1.
Proof.
  unfold nQ, Z.sub. rewrite inject_Z_plus. reflexivity.
Qed.

(** On a non-empty image list the estimate is [max(0, formula)]. *)
Lemma estimate_duration_max (g : Generator.t) :
  Generator.images g <> [] ->
  exists total,
    total == duration_formula g /\ estimate_duration g = py_max 0 total.
Proof.
  intro Hne. unfold estimate_duration, duration_formula.
  destruct (Generator.images g) as [|i l] eqn:E; [congruence|].
  rewrite <- E. clear E.
  destruct (title_enabled g).
  - eexists. split; [|reflexivity]. rewrite inject_Z_pred. reflexivity.
  - eexists. split; [|reflexivity]. rewrite inject_Z_pred. ring.
Qed.

(** C5, as the code has it: the estimate is the formula when the formula is
    not negative, and zero when it is negative or there is no image; the
    formula is not negative, and so is returned, whenever the duration is not
    negative, the cross-fade is no longer than the duration and the title
    duration is not negative. *)
Theorem estimate_duration_formula (g : Generator.t) :
  (Generator.images g = [] -> estimate_duration g = 0)
  /\ (Generator.images g <> [] -> 0 <= duration_formula g ->
      estimate_duration g == duration_formula g)
  /\ (Generator.images g <> [] -> duration_formula g < 0 ->
      estimate_duration g == 0)
  /\ (Generator.images g <> [] ->
      0 <= VideoConfig.duration (Generator.config g) ->
      VideoConfig.crossfade (Generator.config g)
      <= VideoConfig.duration (Generator.config g) ->
      (title_enabled g = true -> 0 <= title_duration g) ->
      estimate_duration g == duration_formula g).
Proof.
  assert (Hpos : Generator.images g <> [] -> 0 <= duration_formula g ->
                 estimate_duration g == duration_formula g).
  { intros Hne Hpos.
    destruct (estimate_duration_max g Hne) as (total & Ht & ->).
    destruct (py_max_spec 0 total) as [[_ ->] | [Hle ->]]; [exact Ht|].
    rewrite Ht in Hle. apply Qle_antisym; assumption. }
  split; [|split; [|split]]; [| exact Hpos | |].
  - intro E. unfold estimate_duration. now rewrite E.
  - intros Hne Hneg.
    destruct (estimate_duration_max g Hne) as (total & Ht & ->).
    destruct (py_max_spec 0 total) as [[Hlt _] | [_ ->]]; [|reflexivity].
    rewrite Ht in Hlt. exfalso. apply (Qlt_irrefl 0).
    now apply Qlt_trans with (duration_formula g).
  - intros Hne Hd Hc Ht. apply Hpos; [exact Hne|].
    unfold duration_formula.
    assert (Hn : 1 <= nQ (length (Generator.images g))).
    { destruct (Generator.images g) as [|i l]; [congruence|].
      simpl length. rewrite nQ_S. unfold nQ.
      assert (0 <= inject_Z (Z.of_nat (length l)))
        by (change 0 with (inject_Z 0); rewrite <- Zle_Qle; lia).
      lra. }
    assert (Hx : 0 <= (nQ (length (Generator.images g)) - 1)
                      * (VideoConfig.duration (Generator.config g)
                         - VideoConfig.crossfade (Generator.config g)))
      by (apply Qmult_le_0_compat; lra).
    assert (Htitle : 0 <= (if title_enabled g then title_duration g else 0))
      by (destruct (title_enabled g); [now apply Ht | apply Qle_refl]).
    lra.
Qed.

(** With the default ten seconds per image and two seconds of cross-fade,
    one image lasts 10 seconds and five images last 42. *)
Lemma estimate_duration_formula_witness :
  estimate_duration (sample_generator 1) == 10
  /\ estimate_duration (sample_generator 5) == 42.
Proof.
  split.
  - rewrite (proj1 (proj2 (estimate_duration_formula (sample_generator 1)))).
    + reflexivity.
    + discriminate.
    + vm_compute. discriminate.
  - rewrite (proj1 (proj2 (estimate_duration_formula (sample_generator 5)))).
    + reflexivity.
    + discriminate.
    + vm_compute. discriminate.
Defined.

(** C5, as stated, fails when the cross-fade outlasts the slides: three images
    of one second with ten seconds of cross-fade give 0, not 3 - 20. *)
Lemma estimate_duration_unclamped_counterexample :
  Generator.images long_crossfade_generator <> []
  /\ duration_formula long_crossfade_generator == -17
  /\ estimate_duration long_crossfade_generator == 0
  /\ ~ estimate_duration long_crossfade_generator
       == duration_formula long_crossfade_generator.
Proof.
  repeat split; try discriminate; try reflexivity.
Qed.

(** C9: the estimate is never negative, and it is zero whenever the formula is
    negative or zero. *)
Theorem estimate_duration_nonneg (g : Generator.t) :
  0 <= estimate_duration g
  /\ (duration_formula g <= 0 -> estimate_duration g == 0).
Proof.
  destruct (Generator.images g) as [|i l] eqn:E.
  - unfold estimate_duration. rewrite E. split; [apply Qle_refl | reflexivity].
  - assert (Hne : Generator.images g <> []) by congruence.
    destruct (estimate_duration_max g Hne) as (total & Ht & ->).
    destruct (py_max_spec 0 total) as [[Hlt ->] | [Hle ->]].
    + split; [now apply Qlt_le_weak|].
      intro Hf. rewrite <- Ht in Hf. exfalso.
      apply (Qlt_not_le _ _ Hlt Hf).
    + split; [apply Qle_refl | reflexivity].
Qed.

Lemma estimate_duration_nonneg_witness :
  estimate_duration long_crossfade_generator == 0.
Proof.
  apply (proj2 (estimate_duration_nonneg long_crossfade_generator)).
  vm_compute. discriminate.
Defined.

(** ** The cross-fade chain of [_build_filter_complex] *)

Lemma relabel_last_snoc (l : list clause) (c : clause) :
  relabel_last (l ++ [c]) = (l ++ [set_out (LName "v") c])%list.
Proof.
  induction l as [|a l IH]; [reflexivity|].
  simpl app. simpl relabel_last. rewrite IH.
  destruct l; reflexivity.
Qed.

Lemma is_xfade_set_out (lbl : label) (c : clause) :
  is_xfade (set_out lbl c) = is_xfade c.
Proof. destruct c; reflexivity. Qed.

Lemma xfades_relabel_last_snoc (l : list clause) (c : clause) :
  is_xfade c = false -> xfades (relabel_last (l ++ [c])) = xfades l.
Proof.
  intro Hc. rewrite relabel_last_snoc. unfold xfades.
  rewrite filter_app. simpl. rewrite is_xfade_set_out, Hc.
  apply app_nil_r.
Qed.

Section Chain.
Variable cfg : VideoConfig.t.

Let step : Q := VideoConfig.duration cfg - VideoConfig.crossfade cfg.

Lemma xfade_chain_all_xfade (rest : list ImageInfo.t) (i : nat)
    (cur : label) (t : Q) :
  xfades (fst (xfade_chain cfg rest i cur t))
  = fst (xfade_chain cfg rest i cur t).
Proof.
  revert i cur t. induction rest as [|img rest IH]; intros i cur t.
  - reflexivity.
  - simpl. specialize (IH (S i) (LX i) (t + step)). fold step.
    destruct (xfade_chain cfg rest (S i) (LX i) (t + step)) as [cs last].
    simpl in *. now rewrite IH.
Qed.

Lemma xfade_chain_offsets (rest : list ImageInfo.t) (i : nat)
    (cur : label) (t : Q) :
  map xfade_offset (fst (xfade_chain cfg rest i cur t))
  = offsets_from t step (length rest).
Proof.
  revert i cur t. induction rest as [|img rest IH]; intros i cur t.
  - reflexivity.
  - simpl. specialize (IH (S i) (LX i) (t + step)). fold step.
    destruct (xfade_chain cfg rest (S i) (LX i) (t + step)) as [cs last].
    simpl in *. now rewrite IH.
Qed.
End Chain.

Lemma offsets_from_length (t step : Q) (n : nat) :
  length (offsets_from t step n) = n.
Proof.
  revert t. induction n as [|n IH]; intro t; simpl; [reflexivity|].
  now rewrite IH.
Qed.

Lemma offsets_from_lower (t step : Q) (n : nat) (b : Q) :
  0 < step -> b < t -> Forall (Qlt b) (offsets_from t step n).
Proof.
  intros Hs. revert t. induction n as [|n IH]; intros t Hb; simpl.
  - constructor.
  - constructor; [exact Hb|]. apply IH. lra.
Qed.

Lemma offsets_from_sorted (t step : Q) (n : nat) :
  0 < step -> StronglySorted Qlt (offsets_from t step n).
Proof.
  intros Hs. revert t. induction n as [|n IH]; intro t; simpl.
  - constructor.
  - constructor; [apply IH|]. apply offsets_from_lower; lra.
Qed.

(** With at least two images the cross-fade clauses of the graph are those of
    the chain built from the second image on. *)
Lemma xfades_build (g : Generator.t) (ww wt : bool) :
  (2 <= length (Generator.images g))%nat ->
  xfades (_build_filter_complex g ww wt)
  = fst (xfade_chain (Generator.config g) (tl (Generator.images g)) 1 (LV 0)
           (VideoConfig.duration (Generator.config g)
            - VideoConfig.crossfade (Generator.config g))).
Proof.
  intro Hn. unfold _build_filter_complex.
  assert (H1 : (1 <? length (Generator.images g))%nat = true)
    by (apply Nat.ltb_lt; lia).
  rewrite H1.
  pose proof (xfade_chain_all_xfade (Generator.config g)
                (tl (Generator.images g)) 1 (LV 0)
                (VideoConfig.duration (Generator.config g)
                 - VideoConfig.crossfade (Generator.config g))) as Hall.
  destruct (xfade_chain (Generator.config g) (tl (Generator.images g)) 1
              (LV 0) _) as [cs cur].
  simpl fst in *.
  match goal with
  | |- xfades (relabel_last (?st ++ _ ++ ?mk)) = _ =>
      set (stages := st); set (mark := mk)
  end.
  assert (Hst : xfades stages = []).
  { subst stages. clear. induction (Generator.images g) as [|img l IH];
      [reflexivity | exact IH]. }
  assert (Hmark : mark = []
                  \/ exists a b, mark = [a; b] /\ is_xfade a = false
                                 /\ is_xfade b = false).
  { subst mark. destruct (Generator.watermark g) as [wm|]; [|now left].
    destruct (ww && WatermarkConfig.enabled wm); [|now left].
    right. do 2 eexists. split; [reflexivity|]. split; reflexivity. }
  destruct Hmark as [-> | (a & b & -> & Ha & Hb)].
  - rewrite app_nil_r, app_assoc.
    rewrite xfades_relabel_last_snoc by reflexivity.
    unfold xfades in *. rewrite filter_app, Hst, Hall. reflexivity.
  - replace (stages ++ (cs ++ [Format cur (LName "vout")]) ++ [a; b])%list
      with ((stages ++ cs ++ [Format cur (LName "vout"); a]) ++ [b])%list
      by (repeat rewrite <- app_assoc; reflexivity).
    rewrite xfades_relabel_last_snoc by exact Hb.
    unfold xfades in *. rewrite !filter_app, Hst, Hall. simpl.
    rewrite Ha. apply app_nil_r.
Qed.

(** ** The alternate policy of [prepare_images] *)

Lemma mod2_even (k : nat) : (k mod 2 =? 0)%nat = Nat.even k.
Proof.
  rewrite (Nat.div_mod_eq k 2) at 2.
  rewrite Nat.add_comm, Nat.even_add_mul_2.
  pose proof (Nat.mod_upper_bound k 2 ltac:(lia)) as Hb.
  destruct (k mod 2) as [|[|m]]; [reflexivity | reflexivity | lia].
Qed.

Lemma set_nth_length {A} (k : nat) (x : A) (l : list A) :
  length (set_nth k x l) = length l.
Proof.
  revert k. induction l as [|y l IH]; intros [|k]; simpl; auto.
Qed.

Lemma shuffle_from_length (i : nat) (l : list string) (r : rng) :
  length (fst (shuffle_from i l r)) = length l.
Proof.
  revert l r. induction i as [|i IH]; intros l r; simpl; [reflexivity|].
  rewrite IH. unfold swap. now rewrite !set_nth_length.
Qed.

Lemma choose_zoom_alternate (cfg : VideoConfig.t) (i : nat) (r : rng) :
  VideoConfig.zoom_direction cfg = "alternate" ->
  choose_zoom cfg i r = (Nat.even i, r).
Proof.
  intro H. unfold choose_zoom. rewrite H, <- mod2_even. reflexivity.
Qed.

Lemma choose_pan_alternate (cfg : VideoConfig.t) (i : nat) (r : rng) :
  VideoConfig.pan_direction cfg = "alternate" ->
  choose_pan cfg i r = (Nat.even i, r).
Proof.
  intro H. unfold choose_pan. rewrite H, <- mod2_even. reflexivity.
Qed.

Lemma prepare_loop_length (cfg : VideoConfig.t) (i : nat)
    (paths : list string) (r : rng) :
  length (fst (prepare_loop cfg i paths r)) = length paths.
Proof.
  revert i r. induction paths as [|p rest IH]; intros i r; simpl.
  - reflexivity.
  - destruct (choose_zoom cfg i r) as [z r1].
    destruct (choose_pan cfg i r1) as [pl r2].
    destruct (choose_transition cfg r2) as [t r3].
    specialize (IH (S i) r3).
    destruct (prepare_loop cfg (S i) rest r3) as [images r4].
    simpl in *. now rewrite IH.
Qed.

Lemma prepare_loop_alternate (cfg : VideoConfig.t) (i : nat)
    (paths : list string) (r : rng) (k : nat) (img : ImageInfo.t) :
  VideoConfig.zoom_direction cfg = "alternate" ->
  VideoConfig.pan_direction cfg = "alternate" ->
  nth_error (fst (prepare_loop cfg i paths r)) k = Some img ->
  ImageInfo.index img = (i + k)%nat
  /\ ImageInfo.zoom_in img = Nat.even (i + k)
  /\ ImageInfo.pan_left_to_right img = Nat.even (i + k).
Proof.
  intros Hz Hp. revert i r k.
  induction paths as [|p rest IH]; intros i r k; simpl.
  - destruct k; discriminate.
  - rewrite (choose_zoom_alternate _ _ _ Hz), (choose_pan_alternate _ _ _ Hp).
    destruct (choose_transition cfg r) as [t r3].
    specialize (IH (S i) r3).
    destruct (prepare_loop cfg (S i) rest r3) as [images r4].
    simpl in *. destruct k as [|k]; simpl.
    + intro E. injection E as <-. simpl. rewrite Nat.add_0_r. auto.
    + intro E. apply IH in E. now rewrite Nat.add_succ_r.
Qed.

(** C4: under the alternate zoom and pan policies [prepare_images] returns
    one entry per path, the entry at position [k] carries index [k], and it
    zooms in and pans left to right exactly when [k] is even; the entries at
    positions 0 and 2 therefore agree, whatever the length, the ordering or
    the transition policy. *)
Theorem alternate_policy_parity (g : Generator.t) (paths : list string)
    (r : rng) :
  paths <> [] ->
  VideoConfig.zoom_direction (Generator.config g) = "alternate" ->
  VideoConfig.pan_direction (Generator.config g) = "alternate" ->
  exists images g' r',
    prepare_images g paths r = (inr images, g', r')
    /\ Generator.images g' = images
    /\ length images = length paths
    /\ (forall k img, nth_error images k = Some img ->
          ImageInfo.index img = k
          /\ ImageInfo.zoom_in img = Nat.even k
          /\ ImageInfo.pan_left_to_right img = Nat.even k)
    /\ (forall a c,
          nth_error images 0 = Some a -> nth_error images 2 = Some c ->
          ImageInfo.zoom_in a = ImageInfo.zoom_in c
          /\ ImageInfo.pan_left_to_right a = ImageInfo.pan_left_to_right c).
Proof.
  intros Hne Hz Hp. unfold prepare_images.
  destruct paths as [|p0 rest] eqn:Epaths; [congruence|].
  rewrite <- Epaths. clear Hne.
  set (ordered :=
         if VideoConfig.shuffle (Generator.config g) then shuffle paths r
         else if VideoConfig.reverse (Generator.config g)
              then (rev paths, r) else (paths, r)).
  assert (Hlen : length (fst ordered) = length paths).
  { subst ordered. destruct (VideoConfig.shuffle (Generator.config g)).
    - apply shuffle_from_length.
    - destruct (VideoConfig.reverse (Generator.config g)); simpl;
        [apply length_rev | reflexivity]. }
  destruct ordered as [o r1]. simpl in Hlen.
  pose proof (prepare_loop_length (Generator.config g) 0 o r1) as Hl.
  pose proof (fun k img =>
                @prepare_loop_alternate (Generator.config g) 0 o r1 k img Hz Hp)
    as Hall.
  destruct (prepare_loop (Generator.config g) 0 o r1) as [images r2].
  simpl in Hl, Hall.
  exists images, (Generator.set_images images g), r2.
  split; [reflexivity|]. split; [reflexivity|].
  split; [congruence|]. split; [exact Hall|].
  intros a c Ha Hc.
  destruct (Hall _ _ Ha) as (_ & -> & ->).
  destruct (Hall _ _ Hc) as (_ & -> & ->). split; reflexivity.
Qed.

(** Three paths, shuffled, with random transitions: the entries at positions
    0 and 2 zoom in and pan left to right, the entry at position 1 does not. *)
Lemma alternate_policy_parity_witness :
  exists images g' r',
    prepare_images shuffling_generator ["a.png"; "b.png"; "c.png"] sample_rng
    = (inr images, g', r')
    /\ map ImageInfo.zoom_in images = [true; false; true]
    /\ map ImageInfo.pan_left_to_right images = [true; false; true].
Proof.
  destruct (@alternate_policy_parity shuffling_generator
              ["a.png"; "b.png"; "c.png"] sample_rng
              ltac:(discriminate) eq_refl eq_refl)
    as (images & g' & r' & E & _ & Hlen & Hall & _).
  exists images, g', r'. split; [exact E|].
  destruct images as [|a [|b [|c [|d l]]]]; try discriminate Hlen.
  destruct (Hall 0%nat a eq_refl) as (_ & Ha1 & Ha2).
  destruct (Hall 1%nat b eq_refl) as (_ & Hb1 & Hb2).
  destruct (Hall 2%nat c eq_refl) as (_ & Hc1 & Hc2).
  simpl. rewrite Ha1, Ha2, Hb1, Hb2, Hc1, Hc2. split; reflexivity.
Defined.

(** ** The progress parser *)

Lemma search_some {A} (m : string -> option A) (s : string) (x : A) :
  search m s = Some x -> exists t, m t = Some x.
Proof.
  induction s as [|c s IH]; simpl.
  - destruct (m "") eqn:E; [|discriminate]. intros [= <-]. now exists "".
  - destruct (m (String c s)) eqn:E.
    + intros [= <-]. now exists (String c s).
    + exact IH.
Qed.

Lemma digit_not_dot (c : ascii) : is_digit c = true -> is_dot c = false.
Proof.
  unfold is_dot.
  destruct (Ascii.eqb_spec c "."); [subst; discriminate | reflexivity].
Qed.

Lemma count_dot_digits (p : string) :
  count_char is_dot (take_while is_digit p) = 0%nat.
Proof.
  induction p as [|c p IH]; simpl; [reflexivity|].
  destruct (is_digit c) eqn:E; simpl; [|reflexivity].
  now rewrite (digit_not_dot _ E), IH.
Qed.

Lemma remove_dot_digits (p : string) :
  remove_char is_dot (take_while is_digit p) = take_while is_digit p.
Proof.
  induction p as [|c p IH]; simpl; [reflexivity|].
  destruct (is_digit c) eqn:E; simpl; [|reflexivity].
  now rewrite (digit_not_dot _ E), IH.
Qed.

Lemma count_char_app (p : ascii -> bool) (a b : string) :
  count_char p (a ++ b) = (count_char p a + count_char p b)%nat.
Proof. induction a as [|c a IH]; simpl; [reflexivity|]. rewrite IH. lia. Qed.

Lemma remove_char_app (p : ascii -> bool) (a b : string) :
  remove_char p (a ++ b) = remove_char p a ++ remove_char p b.
Proof.
  induction a as [|c a IH]; simpl; [reflexivity|].
  rewrite IH. now destruct (p c).
Qed.

Lemma run1_digits (s t rest : string) :
  run1 is_digit s = Some (t, rest) ->
  t = take_while is_digit s /\ t <> "".
Proof.
  unfold run1. destruct (take_while is_digit s) eqn:E; [discriminate|].
  intros [= <- _]. split; [reflexivity | discriminate].
Qed.

(** The third group of the time pattern is always a text [float] accepts. *)
Lemma time_at_float (t h m s : string) :
  time_at t = Some (h, m, s) -> exists sec, py_float s = inr sec.
Proof.
  unfold time_at.
  destruct (strip_prefix "time=" t) as [r|]; [|discriminate].
  destruct (run1 is_digit (drop_while is_space r)) as [[h' r1]|];
    [|discriminate].
  destruct (strip_prefix ":" r1) as [r2|]; [|discriminate].
  destruct (run1 is_digit r2) as [[m' r3]|]; [|discriminate].
  destruct (strip_prefix ":" r3) as [r4|]; [|discriminate].
  destruct (run1 is_digit r4) as [[whole r5]|] eqn:Ew; [|discriminate].
  apply run1_digits in Ew. destruct Ew as [-> Hne]. intro H.
  assert (Hs : s = take_while is_digit r4
               \/ exists r6,
                    s = take_while is_digit r4 ++ "."
                        ++ take_while is_digit r6).
  { destruct r5 as [|c r6]; [left; congruence|].
    destruct (Ascii.eqb_spec c ".") as [->|Hc].
    - right. exists r6. congruence.
    - left. destruct c as [[] [] [] [] [] [] [] []]; congruence. }
  clear H. destruct Hs as [-> | [r6 ->]]; unfold py_float.
  - rewrite count_dot_digits, remove_dot_digits. simpl.
    destruct (String.eqb_spec (take_while is_digit r4) ""); [contradiction|].
    simpl. eexists. reflexivity.
  - rewrite !count_char_app, !remove_char_app, !count_dot_digits,
      !remove_dot_digits.
    simpl.
    destruct (String.eqb_spec
                (take_while is_digit r4 ++ take_while is_digit r6) "")
      as [E|E].
    + destruct (take_while is_digit r4); [contradiction | discriminate].
    + simpl. eexists. reflexivity.
Qed.

Section Frame.
Context {B : Type} (f : ProgressInfo.t -> B).






End Frame.








Lemma parse_frame_returns (line : string) (s : ProgressInfo.t) :
  parse_frame line s
  = (inr tt, match search frame_at line with
             | Some d => set_frame (py_int d) s
             | None => s
             end).
Proof. unfold parse_frame. now destruct (search frame_at line). Qed.




(** ** [find_images] *)

Lemma insert_sorted_perm (x : string) (l : list string) :
  Permutation (x :: l) (insert_sorted x l).
Proof.
  induction l as [|y l IH]; simpl; [reflexivity|].
  destruct (String.leb x y); [reflexivity|].
  rewrite perm_swap. now constructor.
Qed.

Lemma py_sorted_perm (l : list string) : Permutation l (py_sorted l).
Proof.
  induction l as [|x l IH]; simpl; [reflexivity|].
  rewrite <- insert_sorted_perm. now constructor.
Qed.

Lemma insert_sorted_hd (a x : string) (l : list string) :
  string_le a x -> HdRel string_le a l -> HdRel string_le a (insert_sorted x l).
Proof.
  intros Hax Hal. destruct l as [|y l]; simpl.
  - now constructor.
  - destruct (String.leb x y); constructor; [assumption|].
    now inversion Hal.
Qed.

Lemma insert_sorted_sorted (x : string) (l : list string) :
  Sorted string_le l -> Sorted string_le (insert_sorted x l).
Proof.
  induction 1 as [|y l Hs IH Hd]; simpl.
  - repeat constructor.
  - destruct (String.leb x y) eqn:E.
    + constructor; [now constructor | now constructor].
    + constructor; [exact IH|].
      apply insert_sorted_hd; [|exact Hd].
      destruct (String.leb_total x y) as [H|H]; [congruence | exact H].
Qed.

Lemma py_sorted_sorted (l : list string) : Sorted string_le (py_sorted l).
Proof.
  induction l as [|x l IH]; simpl; [constructor|].
  now apply insert_sorted_sorted.
Qed.

(** The list [find_images] returns is sorted and has no repetition. *)
Lemma find_images_sorted (fs : filesystem) (path : string) :
  Sorted string_le (find_images fs path).
Proof. apply py_sorted_sorted. Qed.

Lemma find_images_nodup (fs : filesystem) (path : string) :
  NoDup (find_images fs path).
Proof.
  unfold find_images. eapply Permutation_NoDup; [apply py_sorted_perm|].
  apply NoDup_nodup.
Qed.

(** A single file is returned alone when its lower-cased suffix is supported,
    and not at all otherwise. *)
Lemma find_images_file (fs : filesystem) (path : string) :
  fs path = Some File ->
  find_images fs path
  = if in_strings (lower (path_suffix path)) SUPPORTED_FORMATS
    then [path] else [].
Proof.
  intro E. unfold find_images. rewrite E.
  now destruct (in_strings (lower (path_suffix path)) SUPPORTED_FORMATS).
Qed.

Lemma find_images_missing (fs : filesystem) (path : string) :
  path_exists fs path = false -> find_images fs path = [].
Proof.
  unfold path_exists, find_images. destruct (fs path); [discriminate|].
  reflexivity.
Qed.

(** In a directory [find_images] returns the entries whose name ends in a
    supported extension written in lower case or in upper case. *)
Lemma find_images_directory (fs : filesystem) (path : string)
    (entries : list string) (x : string) :
  fs path = Some (Dir entries) ->
  In x (find_images fs path)
  <-> exists name, In name entries /\ matches_extension name = true
                   /\ x = joinpath path name.
Proof.
  intro E. unfold find_images. rewrite E.
  split.
  - intro H. apply (Permutation_in _ (Permutation_sym (py_sorted_perm _))) in H.
    apply nodup_In in H. apply in_flat_map in H.
    destruct H as (ext & Hext & H). apply in_app_or in H.
    unfold glob_ext in H. rewrite !in_map_iff in H.
    assert (Hn : exists name, joinpath path name = x /\ In name entries
                   /\ (ends_with ext name || ends_with (upper ext) name)
                      = true).
    { destruct H as [(n & <- & H) | (n & <- & H)];
        apply filter_In in H; destruct H as [Hin Hm]; exists n;
        (split; [reflexivity|]); (split; [exact Hin|]); rewrite Hm;
        [reflexivity | apply orb_true_r]. }
    destruct Hn as (name & <- & Hin & Hm). exists name.
    split; [exact Hin|]. split; [|reflexivity].
    unfold matches_extension. apply existsb_exists. now exists ext.
  - intros (name & Hin & Hm & ->).
    apply (Permutation_in _ (py_sorted_perm _)). apply nodup_In.
    unfold matches_extension in Hm. apply existsb_exists in Hm.
    destruct Hm as (ext & Hext & Hm). apply in_flat_map. exists ext.
    split; [exact Hext|]. apply in_or_app. unfold glob_ext.
    apply orb_true_iff in Hm. destruct Hm as [Hm|Hm]; [left|right];
      apply in_map; apply filter_In; now split.
Qed.

(** C8 fails on the code: in a directory the two globs select the extension
    written in lower case and in upper case only, so an image named
    [photo.Jpg] is not found, while the same file given as a single path is
    found through [suffix.lower()]. *)
Theorem find_images_mixed_case_directory :
  mixed_case_fs "pics" = Some (Dir ["photo.Jpg"])
  /\ find_images mixed_case_fs "pics" = []
  /\ find_images mixed_case_fs "pics/photo.Jpg" = ["pics/photo.Jpg"]
  /\ in_strings (lower (path_suffix "pics/photo.Jpg")) SUPPORTED_FORMATS = true.
Proof.
  repeat split.
Qed.

(** ** The driver *)

(** [prepare_images] and the pump loop leave the configuration alone. *)
Lemma prepare_images_generator (g : Generator.t) (paths : list string)
    (r : rng) :
  Generator.config (snd (fst (prepare_images g paths r))) = Generator.config g
  /\ Generator._stop_flag (snd (fst (prepare_images g paths r)))
     = Generator._stop_flag g.
Proof.
  unfold prepare_images. destruct paths as [|p rest]; [now split|].
  destruct (if VideoConfig.shuffle (Generator.config g) then _ else _)
    as [o r1].
  destruct (prepare_loop (Generator.config g) 0 o r1) as [images r2].
  now split.
Qed.

Lemma pump_config (cb : bar_callback) (total : Q) (its : list iteration)
    (g : Generator.t) :
  Generator.config (snd (pump cb total its g)) = Generator.config g.
Proof.
  revert g. induction its as [|it rest IH]; intro g; simpl.
  - now destruct (Generator._stop_flag g).
  - destruct (cancel_requested it); simpl.
    + reflexivity.
    + destruct (Generator._stop_flag g); [reflexivity|].
      destruct (String.eqb (line it) "").
      * destruct (exited it); [reflexivity | apply IH].
      * destruct cb as [f|]; [|apply IH].
        destruct (_parse_ffmpeg_progress _ _ _ _) as [[e|u] info];
          [reflexivity|].
        destruct (f info); [reflexivity|]. now rewrite IH.
Qed.

(** The loop ends on a cancellation only if [cancel] is called at one of its
    turns, when the flag is down on entry. *)
Lemma pump_cancelled (cb : bar_callback) (total : Q) (its : list iteration)
    (g g' : Generator.t) :
  Generator._stop_flag g = false ->
  pump cb total its g = (PumpCancelled, g') ->
  exists it, In it its /\ cancel_requested it = true.
Proof.
  revert g. induction its as [|it rest IH]; intros g Hg; simpl.
  - rewrite Hg. discriminate.
  - destruct (cancel_requested it) eqn:Ec.
    + intros _. exists it. split; [now left | exact Ec].
    + rewrite Hg.
      assert (Hrest : forall g1, Generator._stop_flag g1 = false ->
                 pump cb total rest g1 = (PumpCancelled, g') ->
                 exists it0,
                   In it0 (it :: rest) /\ cancel_requested it0 = true).
      { intros g1 H1 H2. destruct (IH g1 H1 H2) as (it0 & Hin & Hc).
        exists it0. split; [now right | exact Hc]. }
      destruct (String.eqb (line it) "").
      * destruct (exited it); [discriminate | now apply Hrest].
      * destruct cb as [f|]; [|now apply Hrest].
        destruct (_parse_ffmpeg_progress _ _ _ _) as [[e|u] info];
          [discriminate|].
        destruct (f info); [discriminate|]. apply Hrest. exact Hg.
Qed.

Lemma set_stop_flag_cancel (g : Generator.t) :
  Generator.set_stop_flag false (cancel g) = Generator.set_stop_flag false g.
Proof. reflexivity. Qed.

(** C10: a [cancel] issued before [generate] changes nothing, the run being
    the same as without it, since the flag is lowered on entry; and a run
    ends as cancelled only if the child was started and [cancel] was called
    at one of the turns of the pump loop. *)
Theorem cancel_before_generate_is_reset (fs : filesystem) (r : rng)
    (child : popen) (g : Generator.t)
    (image_path audio_path output_path : string)
    (cb1 : text_callback) (cb2 : bar_callback) (preview : bool) :
  generate fs r child (cancel g) image_path audio_path output_path
    cb1 cb2 preview
  = generate fs r child g image_path audio_path output_path cb1 cb2 preview
  /\ (result (generate fs r child (cancel g) image_path audio_path output_path
                cb1 cb2 preview)
      = Returned false GenerationCancelled ->
      exists p, child = PopenStarts p
                /\ exists it, In it (script p) /\ cancel_requested it = true).
Proof.
  split; [reflexivity|].
  unfold generate. rewrite set_stop_flag_cancel.
  destruct (negb (path_exists fs audio_path)); [discriminate|].
  destruct (negb (in_strings _ SUPPORTED_AUDIO)); [discriminate|].
  destruct (find_images fs image_path) as [|f files]; [discriminate|].
  pose proof (prepare_images_generator (Generator.set_stop_flag false g)
                (f :: files) r) as [_ Hflag].
  destruct (prepare_images _ (f :: files) r) as [[[e|images] g1] r1];
    [discriminate|].
  simpl in Hflag.
  destruct (call cb1 _); [discriminate|].
  destruct (call cb1 _); [discriminate|].
  destruct child as [e|p].
  - destruct e; discriminate.
  - intro H. exists p. split; [reflexivity|].
    destruct (pump cb2 _ (script p) _) as [[| |e] g2] eqn:Ep.
    + destruct (negb _); [discriminate|].
      destruct (output_size p); discriminate.
    + eapply pump_cancelled; [|exact Ep]. now destruct preview.
    + destruct e; discriminate.
Qed.

(** A run cancelled at its second turn, entered with the flag up. *)
Lemma cancel_before_generate_is_reset_witness :
  result (generate sample_fs sample_rng (PopenStarts cancelled_child)
            (cancel default_generator) "pics" "song.mp3" "out.mp4"
            None silent_bar false)
  = result (generate sample_fs sample_rng (PopenStarts cancelled_child)
              default_generator "pics" "song.mp3" "out.mp4"
              None silent_bar false)
  /\ exists it, In it (script cancelled_child) /\ cancel_requested it = true.
Proof.
  destruct (cancel_before_generate_is_reset sample_fs sample_rng
              (PopenStarts cancelled_child) default_generator
              "pics" "song.mp3" "out.mp4" None silent_bar false)
    as [Heq Hobs].
  split.
  - now rewrite Heq.
  - destruct (Hobs eq_refl) as (p & Hp & Hit).
    injection Hp as <-. exact Hit.
Defined.

(** C7, as the code has it: a missing audio file is reported as not found, an
    audio file with an unsupported suffix as unsupported, and an image source
    that yields no image as having no images, each time without starting the
    child; an image source that does not exist yields no image, so it is
    reported as having no images. *)
Theorem validation_failures (fs : filesystem) (r : rng) (child : popen)
    (g : Generator.t) (image_path audio_path output_path : string)
    (cb1 : text_callback) (cb2 : bar_callback) (preview : bool) :
  (path_exists fs audio_path = false ->
   result (generate fs r child g image_path audio_path output_path
             cb1 cb2 preview)
   = Returned false (AudioNotFound audio_path)
   /\ failure_class
        (result (generate fs r child g image_path audio_path output_path
                   cb1 cb2 preview)) = Some InputNotFound
   /\ launches (generate fs r child g image_path audio_path output_path
                  cb1 cb2 preview) = [])
  /\ (path_exists fs audio_path = true ->
      in_strings (lower (path_suffix audio_path)) SUPPORTED_AUDIO = false ->
      result (generate fs r child g image_path audio_path output_path
                cb1 cb2 preview)
      = Returned false (UnsupportedAudio (path_suffix audio_path))
      /\ failure_class
           (result (generate fs r child g image_path audio_path output_path
                      cb1 cb2 preview)) = Some UnsupportedFormat
      /\ launches (generate fs r child g image_path audio_path output_path
                     cb1 cb2 preview) = [])
  /\ (path_exists fs audio_path = true ->
      in_strings (lower (path_suffix audio_path)) SUPPORTED_AUDIO = true ->
      find_images fs image_path = [] ->
      result (generate fs r child g image_path audio_path output_path
                cb1 cb2 preview)
      = Returned false (NoImagesFoundIn image_path)
      /\ failure_class
           (result (generate fs r child g image_path audio_path output_path
                      cb1 cb2 preview)) = Some NoImagesFound
      /\ launches (generate fs r child g image_path audio_path output_path
                     cb1 cb2 preview) = [])
  /\ (path_exists fs image_path = false -> find_images fs image_path = []).
Proof.
  split; [|split; [|split]].
  - intro Ha. unfold generate. rewrite Ha. simpl. auto.
  - intros Ha Hs. unfold generate. rewrite Ha, Hs. simpl. auto.
  - intros Ha Hs Hi. unfold generate. rewrite Ha, Hs, Hi. simpl. auto.
  - apply find_images_missing.
Qed.

(** The three failures on the sample file system. *)
Lemma validation_failures_witness :
  failure_class
    (result (generate sample_fs sample_rng (PopenStarts finished_child)
               default_generator "pics" "nosong.mp3" "out.mp4"
               None silent_bar false)) = Some InputNotFound
  /\ launches (generate sample_fs sample_rng (PopenStarts finished_child)
                 default_generator "pics" "nosong.mp3" "out.mp4"
                 None silent_bar false) = []
  /\ failure_class
       (result (generate sample_fs sample_rng (PopenStarts finished_child)
                  default_generator "pics" "notes.txt" "out.mp4"
                  None silent_bar false)) = Some UnsupportedFormat
  /\ failure_class
       (result (generate sample_fs sample_rng (PopenStarts finished_child)
                  default_generator "empty" "song.mp3" "out.mp4"
                  None silent_bar false)) = Some NoImagesFound.
Proof.
  split; [|split; [|split]].
  - apply (proj1 (validation_failures sample_fs sample_rng
                    (PopenStarts finished_child) default_generator
                    "pics" "nosong.mp3" "out.mp4" None silent_bar false)).
    reflexivity.
  - apply (proj1 (validation_failures sample_fs sample_rng
                    (PopenStarts finished_child) default_generator
                    "pics" "nosong.mp3" "out.mp4" None silent_bar false)).
    reflexivity.
  - apply (proj1 (proj2 (validation_failures sample_fs sample_rng
                    (PopenStarts finished_child) default_generator
                    "pics" "notes.txt" "out.mp4" None silent_bar false)));
      reflexivity.
  - apply (proj1 (proj2 (proj2 (validation_failures sample_fs sample_rng
                    (PopenStarts finished_child) default_generator
                    "empty" "song.mp3" "out.mp4" None silent_bar false))));
      reflexivity.
Defined.

(** C7, as stated, fails for an image source that does not exist: the
    failure is the one of a source without images. *)
Lemma missing_image_source_counterexample :
  path_exists sample_fs "nowhere" = false
  /\ result (generate sample_fs sample_rng (PopenStarts finished_child)
               default_generator "nowhere" "song.mp3" "out.mp4"
               None silent_bar false)
     = Returned false (NoImagesFoundIn "nowhere")
  /\ failure_class
       (result (generate sample_fs sample_rng (PopenStarts finished_child)
                  default_generator "nowhere" "song.mp3" "out.mp4"
                  None silent_bar false))
     <> Some InputNotFound.
Proof.
  split; [reflexivity|]. split; [reflexivity|]. discriminate.
Qed.

Lemma restore_save_config (c c' : VideoConfig.t) :
  save_config (restore_config (save_config c) c') = save_config c.
Proof. reflexivity. Qed.

(** When the pump loop runs to the end of the stream, whatever the exit status
    of the child and whether or not the output exists, the five fields are
    back to their values before the call. *)
Lemma preview_restored_on_normal_exit (fs : filesystem) (r : rng)
    (child : popen) (g : Generator.t)
    (image_path audio_path output_path : string)
    (cb1 : text_callback) (cb2 : bar_callback) (m : message) (b : bool) :
  result (generate fs r child g image_path audio_path output_path cb1 cb2 true)
  = Returned b m ->
  (exists size, m = VideoCreated output_path size)
  \/ (exists err, m = FFmpegError err) \/ m = OutputNotCreated ->
  save_config
    (Generator.config
       (final (generate fs r child g image_path audio_path output_path
                 cb1 cb2 true)))
  = save_config (Generator.config g).
Proof.
  unfold generate.
  destruct (negb (path_exists fs audio_path));
    [intros [= <- <-] [[? ?]|[[? ?]|?]]; discriminate|].
  destruct (negb (in_strings _ SUPPORTED_AUDIO));
    [intros [= <- <-] [[? ?]|[[? ?]|?]]; discriminate|].
  destruct (find_images fs image_path) as [|f files];
    [intros [= <- <-] [[? ?]|[[? ?]|?]]; discriminate|].
  pose proof (prepare_images_generator (Generator.set_stop_flag false g)
                (f :: files) r) as [Hcfg _].
  destruct (prepare_images _ (f :: files) r) as [[[e|images] g1] r1];
    [discriminate|].
  simpl in Hcfg.
  destruct (call cb1 _); [discriminate|].
  destruct (call cb1 _); [discriminate|].
  destruct child as [e|p].
  - intros [= <- <-] [[? ?]|[[? ?]|?]]; destruct e; discriminate.
  - pose proof (pump_config cb2
                  (estimate_duration
                     (Generator.set_config
                        (preview_config (Generator.config g1)) g1))
                  (script p)
                  (Generator.set_config
                     (preview_config (Generator.config g1)) g1)) as Hp.
    destruct (pump cb2 _ (script p) _) as [[| |e] g2].
    + intros _ _. rewrite <- Hcfg.
      destruct (negb _); [reflexivity|].
      destruct (output_size p); reflexivity.
    + intros [= <- <-] [[? ?]|[[? ?]|?]]; discriminate.
    + intros [= <- <-] [[? ?]|[[? ?]|?]]; destruct e; discriminate.
Qed.

(** C1 fails on the code: after a preview run that is cancelled, or whose
    child cannot be started, the configuration still holds the preview
    values; after a run that ends normally it holds the original ones. *)
Theorem preview_settings_leak :
  save_config (Generator.config default_generator)
  = (1920, 1080, 60, 18, "slow")%Z
  /\ result (generate_preview sample_fs sample_rng (PopenStarts cancelled_child)
               default_generator "pics" "song.mp3" "out.mp4" None silent_bar)
     = Returned false GenerationCancelled
  /\ save_config
       (Generator.config
          (final (generate_preview sample_fs sample_rng
                    (PopenStarts cancelled_child) default_generator
                    "pics" "song.mp3" "out.mp4" None silent_bar)))
     = (640, 360, 15, 35, "ultrafast")%Z
  /\ result (generate_preview sample_fs sample_rng
               (PopenRaises FileNotFoundError)
               default_generator "pics" "song.mp3" "out.mp4" None silent_bar)
     = Returned false FFmpegNotFound
  /\ save_config
       (Generator.config
          (final (generate_preview sample_fs sample_rng
                    (PopenRaises FileNotFoundError) default_generator
                    "pics" "song.mp3" "out.mp4" None silent_bar)))
     = (640, 360, 15, 35, "ultrafast")%Z
  /\ save_config
       (Generator.config
          (final (generate_preview sample_fs sample_rng
                    (PopenStarts finished_child) default_generator
                    "pics" "song.mp3" "out.mp4" None silent_bar)))
     = (1920, 1080, 60, 18, "slow")%Z.
Proof.
  repeat split.
Qed.

(** A preview run that ends on a cancellation, on a failure to start the
    child or on an exception caught by the driver returns with the preview
    values in the configuration. *)
Lemma preview_kept_on_early_exit (fs : filesystem) (r : rng)
    (child : popen) (g : Generator.t)
    (image_path audio_path output_path : string)
    (cb1 : text_callback) (cb2 : bar_callback) (m : message) :
  result (generate fs r child g image_path audio_path output_path cb1 cb2 true)
  = Returned false m ->
  m = GenerationCancelled \/ m = FFmpegNotFound
  \/ (exists e, m = ErrorText e) ->
  save_config
    (Generator.config
       (final (generate fs r child g image_path audio_path output_path
                 cb1 cb2 true)))
  = (640, 360, 15, 35, "ultrafast")%Z.
Proof.
  unfold generate.
  destruct (negb (path_exists fs audio_path));
    [intros [= <-] [?|[?|[? ?]]]; discriminate|].
  destruct (negb (in_strings _ SUPPORTED_AUDIO));
    [intros [= <-] [?|[?|[? ?]]]; discriminate|].
  destruct (find_images fs image_path) as [|f files];
    [intros [= <-] [?|[?|[? ?]]]; discriminate|].
  destruct (prepare_images _ (f :: files) r) as [[[e|images] g1] r1];
    [discriminate|].
  destruct (call cb1 _); [discriminate|].
  destruct (call cb1 _); [discriminate|].
  destruct child as [e|p].
  - intros _ _. reflexivity.
  - pose proof (pump_config cb2
                  (estimate_duration
                     (Generator.set_config
                        (preview_config (Generator.config g1)) g1))
                  (script p)
                  (Generator.set_config
                     (preview_config (Generator.config g1)) g1)) as Hp.
    destruct (pump cb2 _ (script p) _) as [[| |e] g2]; simpl in Hp.
    + destruct (negb _);
        [intros [= <-] [?|[?|[? ?]]]; discriminate|].
      destruct (output_size p); [discriminate|].
      intros [= <-] [?|[?|[? ?]]]; discriminate.
    + intros _ _. simpl. now rewrite Hp.
    + intros _ _. simpl. now rewrite Hp.
Qed.

(** ** More on [prepare_images] *)

Lemma set_nth_perm {A} (d x : A) (k : nat) (l : list A) :
  (k < length l)%nat -> Permutation (nth k l d :: set_nth k x l) (x :: l).
Proof.
  revert k. induction l as [|y l IH]; intros k Hk; simpl in Hk; [lia|].
  destruct k as [|k]; simpl.
  - apply perm_swap.
  - rewrite perm_swap. rewrite (IH k) by lia. apply perm_swap.
Qed.

Lemma swap_perm {A} (d : A) (i j : nat) (l : list A) :
  (i < length l)%nat -> (j < length l)%nat -> Permutation (swap d i j l) l.
Proof.
  unfold swap. revert i j.
  induction l as [|x l IH]; intros i j Hi Hj; simpl in Hi, Hj; [lia|].
  destruct i as [|i], j as [|j]; simpl.
  - reflexivity.
  - apply set_nth_perm. lia.
  - apply set_nth_perm. lia.
  - constructor. apply IH; lia.
Qed.

Lemma swap_length {A} (d : A) (i j : nat) (l : list A) :
  length (swap d i j l) = length l.
Proof. unfold swap. now rewrite !set_nth_length. Qed.

Lemma shuffle_from_perm (i : nat) (l : list string) (r : rng) :
  (i < length l)%nat \/ i = 0%nat ->
  Permutation (fst (shuffle_from i l r)) l.
Proof.
  revert l r. induction i as [|i IH]; intros l r Hi; [reflexivity|].
  destruct Hi as [Hi|Hi]; [|discriminate].
  cbn [shuffle_from randbelow].
  assert (Hj : ((r 0%nat) mod S (S i) < length l)%nat).
  { pose proof (Nat.mod_upper_bound (r 0%nat) (S (S i)) ltac:(lia)). lia. }
  rewrite IH by (left; rewrite swap_length; lia).
  now apply swap_perm.
Qed.

Lemma shuffle_perm (l : list string) (r : rng) :
  Permutation (fst (shuffle l r)) l.
Proof.
  unfold shuffle. apply shuffle_from_perm.
  destruct l as [|x l]; [now right | left; simpl; lia].
Qed.

Lemma prepare_loop_paths (cfg : VideoConfig.t) (i : nat)
    (paths : list string) (r : rng) :
  map ImageInfo.path (fst (prepare_loop cfg i paths r)) = paths.
Proof.
  revert i r. induction paths as [|p rest IH]; intros i r; simpl.
  - reflexivity.
  - destruct (choose_zoom cfg i r) as [z r1].
    destruct (choose_pan cfg i r1) as [pl r2].
    destruct (choose_transition cfg r2) as [t r3].
    specialize (IH (S i) r3).
    destruct (prepare_loop cfg (S i) rest r3) as [images r4].
    simpl in *. now rewrite IH.
Qed.

Lemma prepare_loop_index (cfg : VideoConfig.t) (i : nat)
    (paths : list string) (r : rng) :
  map ImageInfo.index (fst (prepare_loop cfg i paths r))
  = seq i (length paths).
Proof.
  revert i r. induction paths as [|p rest IH]; intros i r; simpl.
  - reflexivity.
  - destruct (choose_zoom cfg i r) as [z r1].
    destruct (choose_pan cfg i r1) as [pl r2].
    destruct (choose_transition cfg r2) as [t r3].
    specialize (IH (S i) r3).
    destruct (prepare_loop cfg (S i) rest r3) as [images r4].
    simpl in *. now rewrite IH.
Qed.

Lemma prepare_images_returns (g : Generator.t) (paths : list string) (r : rng) :
  paths <> [] ->
  exists images r',
    prepare_images g paths r
    = (inr images, Generator.set_images images g, r')
    /\ map ImageInfo.path images = ordered_paths (Generator.config g) paths r
    /\ map ImageInfo.index images = seq 0 (length paths).
Proof.
  intro Hne. unfold prepare_images, ordered_paths.
  destruct paths as [|p0 rest] eqn:E; [congruence|]. rewrite <- E.
  assert (Hlen : forall o, Permutation o paths -> length o = length paths)
    by (intros o Ho; now apply Permutation_length).
  destruct (VideoConfig.shuffle (Generator.config g)).
  - pose proof (shuffle_perm paths r) as Hp.
    destruct (shuffle paths r) as [o r1]. simpl in *.
    pose proof (prepare_loop_paths (Generator.config g) 0 o r1) as H1.
    pose proof (prepare_loop_index (Generator.config g) 0 o r1) as H2.
    destruct (prepare_loop (Generator.config g) 0 o r1) as [images r2].
    exists images, r2. simpl in *. rewrite H2, (Hlen _ Hp). auto.
  - destruct (VideoConfig.reverse (Generator.config g)).
    + pose proof (prepare_loop_paths (Generator.config g) 0 (rev paths) r) as H1.
      pose proof (prepare_loop_index (Generator.config g) 0 (rev paths) r) as H2.
      destruct (prepare_loop (Generator.config g) 0 (rev paths) r)
        as [images r2].
      exists images, r2. simpl in *. rewrite H2, length_rev. auto.
    + pose proof (prepare_loop_paths (Generator.config g) 0 paths r) as H1.
      pose proof (prepare_loop_index (Generator.config g) 0 paths r) as H2.
      destruct (prepare_loop (Generator.config g) 0 paths r) as [images r2].
      exists images, r2. simpl in *. auto.
Qed.

Lemma ordered_paths_perm (cfg : VideoConfig.t) (paths : list string)
    (r : rng) :
  Permutation (ordered_paths cfg paths r) paths.
Proof.
  unfold ordered_paths.
  destruct (VideoConfig.shuffle cfg); [apply shuffle_perm|].
  destruct (VideoConfig.reverse cfg);
    [symmetry; apply Permutation_rev | reflexivity].
Qed.

(** X1. For a list of paths that is not empty [prepare_images] returns, and stores
    in the generator, one image per path: the paths of the images are a
    permutation of the paths given, the indices count 0, 1, 2, ... in the
    order of the result, the order is the given one without shuffle and
    reverse, and the reversed one with reverse alone. *)
Theorem prepare_images_keeps_every_path (g : Generator.t)
    (paths : list string) (r : rng) :
  paths <> [] ->
  exists images g' r',
    prepare_images g paths r = (inr images, g', r')
    /\ Generator.images g' = images
    /\ map ImageInfo.index images = seq 0 (length paths)
    /\ Permutation (map ImageInfo.path images) paths
    /\ (VideoConfig.shuffle (Generator.config g) = false ->
        VideoConfig.reverse (Generator.config g) = false ->
        map ImageInfo.path images = paths)
    /\ (VideoConfig.shuffle (Generator.config g) = false ->
        VideoConfig.reverse (Generator.config g) = true ->
        map ImageInfo.path images = rev paths).
Proof.
  intro Hne.
  destruct (prepare_images_returns g r Hne) as (images & r' & E & Hp & Hi).
  exists images, (Generator.set_images images g), r'.
  split; [exact E|]. split; [reflexivity|]. split; [exact Hi|].
  rewrite Hp. split; [apply ordered_paths_perm|].
  unfold ordered_paths. split; now intros -> ->.
Qed.

Lemma prepare_images_keeps_every_path_witness :
  ["a.png"; "b.png"] <> []
  /\ exists images g' r',
       prepare_images default_generator ["a.png"; "b.png"] sample_rng
       = (inr images, g', r')
       /\ map ImageInfo.index images = [0; 1]%nat
       /\ map ImageInfo.path images = ["a.png"; "b.png"].
Proof.
  split; [discriminate|].
  destruct (@prepare_images_keeps_every_path default_generator
              ["a.png"; "b.png"] sample_rng ltac:(discriminate))
    as (images & g' & r' & E & _ & Hi & _ & Hsame & _).
  exists images, g', r'. split; [exact E|]. split; [exact Hi|].
  apply Hsame; reflexivity.
Defined.

Lemma prepare_loop_each (cfg : VideoConfig.t)
    (P : nat -> ImageInfo.t -> Prop) :
  (forall path i r1 r2 r3,
      P i (ImageInfo.mk path i (fst (choose_zoom cfg i r1))
             (fst (choose_pan cfg i r2)) (fst (choose_transition cfg r3)))) ->
  forall paths i r k img,
    nth_error (fst (prepare_loop cfg i paths r)) k = Some img ->
    P (i + k)%nat img.
Proof.
  intros HP paths. induction paths as [|p rest IH]; intros i r k img; simpl.
  - destruct k; discriminate.
  - pose proof (HP p i r) as H0.
    destruct (choose_zoom cfg i r) as [z r1]. specialize (H0 r1).
    destruct (choose_pan cfg i r1) as [pl r2]. specialize (H0 r2).
    destruct (choose_transition cfg r2) as [t r3].
    specialize (IH (S i) r3).
    destruct (prepare_loop cfg (S i) rest r3) as [images r4].
    simpl in *. destruct k as [|k]; simpl.
    + intros [= <-]. now rewrite Nat.add_0_r.
    + intro E. rewrite Nat.add_succ_r. now apply IH.
Qed.

Lemma prepare_images_each (g : Generator.t) (P : nat -> ImageInfo.t -> Prop) :
  (forall path i r1 r2 r3,
      P i (ImageInfo.mk path i (fst (choose_zoom (Generator.config g) i r1))
             (fst (choose_pan (Generator.config g) i r2))
             (fst (choose_transition (Generator.config g) r3)))) ->
  forall paths r images k img,
    fst (fst (prepare_images g paths r)) = inr images ->
    nth_error images k = Some img -> P k img.
Proof.
  intros HP paths r images k img. unfold prepare_images.
  destruct paths as [|p0 rest]; [discriminate|].
  destruct (if VideoConfig.shuffle (Generator.config g) then _ else _)
    as [o r1].
  pose proof (@prepare_loop_each (Generator.config g) P HP o 0%nat r1 k img)
    as H.
  destruct (prepare_loop (Generator.config g) 0 o r1) as [l r2].
  simpl in *. intros [= <-]. exact H.
Qed.

(** X2. Every image [prepare_images] returns follows the direction policies of the
    configuration: zoom direction "in" gives zoom_in true and "out" false,
    pan direction "left" gives left-to-right true and "right" false, and any
    value other than these and "random" (so "alternate", but also a
    misspelt one) alternates with the parity of the position. *)
Theorem prepare_images_fixed_policies (g : Generator.t)
    (paths : list string) (r : rng) (images : list ImageInfo.t)
    (k : nat) (img : ImageInfo.t) :
  fst (fst (prepare_images g paths r)) = inr images ->
  nth_error images k = Some img ->
  (VideoConfig.zoom_direction (Generator.config g) = "in" ->
   ImageInfo.zoom_in img = true)
  /\ (VideoConfig.zoom_direction (Generator.config g) = "out" ->
      ImageInfo.zoom_in img = false)
  /\ (VideoConfig.pan_direction (Generator.config g) = "left" ->
      ImageInfo.pan_left_to_right img = true)
  /\ (VideoConfig.pan_direction (Generator.config g) = "right" ->
      ImageInfo.pan_left_to_right img = false)
  /\ (VideoConfig.zoom_direction (Generator.config g) <> "in" ->
      VideoConfig.zoom_direction (Generator.config g) <> "out" ->
      VideoConfig.zoom_direction (Generator.config g) <> "random" ->
      ImageInfo.zoom_in img = Nat.even k)
  /\ (VideoConfig.pan_direction (Generator.config g) <> "left" ->
      VideoConfig.pan_direction (Generator.config g) <> "right" ->
      VideoConfig.pan_direction (Generator.config g) <> "random" ->
      ImageInfo.pan_left_to_right img = Nat.even k).
Proof.
  revert paths r images k img.
  apply (@prepare_images_each g
           (fun k img =>
              (VideoConfig.zoom_direction (Generator.config g) = "in" ->
               ImageInfo.zoom_in img = true)
              /\ (VideoConfig.zoom_direction (Generator.config g) = "out" ->
                  ImageInfo.zoom_in img = false)
              /\ (VideoConfig.pan_direction (Generator.config g) = "left" ->
                  ImageInfo.pan_left_to_right img = true)
              /\ (VideoConfig.pan_direction (Generator.config g) = "right" ->
                  ImageInfo.pan_left_to_right img = false)
              /\ (VideoConfig.zoom_direction (Generator.config g) <> "in" ->
                  VideoConfig.zoom_direction (Generator.config g) <> "out" ->
                  VideoConfig.zoom_direction (Generator.config g) <> "random" ->
                  ImageInfo.zoom_in img = Nat.even k)
              /\ (VideoConfig.pan_direction (Generator.config g) <> "left" ->
                  VideoConfig.pan_direction (Generator.config g) <> "right" ->
                  VideoConfig.pan_direction (Generator.config g) <> "random" ->
                  ImageInfo.pan_left_to_right img = Nat.even k))).
  intros path i r1 r2 r3. cbn [ImageInfo.zoom_in ImageInfo.pan_left_to_right].
  unfold choose_zoom, choose_pan.
  repeat split.
  - now intros ->.
  - now intros ->.
  - now intros ->.
  - now intros ->.
  - intros H1 H2 H3.
    apply String.eqb_neq in H1, H2, H3. rewrite H1, H2, H3.
    apply mod2_even.
  - intros H1 H2 H3.
    apply String.eqb_neq in H1, H2, H3. rewrite H1, H2, H3.
    apply mod2_even.
Qed.

Lemma prepare_images_fixed_policies_witness :
  fst (fst (prepare_images default_generator ["img.png"; "img.png"]
              sample_rng)) = inr [sample_image 0; sample_image 1]
  /\ ImageInfo.zoom_in (sample_image 1) = Nat.even 1
  /\ ImageInfo.pan_left_to_right (sample_image 1) = Nat.even 1.
Proof.
  destruct (@prepare_images_fixed_policies default_generator
              ["img.png"; "img.png"] sample_rng
              [sample_image 0; sample_image 1] 1 (sample_image 1)
              eq_refl eq_refl)
    as (_ & _ & _ & _ & Hz & Hp).
  split; [reflexivity|].
  split; [apply Hz | apply Hp]; discriminate.
Defined.

Lemma in_strings_In (s : string) (l : list string) :
  in_strings s l = true <-> In s l.
Proof.
  unfold in_strings. rewrite existsb_exists. split.
  - intros (x & Hx & E). apply String.eqb_eq in E. now subst.
  - intro H. exists s. split; [exact H | apply String.eqb_refl].
Qed.

(** X3. The transition of every image [prepare_images] returns is the configured
    one, copied as it is (known or not), unless the configuration says
    "random", in which case it is one of the names of [TRANSITIONS]. *)
Theorem prepare_images_transitions (g : Generator.t)
    (paths : list string) (r : rng) (images : list ImageInfo.t)
    (k : nat) (img : ImageInfo.t) :
  fst (fst (prepare_images g paths r)) = inr images ->
  nth_error images k = Some img ->
  (VideoConfig.transition (Generator.config g) <> "random" ->
   ImageInfo.transition img = VideoConfig.transition (Generator.config g))
  /\ (VideoConfig.transition (Generator.config g) = "random" ->
      In (ImageInfo.transition img) TRANSITIONS).
Proof.
  revert paths r images k img.
  apply (@prepare_images_each g
           (fun _ img =>
              (VideoConfig.transition (Generator.config g) <> "random" ->
               ImageInfo.transition img
               = VideoConfig.transition (Generator.config g))
              /\ (VideoConfig.transition (Generator.config g) = "random" ->
                  In (ImageInfo.transition img) TRANSITIONS))).
  intros path i r1 r2 r3. cbn [ImageInfo.transition].
  unfold choose_transition. split.
  - intro H. apply String.eqb_neq in H. now rewrite H.
  - intros ->. cbn [String.eqb]. unfold choice, randbelow. cbn [fst].
    apply nth_In. apply Nat.mod_upper_bound. discriminate.
Qed.

Lemma prepare_images_transitions_witness :
  VideoConfig.transition (Generator.config shuffling_generator) = "random"
  /\ exists images img,
       fst (fst (prepare_images shuffling_generator
                   ["a.png"; "b.png"; "c.png"] sample_rng)) = inr images
       /\ nth_error images 1 = Some img
       /\ In (ImageInfo.transition img) TRANSITIONS.
Proof.
  split; [reflexivity|].
  destruct (fst (fst (prepare_images shuffling_generator
                        ["a.png"; "b.png"; "c.png"] sample_rng)))
    as [e|images] eqn:E; [vm_compute in E; discriminate E|].
  destruct (nth_error images 1) as [img|] eqn:H.
  - exists images, img. split; [reflexivity|]. split; [exact H|].
    apply (proj2 (@prepare_images_transitions shuffling_generator
                    ["a.png"; "b.png"; "c.png"] sample_rng images 1 img
                    E H)).
    reflexivity.
  - vm_compute in E. injection E as <-. discriminate H.
Defined.

(** ** More on [_build_filter_complex] *)

Lemma label_eqb_refl (a : label) : label_eqb a a = true.
Proof.
  destruct a; simpl; try apply Nat.eqb_refl. apply String.eqb_refl.
Qed.

Lemma knows_here (known : list label) (l : label) : knows (l :: known) l.
Proof. unfold knows. simpl. now rewrite label_eqb_refl. Qed.

Lemma knows_later (known : list label) (l x : label) :
  knows known l -> knows (x :: known) l.
Proof. unfold knows. simpl. intros ->. apply orb_true_r. Qed.

Lemma clause_inputs_set_out (l : label) (c : clause) :
  clause_inputs (set_out l c) = clause_inputs c.
Proof. destruct c; reflexivity. Qed.

Lemma well_scoped_relabel_last (known : list label) (filters : list clause) :
  well_scoped known (relabel_last filters) = well_scoped known filters.
Proof.
  revert known. induction filters as [|c rest IH]; intro known; [reflexivity|].
  destruct rest as [|c' rest'].
  - simpl. now rewrite clause_inputs_set_out.
  - change (relabel_last (c :: c' :: rest'))
      with (c :: relabel_last (c' :: rest')).
    cbn [well_scoped]. now rewrite IH.
Qed.

Lemma well_scoped_app (known : list label) (a b : list clause) :
  well_scoped known (a ++ b)
  = well_scoped known a
    && well_scoped (rev (map clause_out a) ++ known) b.
Proof.
  revert known. induction a as [|c a IH]; intro known; [reflexivity|].
  cbn [app well_scoped map rev]. rewrite IH, <- app_assoc, andb_assoc.
  reflexivity.
Qed.

Lemma knows_app_r (a known : list label) (l : label) :
  knows known l -> knows (a ++ known) l.
Proof.
  unfold knows. rewrite existsb_app. intros ->. apply orb_true_r.
Qed.

Lemma knows_In (known : list label) (l : label) : In l known -> knows known l.
Proof.
  intro H. unfold knows. apply existsb_exists. exists l.
  split; [exact H | apply label_eqb_refl].
Qed.

Lemma xfade_chain_scoped (cfg : VideoConfig.t) (rest : list ImageInfo.t)
    (i : nat) (cur : label) (t : Q) (known : list label)
    (tail : list clause) :
  knows known cur ->
  (forall k, (i <= k < i + length rest)%nat -> knows known (LV k)) ->
  (forall known', (forall l, knows known l -> knows known' l) ->
                  knows known' (snd (xfade_chain cfg rest i cur t)) ->
                  well_scoped known' tail = true) ->
  well_scoped known (fst (xfade_chain cfg rest i cur t) ++ tail) = true.
Proof.
  revert i cur t known.
  induction rest as [|img rest IH]; intros i cur t known Hcur Hv Htail.
  - simpl in *. now apply Htail.
  - cbn [xfade_chain] in Htail |- *.
    specialize (IH (S i) (LX i)
                  (t + (VideoConfig.duration cfg - VideoConfig.crossfade cfg))%Q).
    destruct (xfade_chain cfg rest (S i) (LX i) _) as [cs last].
    cbn [fst snd app well_scoped clause_inputs clause_out forallb is_stream
         orb] in *.
    pose proof (Hv i ltac:(simpl; lia)) as Hi.
    unfold knows in Hcur, Hi. rewrite Hcur, Hi, orb_true_r. cbn [andb].
    apply IH.
    + apply knows_here.
    + intros k Hk. apply knows_later. apply Hv. simpl. lia.
    + intros known' Hmono Hlast. apply Htail; [|exact Hlast].
      intros l Hl. apply Hmono. now apply knows_later.
Qed.

Lemma stages_scoped (known : list label) (f : ImageInfo.t -> clause)
    (images : list ImageInfo.t) :
  (forall img, forallb is_stream (clause_inputs (f img)) = true) ->
  well_scoped known (map f images) = true.
Proof.
  intro Hf. revert known. induction images as [|img l IH]; intro known;
    [reflexivity|].
  cbn [map well_scoped].
  rewrite IH, andb_true_r. specialize (Hf img).
  induction (clause_inputs (f img)) as [|x xs IHx]; [reflexivity|].
  simpl in *. apply andb_true_iff in Hf. destruct Hf as [-> Hxs].
  simpl. now apply IHx.
Qed.

Lemma build_filter_scoped (g : Generator.t) (ww wt : bool) :
  Generator.images g <> [] ->
  map ImageInfo.index (Generator.images g)
  = seq 0 (length (Generator.images g)) ->
  well_scoped [] (_build_filter_complex g ww wt) = true.
Proof.
  - intros Hne Hidx. unfold _build_filter_complex.
    rewrite well_scoped_relabel_last, well_scoped_app.
    rewrite stages_scoped by reflexivity. cbn [andb].
    rewrite map_map. cbn [clause_out]. rewrite app_nil_r.
    rewrite <- (map_map ImageInfo.index LV), Hidx.
    set (known := rev (map LV (seq 0 (length (Generator.images g))))).
    assert (Hknown : forall k, (k < length (Generator.images g))%nat ->
                       knows known (LV k)).
    { intros k Hk. apply knows_In. subst known. rewrite <- in_rev. apply in_map.
      apply in_seq. lia. }
    set (mark := match Generator.watermark g with
                 | Some wm => _
                 | None => []
                 end).
    assert (Hmark : forall known' cur,
               (forall l, knows known l -> knows known' l) ->
               knows known' cur ->
               well_scoped known' (Format cur (LName "vout") :: mark) = true).
    { intros known' cur _ Hcur. cbn [well_scoped clause_inputs clause_out
                                      forallb is_stream orb].
      unfold knows in Hcur. rewrite Hcur, orb_true_r. cbn [andb].
      subst mark. destruct (Generator.watermark g) as [wm|]; [|reflexivity].
      destruct (ww && WatermarkConfig.enabled wm); reflexivity. }
    destruct (Generator.images g) as [|a rest] eqn:E; [congruence|].
    destruct rest as [|b rest].
    + cbn [length Nat.ltb Nat.leb]. cbn [app].
      apply (Hmark known (LV 0)); [auto|]. apply Hknown. simpl. lia.
    + assert (H1 : (1 <? length (a :: b :: rest))%nat = true) by reflexivity.
      rewrite H1. cbn [tl].
      pose proof (@xfade_chain_scoped (Generator.config g) (b :: rest) 1
                    (LV 0)
                    (VideoConfig.duration (Generator.config g)
                     - VideoConfig.crossfade (Generator.config g))%Q
                    known (Format
                             (snd (xfade_chain (Generator.config g)
                                     (b :: rest) 1 (LV 0)
                                     (VideoConfig.duration (Generator.config g)
                                      - VideoConfig.crossfade
                                          (Generator.config g))%Q))
                             (LName "vout") :: mark)) as Hc.
      destruct (xfade_chain (Generator.config g) (b :: rest) 1 (LV 0) _)
        as [cs cur].
      cbn [fst snd] in Hc. rewrite <- app_assoc. cbn [app].
      apply Hc.
      * apply Hknown. simpl. lia.
      * intros k Hk. apply Hknown. simpl in *. lia.
      * intros known' Hmono Hcur. now apply Hmark.
Qed.

(** X4. The filter graph of [_build_filter_complex] is well scoped when there is at
    least one image and the images are numbered 0, 1, 2, ...: every label a
    clause reads is an input stream of the command or the output of an
    earlier clause.  With no image the graph reads the label v0 that no
    clause writes. *)
Theorem filter_graph_well_scoped (g : Generator.t) (ww wt : bool) :
  (Generator.images g <> [] ->
   map ImageInfo.index (Generator.images g)
   = seq 0 (length (Generator.images g)) ->
   well_scoped [] (_build_filter_complex g ww wt) = true)
  /\ (Generator.images g = [] ->
      well_scoped [] (_build_filter_complex g ww wt) = false).
Proof.
  split.
  - apply build_filter_scoped.
  - intro E. unfold _build_filter_complex. rewrite E.
    rewrite well_scoped_relabel_last. reflexivity.
Qed.

Lemma filter_graph_well_scoped_witness :
  well_scoped [] (_build_filter_complex (sample_generator 3) false false)
  = true
  /\ well_scoped [] (_build_filter_complex default_generator false false)
     = false.
Proof.
  split.
  - apply (proj1 (filter_graph_well_scoped (sample_generator 3) false false));
      [discriminate | reflexivity].
  - apply (proj2 (filter_graph_well_scoped default_generator false false)).
    reflexivity.
Defined.

Lemma valid_transition_known (trans : string) :
  In (valid_transition trans) TRANSITIONS
  /\ (In trans TRANSITIONS -> valid_transition trans = trans).
Proof.
  unfold valid_transition. destruct (in_strings trans TRANSITIONS) eqn:E.
  - split; [|reflexivity]. unfold in_strings in E.
    apply existsb_exists in E. destruct E as (x & Hx & E).
    apply String.eqb_eq in E. now subst.
  - split; [now left|]. intro H. exfalso.
    assert (in_strings trans TRANSITIONS = true); [|congruence].
    unfold in_strings. apply existsb_exists. exists trans.
    split; [exact H | apply String.eqb_refl].
Qed.

Lemma xfade_chain_transitions (cfg : VideoConfig.t) (rest : list ImageInfo.t)
    (i : nat) (cur : label) (t : Q) :
  map xfade_transition (fst (xfade_chain cfg rest i cur t))
  = map (fun img => valid_transition (ImageInfo.transition img)) rest.
Proof.
  revert i cur t. induction rest as [|img rest IH]; intros i cur t.
  - reflexivity.
  - simpl.
    specialize (IH (S i) (LX i)
                  (t + (VideoConfig.duration cfg - VideoConfig.crossfade cfg))%Q).
    destruct (xfade_chain cfg rest (S i) (LX i) _) as [cs last].
    simpl in *. now rewrite IH.
Qed.

Lemma xfades_few (g : Generator.t) (ww wt : bool) :
  (length (Generator.images g) < 2)%nat ->
  xfades (_build_filter_complex g ww wt) = [].
Proof.
  intro Hn. unfold _build_filter_complex.
  assert (H1 : (1 <? length (Generator.images g))%nat = false)
    by (apply Nat.ltb_ge; lia).
  rewrite H1.
  match goal with
  | |- xfades (relabel_last (?st ++ _ ++ ?mk)) = _ =>
      set (stages := st); set (mark := mk)
  end.
  assert (Hst : xfades stages = []).
  { subst stages. clear. induction (Generator.images g) as [|img l IH];
      [reflexivity | exact IH]. }
  assert (Hmark : mark = []
                  \/ exists a b, mark = [a; b] /\ is_xfade a = false
                                 /\ is_xfade b = false).
  { subst mark. destruct (Generator.watermark g) as [wm|]; [|now left].
    destruct (ww && WatermarkConfig.enabled wm); [|now left].
    right. do 2 eexists. split; [reflexivity|]. split; reflexivity. }
  destruct Hmark as [-> | (a & b & -> & Ha & Hb)].
  - rewrite app_nil_r. rewrite xfades_relabel_last_snoc by reflexivity.
    exact Hst.
  - replace (stages ++ [Format (LV 0) (LName "vout")] ++ [a; b])%list
      with ((stages ++ [Format (LV 0) (LName "vout"); a]) ++ [b])%list
      by (rewrite <- app_assoc; reflexivity).
    rewrite xfades_relabel_last_snoc by exact Hb.
    unfold xfades in *. rewrite filter_app, Hst. simpl. now rewrite Ha.
Qed.

(** X5. Every cross-fade clause of the filter graph carries a name of
    [TRANSITIONS]: with two images or more the names are those of the second
    and later images, in order, each replaced by "fade" when it is not
    supported. *)
Theorem xfade_transitions_supported (g : Generator.t) (ww wt : bool) :
  (forall c, In c (_build_filter_complex g ww wt) -> is_xfade c = true ->
             In (xfade_transition c) TRANSITIONS)
  /\ ((2 <= length (Generator.images g))%nat ->
      map xfade_transition (xfades (_build_filter_complex g ww wt))
      = map (fun img => valid_transition (ImageInfo.transition img))
          (tl (Generator.images g)))
  /\ (forall trans, In trans TRANSITIONS -> valid_transition trans = trans)
  /\ (forall trans, ~ In trans TRANSITIONS -> valid_transition trans = "fade").
Proof.
  assert (Hmap : (2 <= length (Generator.images g))%nat ->
            map xfade_transition (xfades (_build_filter_complex g ww wt))
            = map (fun img => valid_transition (ImageInfo.transition img))
                (tl (Generator.images g))).
  { intro Hn. rewrite (xfades_build g ww wt Hn).
    apply xfade_chain_transitions. }
  split; [|split; [exact Hmap|split]].
  - intros c Hin Hx.
    assert (Hc : In c (xfades (_build_filter_complex g ww wt)))
      by (apply filter_In; now split).
    destruct (Nat.lt_ge_cases (length (Generator.images g)) 2) as [Hn|Hn].
    + rewrite (xfades_few g ww wt Hn) in Hc. contradiction.
    + apply (in_map xfade_transition) in Hc. rewrite (Hmap Hn) in Hc.
      apply in_map_iff in Hc. destruct Hc as (img & <- & _).
      apply valid_transition_known.
  - intros trans. apply valid_transition_known.
  - intros trans Hn. unfold valid_transition.
    destruct (in_strings trans TRANSITIONS) eqn:E; [|reflexivity].
    exfalso. apply Hn. unfold in_strings in E.
    apply existsb_exists in E. destruct E as (x & Hx & E).
    apply String.eqb_eq in E. now subst.
Qed.

Lemma xfade_transitions_supported_witness :
  map xfade_transition
    (xfades (_build_filter_complex (sample_generator 3) false false))
  = ["fade"; "fade"]
  /\ valid_transition "no-such-transition" = "fade".
Proof.
  destruct (xfade_transitions_supported (sample_generator 3) false false)
    as (_ & H & _ & Hbad).
  split.
  - rewrite H; [reflexivity | simpl; lia].
  - apply Hbad. intro Hin. cbv in Hin.
    repeat (destruct Hin as [Hin|Hin]; [discriminate Hin|]). exact Hin.
Defined.

Lemma relabel_last_out (filters : list clause) (d : clause) :
  filters <> [] -> clause_out (last (relabel_last filters) d) = LName "v".
Proof.
  intro Hne. destruct (exists_last Hne) as (l & c & ->).
  rewrite relabel_last_snoc, last_last. now destruct c.
Qed.

Lemma relabel_last_length (filters : list clause) :
  length (relabel_last filters) = length filters.
Proof.
  induction filters as [|c rest IH]; [reflexivity|].
  destruct rest; [reflexivity|].
  change (relabel_last (c :: c0 :: rest)) with (c :: relabel_last (c0 :: rest)).
  simpl in *. now rewrite IH.
Qed.

Lemma xfade_chain_length (cfg : VideoConfig.t) (rest : list ImageInfo.t)
    (i : nat) (cur : label) (t : Q) :
  length (fst (xfade_chain cfg rest i cur t)) = length rest.
Proof.
  rewrite <- (length_map xfade_offset), xfade_chain_offsets.
  apply offsets_from_length.
Qed.

Lemma build_filter_last_out (g : Generator.t) (ww wt : bool) (d : clause) :
  clause_out (last (_build_filter_complex g ww wt) d) = LName "v".
Proof.
  unfold _build_filter_complex.
  - apply relabel_last_out.
    destruct (1 <? length (Generator.images g))%nat.
    + destruct (xfade_chain _ _ _ _ _) as [cs cur].
      intro H. apply app_eq_nil in H. destruct H as [_ H].
      apply app_eq_nil in H. destruct H as [H _].
      apply app_eq_nil in H. destruct H as [_ H]. discriminate.
    + intro H. apply app_eq_nil in H. destruct H as [_ H]. discriminate.
Qed.

(** X6. The last clause of the filter graph always writes the label v, the one the
    command maps to the output, and with n images (n at least 1) the graph
    has 2n clauses, plus two when the watermark is drawn. *)
Theorem filter_graph_output (g : Generator.t) (ww wt : bool) (d : clause) :
  clause_out (last (_build_filter_complex g ww wt) d) = LName "v"
  /\ (Generator.images g <> [] ->
      length (_build_filter_complex g ww wt)
      = (2 * length (Generator.images g)
         + (if ww && watermark_enabled g then 2 else 0))%nat).
Proof.
  split; [apply build_filter_last_out|]. unfold _build_filter_complex.
  - intro Hne.
    set (mark := match Generator.watermark g with
                 | Some wm => _
                 | None => []
                 end).
    assert (Hmark : length mark
                    = if ww && watermark_enabled g then 2%nat else 0%nat).
    { subst mark. unfold watermark_enabled.
      destruct (Generator.watermark g) as [wm|];
        [|now rewrite andb_false_r].
      now destruct (ww && WatermarkConfig.enabled wm). }
    rewrite relabel_last_length, !length_app, length_map.
    rewrite Hmark.
    destruct (Generator.images g) as [|a rest]; [congruence|].
    destruct rest as [|b rest].
    + simpl. lia.
    + assert (H1 : (1 <? length (a :: b :: rest))%nat = true) by reflexivity.
      rewrite H1. cbn [tl].
      pose proof (xfade_chain_length (Generator.config g) (b :: rest) 1 (LV 0)
                    (VideoConfig.duration (Generator.config g)
                     - VideoConfig.crossfade (Generator.config g))%Q) as Hl.
      destruct (xfade_chain _ (b :: rest) _ _ _) as [cs cur].
      simpl in Hl. rewrite length_app, Hl. simpl. lia.
Qed.

Lemma filter_graph_output_witness :
  length (_build_filter_complex (sample_generator 3) false false) = 6%nat.
Proof.
  apply (proj2 (filter_graph_output (sample_generator 3) false false
                  (Format (LV 0) (LV 0)))).
  discriminate.
Defined.

(** ** More on [generate] *)

Lemma generate_launch_inv (fs : filesystem) (r : rng) (child : popen)
    (g : Generator.t) (image_path audio_path output_path : string)
    (cb1 : text_callback) (cb2 : bar_callback) (preview : bool)
    (cmd : command) (rest : list command) :
  launches (generate fs r child g image_path audio_path output_path
              cb1 cb2 preview) = cmd :: rest ->
  rest = []
  /\ path_exists fs audio_path = true
  /\ in_strings (lower (path_suffix audio_path)) SUPPORTED_AUDIO = true
  /\ find_images fs image_path <> []
  /\ exists images r',
       prepare_images (Generator.set_stop_flag false g)
         (find_images fs image_path) r
       = (inr images,
          Generator.set_images images (Generator.set_stop_flag false g), r')
       /\ cmd = build_command fs (staged preview images g)
                  audio_path output_path.
Proof.
  unfold generate.
  destruct (path_exists fs audio_path); [|discriminate]. cbn [negb].
  destruct (in_strings _ SUPPORTED_AUDIO); [|discriminate]. cbn [negb].
  destruct (find_images fs image_path) as [|f files] eqn:Ef; [discriminate|].
  destruct (@prepare_images_returns (Generator.set_stop_flag false g)
              (f :: files) r ltac:(discriminate))
    as (images & r' & Ep & _ & _).
  rewrite Ep.
  assert (Hfin : forall o gf,
             launches
               (Build_run o gf
                  [build_command fs (staged preview images g)
                     audio_path output_path]) = cmd :: rest ->
             rest = [] /\ true = true /\ true = true /\ f :: files <> []
             /\ exists images0 r'0,
                  (@inr exn _ images,
                   Generator.set_images images
                     (Generator.set_stop_flag false g), r')
                  = (inr images0,
                     Generator.set_images images0
                       (Generator.set_stop_flag false g), r'0)
                  /\ cmd = build_command fs (staged preview images0 g)
                             audio_path output_path).
  { intros o gf [= <- <-].
    split; [reflexivity|]. split; [reflexivity|]. split; [reflexivity|].
    split; [discriminate|]. exists images, r'. now split. }
  destruct (call cb1 _); [discriminate|].
  destruct (call cb1 _); [discriminate|].
  fold (staged preview images g).
  destruct child as [e|p]; [apply Hfin|].
  destruct (pump cb2 _ (script p) _) as [[| |e] g2];
    [|apply Hfin|apply Hfin].
  destruct (negb _); [apply Hfin|].
  destruct (output_size p); apply Hfin.
Qed.

Lemma pump_frame (cb : bar_callback) (total : Q) (its : list iteration)
    (g : Generator.t) :
  exists info flag,
    snd (pump cb total its g)
    = Generator.mk (Generator.config g) (Generator.watermark g)
        (Generator.title g) (Generator.images g) info flag.
Proof.
  revert g. induction its as [|it rest IH]; intro g.
  - simpl. destruct g. destruct _stop_flag; simpl; eauto.
  - cbn [pump].
    assert (Hc : forall g0 : Generator.t,
               Generator.config g0 = Generator.config g ->
               Generator.watermark g0 = Generator.watermark g ->
               Generator.title g0 = Generator.title g ->
               Generator.images g0 = Generator.images g ->
               exists info flag,
                 snd (pump cb total rest g0)
                 = Generator.mk (Generator.config g) (Generator.watermark g)
                     (Generator.title g) (Generator.images g) info flag).
    { intros g0 H1 H2 H3 H4. destruct (IH g0) as (info & flag & ->).
      rewrite H1, H2, H3, H4. eauto. }
    assert (Hs : forall g0 : Generator.t,
               Generator.config g0 = Generator.config g ->
               Generator.watermark g0 = Generator.watermark g ->
               Generator.title g0 = Generator.title g ->
               Generator.images g0 = Generator.images g ->
               exists info flag,
                 g0 = Generator.mk (Generator.config g) (Generator.watermark g)
                        (Generator.title g) (Generator.images g) info flag).
    { intros [c w t i p f] H1 H2 H3 H4. simpl in *. subst. eauto. }
    set (g1 := if cancel_requested it then cancel g else g).
    assert (H1 : Generator.config g1 = Generator.config g
                 /\ Generator.watermark g1 = Generator.watermark g
                 /\ Generator.title g1 = Generator.title g
                 /\ Generator.images g1 = Generator.images g)
      by (subst g1; destruct (cancel_requested it); auto).
    destruct H1 as (Ha & Hb & Hd & He).
    destruct (Generator._stop_flag g1); [now apply Hs|].
    destruct (String.eqb (line it) "").
    + destruct (exited it); [now apply Hs | now apply Hc].
    + destruct cb as [f|]; [|now apply Hc].
      destruct (_parse_ffmpeg_progress _ _ _ _) as [[e|u] info].
      * now apply Hs.
      * destruct (f info); [now apply Hs | now apply Hc].
Qed.

Lemma pump_without_callback (total : Q) (its : list iteration)
    (g : Generator.t) :
  Generator._progress_info (snd (pump None total its g))
  = Generator._progress_info g
  /\ forall e, fst (pump None total its g) <> PumpRaised e.
Proof.
  revert g. induction its as [|it rest IH]; intro g.
  - simpl. destruct (Generator._stop_flag g); split; try reflexivity;
      discriminate.
  - cbn [pump].
    set (g1 := if cancel_requested it then cancel g else g).
    assert (H1 : Generator._progress_info g1 = Generator._progress_info g)
      by (subst g1; now destruct (cancel_requested it)).
    destruct (Generator._stop_flag g1);
      [split; [exact H1 | discriminate]|].
    destruct (String.eqb (line it) "").
    + destruct (exited it); [split; [exact H1 | discriminate]|].
      destruct (IH g1) as [Hi He]. split; [congruence | exact He].
    + destruct (IH g1) as [Hi He]. split; [congruence | exact He].
Qed.

Lemma restore_after_preview (c : VideoConfig.t) :
  restore_config (save_config c) (preview_config c) = c
  /\ restore_config (save_config c) c = c.
Proof. destruct c; split; reflexivity. Qed.

Lemma pump_break_flag (cb : bar_callback) (total : Q) (its : list iteration)
    (g g' : Generator.t) :
  Generator._stop_flag g = false ->
  pump cb total its g = (PumpBreak, g') ->
  Generator._stop_flag g' = false.
Proof.
  revert g. induction its as [|it rest IH]; intros g H0; cbn [pump].
  - rewrite H0. now intros [= <-].
  - destruct (cancel_requested it); [discriminate|]. rewrite H0.
    destruct (String.eqb (line it) "").
    + destruct (exited it); [now intros [= <-] | now apply IH].
    + destruct cb as [fcb|]; [|now apply IH].
      destruct (_parse_ffmpeg_progress _ _ _ _) as [[e|u] info];
        [discriminate|].
      destruct (fcb info); [discriminate|]. now apply IH.
Qed.

(** X7. When [generate] returns success, the child process was started and exited
    with status 0, the output file exists and its size is the one reported,
    the audio file exists and has a supported suffix, at least one image was
    found, exactly one command was launched, and the stop flag is down. *)
Theorem generate_success_sound (fs : filesystem) (r : rng) (child : popen)
    (g : Generator.t) (image_path audio_path output_path : string)
    (cb1 : text_callback) (cb2 : bar_callback) (preview : bool)
    (m : message) :
  result (generate fs r child g image_path audio_path output_path
            cb1 cb2 preview) = Returned true m ->
  exists p size,
    child = PopenStarts p
    /\ returncode p = 0%Z
    /\ output_size p = Some size
    /\ m = VideoCreated output_path size
    /\ path_exists fs audio_path = true
    /\ in_strings (lower (path_suffix audio_path)) SUPPORTED_AUDIO = true
    /\ find_images fs image_path <> []
    /\ length (launches (generate fs r child g image_path audio_path
                           output_path cb1 cb2 preview)) = 1%nat
    /\ Generator._stop_flag
         (final (generate fs r child g image_path audio_path
                   output_path cb1 cb2 preview)) = false.
Proof.
  unfold generate.
  destruct (path_exists fs audio_path); [|discriminate]. cbn [negb].
  destruct (in_strings _ SUPPORTED_AUDIO); [|discriminate]. cbn [negb].
  destruct (find_images fs image_path) as [|f files]; [discriminate|].
  pose proof (prepare_images_generator (Generator.set_stop_flag false g)
                (f :: files) r) as [_ Hflag].
  destruct (prepare_images _ (f :: files) r) as [[[e|images] g1] r1];
    [discriminate|].
  cbn [fst snd Generator.set_stop_flag Generator._stop_flag] in Hflag.
  destruct (call cb1 _); [discriminate|].
  destruct (call cb1 _); [discriminate|].
  destruct child as [e|p]; [discriminate|].
  destruct (pump cb2 _ (script p) _) as [[| |e] g2] eqn:Ep;
    [|discriminate|discriminate].
  destruct (negb (returncode p =? 0)%Z) eqn:Er; [discriminate|].
  destruct (output_size p) as [size|] eqn:Eo; [|discriminate].
  cbn [result launches final]. intros [= <-].
  exists p, size. split; [reflexivity|].
  split; [apply Z.eqb_eq; now apply negb_false_iff|].
  split; [exact Eo|].
  do 5 (split; [reflexivity || discriminate|]).
  assert (Hg2 : Generator._stop_flag g2 = false).
  { eapply pump_break_flag; [|exact Ep]. destruct preview; exact Hflag. }
  destruct preview; exact Hg2.
Qed.

Lemma generate_success_sound_witness :
  exists p size,
    PopenStarts finished_child = PopenStarts p
    /\ returncode p = 0%Z
    /\ output_size p = Some size
    /\ find_images sample_fs "pics" <> [].
Proof.
  destruct (@generate_success_sound sample_fs sample_rng
              (PopenStarts finished_child) default_generator
              "pics" "song.mp3" "out.mp4" None silent_bar false
              (VideoCreated "out.mp4" 1048576) eq_refl)
    as (p & size & E & Hr & Hs & _ & _ & _ & Hf & _).
  exists p, size. auto.
Defined.

Ltac final_shape :=
  cbn; do 4 eexists;
  (split; [reflexivity
          | first [left; reflexivity | right; split; reflexivity]]).

Lemma generate_final_shape (fs : filesystem) (r : rng)
    (child : popen) (g : Generator.t)
    (image_path audio_path output_path : string)
    (cb1 : text_callback) (cb2 : bar_callback) (preview : bool) :
  exists cfg images info flag,
    final (generate fs r child g image_path audio_path output_path
             cb1 cb2 preview)
    = Generator.mk cfg (Generator.watermark g) (Generator.title g)
        images info flag
    /\ (cfg = Generator.config g
        \/ (preview = true /\ cfg = preview_config (Generator.config g))).
Proof.
  unfold generate.
  destruct (negb (path_exists fs audio_path));
    [destruct g; final_shape|].
  destruct (negb (in_strings _ SUPPORTED_AUDIO));
    [destruct g; final_shape|].
  destruct (find_images fs image_path) as [|f files];
    [destruct g; final_shape|].
  destruct (@prepare_images_returns (Generator.set_stop_flag false g)
              (f :: files) r ltac:(discriminate))
    as (images & r' & Ep & _ & _).
  rewrite Ep.
  destruct (call cb1 _); [destruct g; final_shape|].
  destruct (call cb1 _); [destruct g, preview; final_shape|].
  destruct child as [e|p]; [destruct g, preview; final_shape|].
  match goal with
  | |- context [pump cb2 ?t (script p) ?g0] =>
      destruct (pump_frame cb2 t (script p) g0) as (info & flag & Hp);
      destruct (pump cb2 t (script p) g0) as [[| |e] g3]
  end; cbn [snd] in Hp; subst g3.
  - assert (Hc : restore_config (save_config (Generator.config g))
                   (preview_config (Generator.config g))
                 = Generator.config g)
      by apply restore_after_preview.
    destruct (negb _); [|destruct (output_size p)];
      destruct g, preview; cbn in Hc |- *; rewrite ?Hc; final_shape.
  - destruct g, preview; final_shape.
  - destruct g, preview; final_shape.
Qed.

(** X9. Whatever happens, [generate] leaves the watermark and the title of the
    generator alone and changes at most width, height, fps, crf and preset
    of the configuration; without preview the configuration is unchanged. *)
Theorem generate_changes_five_fields_at_most (fs : filesystem) (r : rng)
    (child : popen) (g : Generator.t)
    (image_path audio_path output_path : string)
    (cb1 : text_callback) (cb2 : bar_callback) (preview : bool) :
  restore_config (save_config (Generator.config g))
    (Generator.config
       (final (generate fs r child g image_path audio_path output_path
                 cb1 cb2 preview)))
  = Generator.config g
  /\ Generator.watermark
       (final (generate fs r child g image_path audio_path output_path
                 cb1 cb2 preview)) = Generator.watermark g
  /\ Generator.title
       (final (generate fs r child g image_path audio_path output_path
                 cb1 cb2 preview)) = Generator.title g
  /\ (preview = false ->
      Generator.config
        (final (generate fs r child g image_path audio_path output_path
                  cb1 cb2 preview)) = Generator.config g).
Proof.
  destruct (generate_final_shape fs r child g image_path audio_path
              output_path cb1 cb2 preview)
    as (cfg & images & info & flag & -> & Hcfg).
  cbn [Generator.config Generator.watermark Generator.title].
  pose proof (restore_after_preview (Generator.config g)) as [Hrp Hrr].
  destruct Hcfg as [-> | [Hp ->]].
  - rewrite Hrr. auto.
  - rewrite Hrp. repeat split. intros ->. discriminate.
Qed.

Lemma generate_changes_five_fields_at_most_witness :
  Generator.config
    (final (generate sample_fs sample_rng (PopenStarts finished_child)
              default_generator "pics" "song.mp3" "out.mp4"
              None silent_bar false))
  = Generator.config default_generator.
Proof.
  apply (generate_changes_five_fields_at_most sample_fs sample_rng
           (PopenStarts finished_child) default_generator
           "pics" "song.mp3" "out.mp4" None silent_bar false).
  reflexivity.
Defined.

Lemma stream_reads_app (a b : list clause) :
  stream_reads (a ++ b) = (stream_reads a ++ stream_reads b)%list.
Proof. unfold stream_reads. apply flat_map_app. Qed.

Lemma stream_reads_relabel_last (filters : list clause) :
  stream_reads (relabel_last filters) = stream_reads filters.
Proof.
  induction filters as [|c rest IH]; [reflexivity|].
  destruct rest as [|c' rest'].
  - simpl. now rewrite clause_inputs_set_out.
  - change (relabel_last (c :: c' :: rest'))
      with (c :: relabel_last (c' :: rest')).
    unfold stream_reads in *. cbn [flat_map]. now rewrite IH.
Qed.

Lemma xfade_chain_reads (cfg : VideoConfig.t) (rest : list ImageInfo.t)
    (i : nat) (cur : label) (t : Q) :
  is_stream cur = false ->
  stream_reads (fst (xfade_chain cfg rest i cur t)) = []
  /\ is_stream (snd (xfade_chain cfg rest i cur t)) = false.
Proof.
  revert i cur t. induction rest as [|img rest IH]; intros i cur t Hcur.
  - now split.
  - cbn [xfade_chain].
    specialize (IH (S i) (LX i)
                  (t + (VideoConfig.duration cfg - VideoConfig.crossfade cfg))%Q
                  eq_refl).
    destruct (xfade_chain cfg rest (S i) (LX i) _) as [cs last].
    cbn [fst snd] in *. destruct IH as [IH1 IH2]. split; [|exact IH2].
    unfold stream_reads in *. cbn [flat_map clause_inputs stream_index].
    rewrite IH1. now destruct cur.
Qed.

Lemma filter_graph_reads (g : Generator.t) (ww : bool) :
  stream_reads (_build_filter_complex g ww false)
  = (map ImageInfo.index (Generator.images g)
     ++ (if ww && watermark_enabled g
         then [length (Generator.images g) + 1]%nat else []))%list.
Proof.
  unfold _build_filter_complex. cbn [andb].
  rewrite stream_reads_relabel_last, !stream_reads_app.
  assert (Hst : forall f : ImageInfo.t -> clause,
             (forall img, flat_map stream_index (clause_inputs (f img))
                          = [ImageInfo.index img]) ->
             stream_reads (map f (Generator.images g))
             = map ImageInfo.index (Generator.images g)).
  { intros f Hf. unfold stream_reads.
    induction (Generator.images g) as [|img l IH]; [reflexivity|].
    cbn [map flat_map]. now rewrite Hf, IH. }
  rewrite Hst
    by (intro img; cbn; now rewrite Nat.add_0_r).
  f_equal.
  assert (Hchain : stream_reads
                     (if (1 <? length (Generator.images g))%nat
                      then
                        let (cs, cur) :=
                          xfade_chain (Generator.config g)
                            (tl (Generator.images g)) 1 (LV 0)
                            (VideoConfig.duration (Generator.config g)
                             - VideoConfig.crossfade (Generator.config g))%Q in
                        (cs ++ [Format cur (LName "vout")])%list
                      else [Format (LV 0) (LName "vout")]) = []).
  { destruct (1 <? length (Generator.images g))%nat; [|reflexivity].
    pose proof (@xfade_chain_reads (Generator.config g)
                  (tl (Generator.images g)) 1 (LV 0)
                  (VideoConfig.duration (Generator.config g)
                   - VideoConfig.crossfade (Generator.config g))%Q eq_refl)
      as [H1 H2].
    destruct (xfade_chain _ _ _ _ _) as [cs cur]. cbn [fst snd] in *.
    rewrite stream_reads_app, H1. cbn. now destruct cur. }
  rewrite Hchain. cbn [app]. unfold watermark_enabled.
  destruct (Generator.watermark g) as [wm|]; [|now rewrite andb_false_r].
  destruct (ww && WatermarkConfig.enabled wm); [|reflexivity].
  cbn. now rewrite Nat.add_0_r.
Qed.

Lemma staged_fields (preview : bool) (images : list ImageInfo.t)
    (g : Generator.t) :
  Generator.images (staged preview images g) = images
  /\ Generator.watermark (staged preview images g) = Generator.watermark g
  /\ Generator.title (staged preview images g) = Generator.title g
  /\ Generator.config (staged preview images g)
     = (if preview then preview_config (Generator.config g)
        else Generator.config g).
Proof. unfold staged. destruct g, preview; cbn; auto. Qed.

(** X11. [generate] launches at most one command.  Its image inputs are a
    permutation of the images found (the same list without shuffle and
    reverse), the audio is mapped from the input right after the images, the
    audio path, output path, slide duration and audio bitrate are those of
    the call and of the configuration, and crf and preset are 35 and
    ultrafast for a preview and those of the configuration otherwise. *)
Theorem generate_command_parameters (fs : filesystem) (r : rng)
    (child : popen) (g : Generator.t)
    (image_path audio_path output_path : string)
    (cb1 : text_callback) (cb2 : bar_callback) (preview : bool)
    (cmd : command) (rest : list command) :
  launches (generate fs r child g image_path audio_path output_path
              cb1 cb2 preview) = cmd :: rest ->
  rest = []
  /\ audio_input cmd = audio_path
  /\ output cmd = output_path
  /\ map_audio cmd = length (image_inputs cmd)
  /\ Permutation (image_inputs cmd) (find_images fs image_path)
  /\ (VideoConfig.shuffle (Generator.config g) = false ->
      VideoConfig.reverse (Generator.config g) = false ->
      image_inputs cmd = find_images fs image_path)
  /\ input_duration cmd = VideoConfig.duration (Generator.config g)
  /\ arg_audio_bitrate cmd = VideoConfig.audio_bitrate (Generator.config g)
  /\ (preview = true -> arg_crf cmd = 35%Z /\ arg_preset cmd = "ultrafast")
  /\ (preview = false ->
      arg_crf cmd = VideoConfig.crf (Generator.config g)
      /\ arg_preset cmd = VideoConfig.preset (Generator.config g)).
Proof.
  intro H. apply generate_launch_inv in H.
  destruct H as (-> & _ & _ & Hne & images & r' & Ep & ->).
  destruct (@prepare_images_returns
              (Generator.set_stop_flag false g) (find_images fs image_path)
              r Hne)
    as (images' & r'' & Ep' & Hpaths & _).
  rewrite Ep in Ep'. injection Ep' as <- _ _.
  assert (Hperm : Permutation (map ImageInfo.path images)
                    (find_images fs image_path))
    by (rewrite Hpaths; apply ordered_paths_perm).
  assert (Hsame : VideoConfig.shuffle (Generator.config g) = false ->
                  VideoConfig.reverse (Generator.config g) = false ->
                  map ImageInfo.path images = find_images fs image_path).
  { rewrite Hpaths. unfold ordered_paths. destruct g. cbn.
    now intros -> ->. }
  destruct (staged_fields preview images g) as (Hi & _ & _ & Hc).
  unfold build_command. cbn [audio_input output map_audio image_inputs
                             input_duration arg_audio_bitrate arg_crf
                             arg_preset].
  rewrite Hi, Hc, length_map.
  split; [reflexivity|]. split; [reflexivity|]. split; [reflexivity|].
  split; [reflexivity|]. split; [exact Hperm|].
  split; [exact Hsame|].
  split; [now destruct preview|]. split; [now destruct preview|].
  split; intros ->; split; reflexivity.
Qed.

Lemma generate_command_parameters_witness :
  exists cmd,
    launches (generate sample_fs sample_rng (PopenStarts finished_child)
                default_generator "pics" "song.mp3" "out.mp4"
                None silent_bar true) = [cmd]
    /\ image_inputs cmd = ["pics/a.JPG"; "pics/b.png"]
    /\ arg_crf cmd = 35%Z /\ arg_preset cmd = "ultrafast".
Proof.
  destruct (launches (generate sample_fs sample_rng
                        (PopenStarts finished_child) default_generator
                        "pics" "song.mp3" "out.mp4" None silent_bar true))
    as [|cmd rest] eqn:H; [vm_compute in H; discriminate H|].
  destruct (@generate_command_parameters sample_fs sample_rng
              (PopenStarts finished_child) default_generator
              "pics" "song.mp3" "out.mp4" None silent_bar true cmd rest H)
    as (Hr & _ & _ & _ & _ & Hsame & _ & _ & Hp & _).
  exists cmd. split; [now rewrite Hr|].
  split; [apply Hsame; reflexivity|].
  apply Hp. reflexivity.
Defined.

(** X12. The filter graph of the command [generate] launches reads the image inputs
    0 .. n-1, each once and in order, then the watermark input n+1 when the
    command has one, never the audio input n; it is well scoped and ends in
    the label v. *)
Theorem generate_graph_reads_command_inputs (fs : filesystem) (r : rng)
    (child : popen) (g : Generator.t)
    (image_path audio_path output_path : string)
    (cb1 : text_callback) (cb2 : bar_callback) (preview : bool)
    (cmd : command) (rest : list command) (d : clause) :
  launches (generate fs r child g image_path audio_path output_path
              cb1 cb2 preview) = cmd :: rest ->
  stream_reads (filter_complex cmd)
  = (seq 0 (length (image_inputs cmd))
     ++ match watermark_input cmd with
        | Some _ => [length (image_inputs cmd) + 1]%nat
        | None => []
        end)%list
  /\ ~ In (map_audio cmd) (stream_reads (filter_complex cmd))
  /\ well_scoped [] (filter_complex cmd) = true
  /\ clause_out (last (filter_complex cmd) d) = LName "v".
Proof.
  intro H. apply generate_launch_inv in H.
  destruct H as (-> & _ & _ & Hne & images & r' & Ep & ->).
  destruct (@prepare_images_returns
              (Generator.set_stop_flag false g) (find_images fs image_path)
              r Hne)
    as (images' & r'' & Ep' & _ & Hidx).
  rewrite Ep in Ep'. injection Ep' as <- _ _.
  destruct (staged_fields preview images g) as (Hi & Hw & _ & _).
  assert (Hlen : length images = length (find_images fs image_path))
    by (rewrite <- (length_map ImageInfo.index), Hidx; apply length_seq).
  rewrite <- Hlen in Hidx.
  assert (Hreads :
            stream_reads
              (filter_complex
                 (build_command fs (staged preview images g)
                    audio_path output_path))
            = (seq 0 (length images)
               ++ match
                    watermark_input
                      (build_command fs (staged preview images g)
                         audio_path output_path)
                  with
                  | Some _ => [length images + 1]%nat
                  | None => []
                  end)%list).
  { unfold build_command. cbn [filter_complex watermark_input].
    rewrite filter_graph_reads, Hi, Hidx. f_equal.
    unfold has_watermark, watermark_enabled. rewrite Hw.
    destruct (Generator.watermark g) as [wm|]; [|reflexivity].
    destruct (WatermarkConfig.enabled wm); [|reflexivity].
    cbn [andb]. rewrite andb_true_r.
    now destruct (path_exists fs (WatermarkConfig.image_path wm)). }
  assert (Himg : image_inputs
                   (build_command fs (staged preview images g)
                      audio_path output_path)
                 = map ImageInfo.path images)
    by (unfold build_command; cbn [image_inputs]; now rewrite Hi).
  rewrite Himg, length_map. split; [exact Hreads|]. split; [|split].
  - rewrite Hreads. unfold build_command at 1. cbn [map_audio]. rewrite Hi.
    intro Hin. apply in_app_or in Hin. destruct Hin as [Hin|Hin].
    + apply in_seq in Hin. lia.
    + destruct (watermark_input _); [|contradiction].
      destruct Hin as [Hin|[]]. lia.
  - unfold build_command. cbn [filter_complex].
    apply build_filter_scoped; rewrite Hi.
    + intro E. rewrite E in Hlen. destruct (find_images fs image_path);
        [congruence | discriminate].
    + exact Hidx.
  - unfold build_command. cbn [filter_complex]. apply build_filter_last_out.
Qed.

Lemma generate_graph_reads_command_inputs_witness :
  exists cmd rest,
    launches (generate sample_fs sample_rng (PopenStarts finished_child)
                default_generator "pics" "song.mp3" "out.mp4"
                None silent_bar false) = cmd :: rest
    /\ well_scoped [] (filter_complex cmd) = true
    /\ ~ In (map_audio cmd) (stream_reads (filter_complex cmd)).
Proof.
  destruct (launches (generate sample_fs sample_rng
                        (PopenStarts finished_child) default_generator
                        "pics" "song.mp3" "out.mp4" None silent_bar false))
    as [|cmd rest] eqn:H; [vm_compute in H; discriminate H|].
  destruct (@generate_graph_reads_command_inputs sample_fs sample_rng
              (PopenStarts finished_child) default_generator
              "pics" "song.mp3" "out.mp4" None silent_bar false cmd rest
              (Format (LV 0) (LV 0)) H)
    as (_ & Ha & Hs & _).
  exists cmd, rest. split; [reflexivity|]. split; [exact Hs | exact Ha].
Defined.

(** X13. The title of the generator has no effect on the commands [generate]
    launches: with any title, or none, the commands are the same. *)
Theorem generate_ignores_title (fs : filesystem) (r : rng)
    (child : popen) (g : Generator.t)
    (image_path audio_path output_path : string)
    (cb1 : text_callback) (cb2 : bar_callback) (preview : bool)
    (t : option TitleConfig.t) :
  launches (generate fs r child (set_title t g) image_path audio_path
              output_path cb1 cb2 preview)
  = launches (generate fs r child g image_path audio_path output_path
                cb1 cb2 preview).
Proof.
  unfold generate.
  destruct (negb (path_exists fs audio_path)); [reflexivity|].
  destruct (negb (in_strings _ SUPPORTED_AUDIO)); [reflexivity|].
  destruct (find_images fs image_path) as [|f files]; [reflexivity|].
  destruct (@prepare_images_returns (Generator.set_stop_flag false g)
              (f :: files) r ltac:(discriminate))
    as (images & r' & Ep & Hp & _).
  destruct (@prepare_images_returns
              (Generator.set_stop_flag false (set_title t g))
              (f :: files) r ltac:(discriminate))
    as (images2 & r2 & Ep2 & Hp2 & _).
  assert (Hsame : images2 = images /\ r2 = r').
  { revert Ep Ep2. unfold prepare_images, set_title. destruct g. cbn.
    destruct (if VideoConfig.shuffle config then _ else _) as [o r1].
    destruct (prepare_loop config 0 o r1) as [l r3].
    intros E1 E2. inversion E1. inversion E2. subst. now split. }
  destruct Hsame as [-> ->]. rewrite Ep, Ep2.
  assert (Hlen : forall x : Generator.t,
             length (Generator.images
                       (Generator.set_images images
                          (Generator.set_stop_flag false x)))
             = length images) by (intro x; now destruct x).
  rewrite !Hlen.
  destruct (call cb1 _); [reflexivity|].
  destruct (call cb1 _); [reflexivity|].
  assert (Hcmd : forall x : Generator.t,
             build_command fs
               (if preview
                then Generator.set_config
                       (preview_config
                          (Generator.config
                             (Generator.set_images images
                                (Generator.set_stop_flag false (set_title t x)))))
                       (Generator.set_images images
                          (Generator.set_stop_flag false (set_title t x)))
                else Generator.set_images images
                       (Generator.set_stop_flag false (set_title t x)))
               audio_path output_path
             = build_command fs
                 (if preview
                  then Generator.set_config
                         (preview_config
                            (Generator.config
                               (Generator.set_images images
                                  (Generator.set_stop_flag false x))))
                         (Generator.set_images images
                            (Generator.set_stop_flag false x))
                  else Generator.set_images images
                         (Generator.set_stop_flag false x))
                 audio_path output_path).
  { intro x. destruct x, preview; reflexivity. }
  rewrite Hcmd.
  destruct child as [e|p]; [reflexivity|].
  destruct (pump cb2 _ (script p) _) as [[| |e] g2];
    destruct (pump cb2 _ (script p) _) as [[| |e'] g2'];
    repeat (match goal with
            | |- context [if ?b then _ else _] => destruct b
            | |- context [match output_size p with _ => _ end] =>
                destruct (output_size p)
            end); reflexivity.
Qed.

(** ** More on the progress parser *)

Lemma int_acc_nonneg (s : string) (acc : Z) :
  (0 <= acc)%Z -> (0 <= int_acc acc s)%Z.
Proof.
  revert acc. induction s as [|c s IH]; intros acc H; simpl; [exact H|].
  apply IH. unfold digit_value. lia.
Qed.

Lemma py_int_nonneg (s : string) : (0 <= py_int s)%Z.
Proof. apply int_acc_nonneg. lia. Qed.

Lemma py_float_nonneg (s : string) (v : Q) : py_float s = inr v -> 0 <= v.
Proof.
  unfold py_float. destruct (_ && _); [|discriminate]. intros [= <-].
  apply Qle_shift_div_l.
  - change 0 with (inject_Z 0). rewrite <- Zlt_Qlt.
    apply Z.pow_pos_nonneg; lia.
  - rewrite Qmult_0_l. change 0 with (inject_Z 0). rewrite <- Zle_Qle.
    apply py_int_nonneg.
Qed.

Lemma elapsed_nonneg (h m : string) (sec : Q) :
  0 <= sec -> 0 <= elapsed_seconds h m sec.
Proof.
  intro H. unfold elapsed_seconds.
  assert (0 <= inject_Z (py_int h * 3600 + py_int m * 60)).
  { change 0 with (inject_Z 0). rewrite <- Zle_Qle.
    pose proof (py_int_nonneg h). pose proof (py_int_nonneg m). lia. }
  lra.
Qed.

Lemma percent_bounds (te total : Q) :
  0 <= te -> 0 < total -> 0 <= py_min 100 (te / total * 100) <= 100.
Proof.
  intros Hte Ht.
  assert (Hx : 0 <= te / total * 100).
  { apply Qmult_le_0_compat; [|lra].
    apply Qle_shift_div_l; [exact Ht | lra]. }
  destruct (py_min_spec 100 (te / total * 100)) as [[H ->] | [H ->]]; lra.
Qed.

Lemma parse_frame_sane (line : string) (s : ProgressInfo.t) :
  sane s -> sane (snd (parse_frame line s)).
Proof.
  rewrite parse_frame_returns. cbn [snd].
  destruct (search frame_at line) as [d|]; [|auto].
  intros (_ & H). split; [apply py_int_nonneg | exact H].
Qed.

Lemma parse_fps_sane (line : string) (s : ProgressInfo.t) :
  sane s -> sane (snd (parse_fps line s)).
Proof.
  unfold parse_fps, bind, lift, modify, ret.
  destruct (search fps_at line) as [t|]; [|auto].
  destruct (py_float t) as [e|v] eqn:E; [auto|].
  intros (H1 & _ & H). cbn. split; [exact H1|].
  split; [now apply py_float_nonneg with t | exact H].
Qed.

Lemma parse_speed_sane (line : string) (s : ProgressInfo.t) :
  sane s -> sane (snd (parse_speed line s)).
Proof.
  unfold parse_speed, bind, lift, modify, ret.
  destruct (search speed_at line) as [t|]; [|auto].
  destruct (py_float t) as [e|v] eqn:E; [auto|].
  intros (H1 & H2 & H3 & _ & H). cbn.
  repeat (split; [assumption|]).
  split; [now apply py_float_nonneg with t | exact H].
Qed.

Lemma parse_time_sane (cfps : Z) (line : string) (total : Q)
    (s : ProgressInfo.t) :
  sane s -> sane (snd (parse_time cfps line total s)).
Proof.
  unfold parse_time, bind, lift, modify, ret, get.
  destruct (search time_at line) as [[[h m] x]|]; [|auto].
  destruct (py_float x) as [e|sec] eqn:E; [auto|].
  intros (H1 & H2 & _ & H4 & H5).
  assert (Hte : 0 <= inject_Z (py_int h * 3600 + py_int m * 60) + sec)
    by (apply elapsed_nonneg; now apply py_float_nonneg with x).
  destruct (Qltb 0 total) eqn:Et.
  - apply Qltb_true in Et.
    pose proof (percent_bounds Hte Et) as Hp.
    cbn [set_time_encoded ProgressInfo.fps ProgressInfo.time_encoded].
    destruct (Qltb 0 (ProgressInfo.fps s)).
    + destruct (py_div _ _) as [e|ratio]; [cbn; unfold sane; cbn; auto|].
      destruct (py_div _ _) as [e|eta]; cbn; unfold sane; cbn; auto.
    + cbn. unfold sane. cbn. auto.
  - cbn. unfold sane. cbn. auto.
Qed.

Lemma parse_sane (cfps : Z) (line : string) (total : Q)
    (info : ProgressInfo.t) :
  sane info -> sane (snd (_parse_ffmpeg_progress cfps line total info)).
Proof.
  intro H. unfold _parse_ffmpeg_progress.
  assert (Hb : forall (m k : M unit) s,
             sane s ->
             (forall s', sane s' -> sane (snd (m s'))) ->
             (forall s', sane s' -> sane (snd (k s'))) ->
             sane (snd (bind m (fun _ => k) s))).
  { intros m k s Hs Hm Hk. unfold bind. specialize (Hm s Hs).
    destruct (m s) as [[e|u] s']; cbn in *; auto. }
  apply Hb; [exact H | apply parse_frame_sane|]. intros s1 H1.
  apply Hb; [exact H1 | apply parse_fps_sane|]. intros s2 H2.
  apply Hb; [exact H2 | apply parse_time_sane | apply parse_speed_sane].
Qed.

Ltac parser_step :=
  cbn [snd fst set_frame set_fps set_time_encoded set_percent
       set_eta_seconds set_speed ProgressInfo.frame ProgressInfo.fps
       ProgressInfo.time_encoded ProgressInfo.speed ProgressInfo.percent
       ProgressInfo.eta_seconds];
  first
    [ reflexivity
    | match goal with
      | H : Qltb ?a ?b = _ |- context [Qltb ?a ?b] => rewrite H
      | H : py_div ?a ?b = _ |- context [py_div ?a ?b] => rewrite H
      | |- context [match search ?f ?l with _ => _ end] =>
          destruct (search f l) as [?|]
      | |- context [let (_, _) := ?p in _] => is_var p; destruct p
      | |- context [match py_float ?t with _ => _ end] =>
          destruct (py_float t) as [?|?]
      | |- context [if Qltb ?a ?b then _ else _] =>
          lazymatch b with context [snd _] => fail | _ => idtac end;
          destruct (Qltb a b) eqn:?
      | |- context [match py_div ?a ?b with _ => _ end] =>
          lazymatch a with context [snd _] => fail | _ => idtac end;
          lazymatch b with context [snd _] => fail | _ => idtac end;
          destruct (py_div a b) as [?|?] eqn:?
      end ].

(** X16. Parsing the same line twice is parsing it once: the second pass returns or
    raises as the first did and leaves the snapshot of the first. *)
Theorem parser_idempotent (cfps : Z) (line : string) (total : Q)
    (info : ProgressInfo.t) :
  _parse_ffmpeg_progress cfps line total
    (snd (_parse_ffmpeg_progress cfps line total info))
  = _parse_ffmpeg_progress cfps line total info.
Proof.
  destruct info as [fr fp te sp pc eta].
  unfold _parse_ffmpeg_progress, parse_frame, parse_fps, parse_time,
    parse_speed, bind, lift, modify, ret, get.
  repeat parser_step.
Qed.

(** ** Presets, export profiles and the options of the command line *)

Lemma lookup_In {A} (key : string) (d : list (string * A)) (v : A) :
  lookup key d = Some v -> In (key, v) d.
Proof.
  induction d as [|[k x] rest IH]; simpl; [discriminate|].
  destruct (String.eqb_spec key k) as [->|Hk].
  - intros [= ->]. now left.
  - intro H. right. now apply IH.
Qed.

Lemma lookup_known {A} (key : string) (d : list (string * A)) :
  In key (map fst d) <-> exists v, lookup key d = Some v.
Proof.
  induction d as [|[k x] rest IH]; simpl.
  - split; [contradiction | intros [v H]; discriminate].
  - destruct (String.eqb_spec key k) as [->|Hk].
    + split; [eauto | auto].
    + rewrite <- IH. split; [intros [H|H]; [congruence | exact H] | auto].
Qed.

Lemma preset_values (name : string) (p : Preset.t) :
  lookup name PRESETS = Some p ->
  0 < Preset.crossfade p /\ Preset.crossfade p < Preset.duration p
  /\ (0 < Preset.fps p)%Z.
Proof.
  intro H. apply lookup_In in H. simpl in H.
  repeat (destruct H as [[= <- <-]|H];
          [split; [reflexivity|split; reflexivity]|]).
  contradiction.
Qed.

Lemma apply_preset_inv (cfg cfg' : VideoConfig.t) (name : string) :
  apply_preset cfg name = inr cfg' ->
  exists p, lookup name PRESETS = Some p
    /\ cfg' = VideoConfig.mk (Preset.duration p) (Preset.crossfade p)
                (Preset.fps p)
                (VideoConfig.width cfg) (VideoConfig.height cfg)
                (Preset.zoom_intensity p) (Preset.pan_intensity p)
                (VideoConfig.zoom_direction cfg)
                (VideoConfig.pan_direction cfg)
                (VideoConfig.vertical_position cfg)
                (VideoConfig.transition cfg)
                (VideoConfig.shuffle cfg) (VideoConfig.reverse cfg)
                (Preset.crf p) (Preset.preset p)
                (VideoConfig.audio_bitrate cfg).
Proof.
  unfold apply_preset. destruct (lookup name PRESETS) as [p|];
    [|discriminate].
  intros [= <-]. eauto.
Qed.

(** X17. [apply_preset] succeeds exactly on the names of [PRESETS].  The
    configuration it returns has a positive cross-fade shorter than the
    slide, a positive fps, the fields no preset sets (size, directions,
    vertical position, transition, shuffle, reverse, audio bitrate) as they
    were, and applying the preset again changes nothing. *)
Theorem apply_preset_effect (cfg : VideoConfig.t) (name : string) :
  (In name (map fst PRESETS) <-> exists cfg', apply_preset cfg name = inr cfg')
  /\ (forall cfg',
        apply_preset cfg name = inr cfg' ->
        0 < VideoConfig.crossfade cfg'
        /\ VideoConfig.crossfade cfg' < VideoConfig.duration cfg'
        /\ (0 < VideoConfig.fps cfg')%Z
        /\ VideoConfig.width cfg' = VideoConfig.width cfg
        /\ VideoConfig.height cfg' = VideoConfig.height cfg
        /\ VideoConfig.zoom_direction cfg' = VideoConfig.zoom_direction cfg
        /\ VideoConfig.pan_direction cfg' = VideoConfig.pan_direction cfg
        /\ VideoConfig.vertical_position cfg'
           = VideoConfig.vertical_position cfg
        /\ VideoConfig.transition cfg' = VideoConfig.transition cfg
        /\ VideoConfig.shuffle cfg' = VideoConfig.shuffle cfg
        /\ VideoConfig.reverse cfg' = VideoConfig.reverse cfg
        /\ VideoConfig.audio_bitrate cfg' = VideoConfig.audio_bitrate cfg
        /\ apply_preset cfg' name = inr cfg').
Proof.
  split.
  - rewrite lookup_known. unfold apply_preset. split.
    + intros [p ->]. eauto.
    + destruct (lookup name PRESETS) as [p|]; [eauto|].
      intros [c H]. discriminate.
  - intros cfg' H. destruct (apply_preset_inv _ _ H) as (p & Hp & ->).
    destruct (preset_values _ Hp) as (H1 & H2 & H3).
    cbn. repeat (split; [assumption || reflexivity|]).
    unfold apply_preset. rewrite Hp. reflexivity.
Qed.

Lemma apply_preset_effect_witness :
  In "cinematic" (map fst PRESETS)
  /\ exists cfg',
       apply_preset VideoConfig.default "cinematic" = inr cfg'
       /\ VideoConfig.crossfade cfg' < VideoConfig.duration cfg'
       /\ VideoConfig.width cfg' = VideoConfig.width VideoConfig.default.
Proof.
  assert (Hin : In "cinematic" (map fst PRESETS)) by (cbv; auto).
  split; [exact Hin|].
  destruct (apply_preset_effect VideoConfig.default "cinematic") as [H1 H2].
  destruct (proj1 H1 Hin) as [cfg' E]. exists cfg'.
  destruct (H2 cfg' E) as (_ & Hc & _ & Hw & _). auto.
Defined.

Lemma offsets_strictly_increase (g : Generator.t) (ww wt : bool) :
  VideoConfig.crossfade (Generator.config g)
  < VideoConfig.duration (Generator.config g) ->
  StronglySorted Qlt
    (map xfade_offset (xfades (_build_filter_complex g ww wt))).
Proof.
  intro Hlt.
  destruct (Nat.lt_ge_cases (length (Generator.images g)) 2) as [Hn|Hn].
  - rewrite xfades_few by exact Hn. constructor.
  - rewrite (xfades_build g ww wt Hn), xfade_chain_offsets.
    apply offsets_from_sorted. lra.
Qed.

Lemma formula_positive (g : Generator.t) :
  Generator.images g <> [] ->
  0 < VideoConfig.duration (Generator.config g) ->
  VideoConfig.crossfade (Generator.config g)
  <= VideoConfig.duration (Generator.config g) ->
  (title_enabled g = true -> 0 <= title_duration g) ->
  0 < duration_formula g.
Proof.
  intros Hne Hd Hc Ht. unfold duration_formula.
  assert (Hn : 1 <= nQ (length (Generator.images g))).
  { destruct (Generator.images g) as [|i l]; [congruence|].
    simpl length. rewrite nQ_S. unfold nQ.
    assert (0 <= inject_Z (Z.of_nat (length l)))
      by (change 0 with (inject_Z 0); rewrite <- Zle_Qle; lia).
    lra. }
  assert (Hx : 0 <= (nQ (length (Generator.images g)) - 1)
                    * (VideoConfig.duration (Generator.config g)
                       - VideoConfig.crossfade (Generator.config g)))
    by (apply Qmult_le_0_compat; lra).
  assert (Htitle : 0 <= (if title_enabled g then title_duration g else 0))
    by (destruct (title_enabled g); [now apply Ht | apply Qle_refl]).
  lra.
Qed.

Lemma estimate_unclamped (g : Generator.t) :
  Generator.images g <> [] -> 0 < duration_formula g ->
  estimate_duration g == duration_formula g.
Proof.
  intros Hne Hpos.
  destruct (estimate_duration_max g Hne) as (total & Ht & ->).
  destruct (py_max_spec 0 total) as [[_ ->] | [Hle ->]]; [exact Ht|].
  rewrite Ht in Hle. lra.
Qed.

(** X18. With any preset applied, the cross-fade offsets of the filter graph
    increase strictly, and with at least one image (and a title duration
    that is not negative) the estimated duration is positive and equals
    n * duration - (n - 1) * crossfade plus the title. *)
Theorem preset_makes_a_valid_slideshow (g : Generator.t) (name : string)
    (cfg' : VideoConfig.t) (ww wt : bool) :
  apply_preset (Generator.config g) name = inr cfg' ->
  StronglySorted Qlt
    (map xfade_offset
       (xfades (_build_filter_complex (Generator.set_config cfg' g) ww wt)))
  /\ (Generator.images g <> [] ->
      (title_enabled g = true -> 0 <= title_duration g) ->
      0 < estimate_duration (Generator.set_config cfg' g)
      /\ estimate_duration (Generator.set_config cfg' g)
         == duration_formula (Generator.set_config cfg' g)).
Proof.
  intro H. destruct (apply_preset_inv _ _ H) as (p & Hp & ->).
  destruct (preset_values _ Hp) as (H1 & H2 & H3).
  split.
  - apply offsets_strictly_increase. destruct g. exact H2.
  - intros Hne Ht.
    assert (Hpos : 0 < duration_formula
                         (Generator.set_config
                            (VideoConfig.mk (Preset.duration p)
                               (Preset.crossfade p) (Preset.fps p)
                               (VideoConfig.width (Generator.config g))
                               (VideoConfig.height (Generator.config g))
                               (Preset.zoom_intensity p)
                               (Preset.pan_intensity p)
                               (VideoConfig.zoom_direction (Generator.config g))
                               (VideoConfig.pan_direction (Generator.config g))
                               (VideoConfig.vertical_position
                                  (Generator.config g))
                               (VideoConfig.transition (Generator.config g))
                               (VideoConfig.shuffle (Generator.config g))
                               (VideoConfig.reverse (Generator.config g))
                               (Preset.crf p) (Preset.preset p)
                               (VideoConfig.audio_bitrate (Generator.config g)))
                            g)).
    { apply formula_positive; destruct g; cbn in *;
        try assumption; lra. }
    rewrite estimate_unclamped; [split; [exact Hpos | reflexivity]| |exact Hpos].
    destruct g; exact Hne.
Qed.

Lemma preset_makes_a_valid_slideshow_witness :
  exists cfg',
    apply_preset (Generator.config long_crossfade_generator) "fast"
    = inr cfg'
    /\ 0 < estimate_duration
             (Generator.set_config cfg' long_crossfade_generator).
Proof.
  destruct (apply_preset (Generator.config long_crossfade_generator) "fast")
    as [e|cfg'] eqn:E; [vm_compute in E; discriminate E|].
  exists cfg'. split; [reflexivity|].
  apply (proj2 (@preset_makes_a_valid_slideshow long_crossfade_generator
                  "fast" cfg' false false E));
    [discriminate | discriminate].
Defined.

Lemma profile_values (name : string) (p : Profile.t) :
  lookup name EXPORT_PROFILES = Some p ->
  (0 < Profile.width p)%Z /\ (0 < Profile.height p)%Z
  /\ Z.even (Profile.width p) = true /\ Z.even (Profile.height p) = true
  /\ (0 < Profile.fps p)%Z /\ (0 <= Profile.crf p <= 51)%Z.
Proof.
  intro H. apply lookup_In in H. simpl in H.
  repeat (destruct H as [[= <- <-]|H]; [cbn; repeat split; lia|]).
  contradiction.
Qed.

(** X19. [apply_export_profile] succeeds exactly on the names of
    [EXPORT_PROFILES].  The configuration it returns has a positive, even
    width and height, a positive fps and a crf between 0 and 51; the timing,
    motion and ordering fields are as they were; applying the profile again
    changes nothing; and the profile "preview" writes the five values
    [generate] uses for a preview, plus the audio bitrate 96k that [generate]
    leaves alone. *)
Theorem apply_export_profile_effect (cfg : VideoConfig.t) (name : string) :
  (In name (map fst EXPORT_PROFILES)
   <-> exists cfg', apply_export_profile cfg name = inr cfg')
  /\ (forall cfg',
        apply_export_profile cfg name = inr cfg' ->
        (0 < VideoConfig.width cfg')%Z /\ (0 < VideoConfig.height cfg')%Z
        /\ Z.even (VideoConfig.width cfg') = true
        /\ Z.even (VideoConfig.height cfg') = true
        /\ (0 < VideoConfig.fps cfg')%Z
        /\ (0 <= VideoConfig.crf cfg' <= 51)%Z
        /\ VideoConfig.duration cfg' = VideoConfig.duration cfg
        /\ VideoConfig.crossfade cfg' = VideoConfig.crossfade cfg
        /\ VideoConfig.zoom_intensity cfg' = VideoConfig.zoom_intensity cfg
        /\ VideoConfig.pan_intensity cfg' = VideoConfig.pan_intensity cfg
        /\ VideoConfig.zoom_direction cfg' = VideoConfig.zoom_direction cfg
        /\ VideoConfig.pan_direction cfg' = VideoConfig.pan_direction cfg
        /\ VideoConfig.vertical_position cfg'
           = VideoConfig.vertical_position cfg
        /\ VideoConfig.transition cfg' = VideoConfig.transition cfg
        /\ VideoConfig.shuffle cfg' = VideoConfig.shuffle cfg
        /\ VideoConfig.reverse cfg' = VideoConfig.reverse cfg
        /\ apply_export_profile cfg' name = inr cfg')
  /\ (forall cfg',
        apply_export_profile cfg "preview" = inr cfg' ->
        save_config cfg' = save_config (preview_config cfg)
        /\ VideoConfig.audio_bitrate cfg' = "96k"
        /\ VideoConfig.audio_bitrate (preview_config cfg)
           = VideoConfig.audio_bitrate cfg).
Proof.
  split; [|split].
  - rewrite lookup_known. unfold apply_export_profile. split.
    + intros [p ->]. eauto.
    + destruct (lookup name EXPORT_PROFILES) as [p|]; [eauto|].
      intros [c H]. discriminate.
  - intros cfg'. unfold apply_export_profile.
    destruct (lookup name EXPORT_PROFILES) as [p|] eqn:Hp; [|discriminate].
    intros [= <-]. destruct (profile_values _ Hp) as (A & B & C & D & E & F).
    cbn [VideoConfig.width VideoConfig.height VideoConfig.fps VideoConfig.crf
         VideoConfig.duration VideoConfig.crossfade VideoConfig.zoom_intensity
         VideoConfig.pan_intensity VideoConfig.zoom_direction
         VideoConfig.pan_direction VideoConfig.vertical_position
         VideoConfig.transition VideoConfig.shuffle VideoConfig.reverse
         VideoConfig.preset VideoConfig.audio_bitrate].
    repeat (split; [assumption || reflexivity|]).
    reflexivity.
  - intros cfg' [= <-]. repeat split.
Qed.

Lemma apply_export_profile_effect_witness :
  In "preview" (map fst EXPORT_PROFILES)
  /\ exists cfg',
       apply_export_profile VideoConfig.default "preview" = inr cfg'
       /\ save_config cfg' = save_config (preview_config VideoConfig.default).
Proof.
  assert (Hin : In "preview" (map fst EXPORT_PROFILES)) by (cbv; auto 10).
  split; [exact Hin|].
  destruct (apply_export_profile_effect VideoConfig.default "preview")
    as (H1 & _ & H3).
  destruct (proj1 H1 Hin) as [cfg' E]. exists cfg'.
  split; [exact E|]. apply (H3 cfg' E).
Defined.

Lemma truthy_Q_idem (o : option Q) : truthy_Q (truthy_Q o) = truthy_Q o.
Proof.
  destruct o as [q|]; [|reflexivity]. simpl.
  destruct (Qeq_bool q 0) eqn:E; [reflexivity|]. simpl. now rewrite E.
Qed.

Lemma truthy_Z_idem (o : option Z) : truthy_Z (truthy_Z o) = truthy_Z o.
Proof.
  destruct o as [z|]; [|reflexivity]. simpl.
  destruct (z =? 0)%Z eqn:E; [reflexivity|]. simpl. now rewrite E.
Qed.

Lemma truthy_string_idem (o : option string) :
  truthy_string (truthy_string o) = truthy_string o.
Proof.
  destruct o as [s|]; [|reflexivity]. simpl.
  destruct (String.eqb s "") eqn:E; [reflexivity|]. simpl. now rewrite E.
Qed.

(** X20. An option of the video command whose value counts as false (zero, or the
    empty text) is treated as if it had not been given: for instance a
    quality of 0, with no profile and no preset, leaves the crf of the
    configuration. *)
Theorem falsy_options_are_ignored (args : VideoArgs.t) (c : VideoConfig.t) :
  configure_video args c = configure_video (drop_falsy args) c
  /\ (VideoArgs.quality args = Some 0%Z ->
      VideoArgs.quality (drop_falsy args) = None)
  /\ (forall q, VideoArgs.crossfade args = Some q -> q == 0 ->
        VideoArgs.crossfade (drop_falsy args) = None)
  /\ (forall q, VideoArgs.zoom args = Some q -> q == 0 ->
        VideoArgs.zoom (drop_falsy args) = None)
  /\ (forall q, VideoArgs.pan args = Some q -> q == 0 ->
        VideoArgs.pan (drop_falsy args) = None)
  /\ (VideoArgs.export args = None -> VideoArgs.preset args = None ->
      VideoArgs.quality args = Some 0%Z ->
      exists c', configure_video args c = inr c'
                 /\ VideoConfig.crf c' = VideoConfig.crf c).
Proof.
  split; [|split; [|split; [|split; [|split]]]].
  - unfold configure_video, override, drop_falsy.
    cbn [VideoArgs.preset VideoArgs.export VideoArgs.duration
         VideoArgs.crossfade VideoArgs.fps VideoArgs.width VideoArgs.height
         VideoArgs.zoom VideoArgs.pan VideoArgs.zoom_dir VideoArgs.pan_dir
         VideoArgs.transition VideoArgs.shuffle VideoArgs.reverse
         VideoArgs.quality].
    now rewrite !truthy_Q_idem, !truthy_Z_idem, !truthy_string_idem.
  - intro H. unfold drop_falsy. cbn. now rewrite H.
  - intros q H Hq. unfold drop_falsy. cbn [VideoArgs.crossfade].
    rewrite H. cbn. apply Qeq_bool_iff in Hq. now rewrite Hq.
  - intros q H Hq. unfold drop_falsy. cbn [VideoArgs.zoom].
    rewrite H. cbn. apply Qeq_bool_iff in Hq. now rewrite Hq.
  - intros q H Hq. unfold drop_falsy. cbn [VideoArgs.pan].
    rewrite H. cbn. apply Qeq_bool_iff in Hq. now rewrite Hq.
  - intros He Hp Hq. unfold configure_video. rewrite He, Hp. cbn.
    eexists. split; [reflexivity|]. unfold override.
    cbn [VideoConfig.crf]. now rewrite Hq.
Qed.

Lemma falsy_options_are_ignored_witness :
  exists c',
    configure_video
      (VideoArgs.mk None None None None None None None None None None None
         None false false (Some 0%Z)) VideoConfig.default = inr c'
    /\ VideoConfig.crf c' = 18%Z.
Proof.
  apply (falsy_options_are_ignored
           (VideoArgs.mk None None None None None None None None None None
              None None false false (Some 0%Z)) VideoConfig.default);
    reflexivity.
Defined.

(** X21. Order of precedence in the video command: an option given with a value
    other than zero wins over preset, profile and configuration file;
    shuffle can be switched on but not off; and with a profile and a preset
    together the preset is applied last, so the encoder preset, and fps and
    crf when not given as options, are the preset's, while audio bitrate,
    and width and height when not given, are the profile's. *)
Theorem configure_video_precedence (args : VideoArgs.t)
    (c c' : VideoConfig.t) :
  configure_video args c = inr c' ->
  (forall q, VideoArgs.duration args = Some q -> ~ q == 0 ->
             VideoConfig.duration c' = q)
  /\ (forall q, VideoArgs.crossfade args = Some q -> ~ q == 0 ->
                VideoConfig.crossfade c' = q)
  /\ (forall z, VideoArgs.fps args = Some z -> z <> 0%Z ->
                VideoConfig.fps c' = z)
  /\ (forall z, VideoArgs.width args = Some z -> z <> 0%Z ->
                VideoConfig.width c' = z)
  /\ (forall z, VideoArgs.height args = Some z -> z <> 0%Z ->
                VideoConfig.height c' = z)
  /\ (forall z, VideoArgs.quality args = Some z -> z <> 0%Z ->
                VideoConfig.crf c' = z)
  /\ (VideoArgs.shuffle args = true \/ VideoConfig.shuffle c = true ->
      VideoConfig.shuffle c' = true)
  /\ (forall e p pf pr,
        VideoArgs.export args = Some e -> VideoArgs.preset args = Some p ->
        lookup e EXPORT_PROFILES = Some pf -> lookup p PRESETS = Some pr ->
        VideoConfig.preset c' = Preset.preset pr
        /\ VideoConfig.audio_bitrate c' = Profile.audio_bitrate pf
        /\ (VideoArgs.fps args = None -> VideoConfig.fps c' = Preset.fps pr)
        /\ (VideoArgs.quality args = None ->
            VideoConfig.crf c' = Preset.crf pr)
        /\ (VideoArgs.width args = None ->
            VideoConfig.width c' = Profile.width pf)
        /\ (VideoArgs.height args = None ->
            VideoConfig.height c' = Profile.height pf)).
Proof.
  unfold configure_video.
  destruct (match truthy_string (VideoArgs.export args) with
            | Some name => apply_export_profile c name
            | None => inr c
            end) as [e1|c1] eqn:E1; [discriminate|].
  destruct (match truthy_string (VideoArgs.preset args) with
            | Some name => apply_preset c1 name
            | None => inr c1
            end) as [e2|c2] eqn:E2; [discriminate|].
  intros [= <-]. unfold override.
  cbn [VideoConfig.duration VideoConfig.crossfade VideoConfig.fps
       VideoConfig.width VideoConfig.height VideoConfig.crf
       VideoConfig.shuffle VideoConfig.preset VideoConfig.audio_bitrate].
  assert (HQ : forall o q d, o = Some q -> ~ q == 0 ->
                 or_else (truthy_Q o) d = q).
  { intros o q d -> Hq. cbn. destruct (Qeq_bool q 0) eqn:E; [|reflexivity].
    apply Qeq_bool_iff in E. contradiction. }
  assert (HZ : forall o z d, o = Some z -> z <> 0%Z ->
                 or_else (truthy_Z o) d = z).
  { intros o z d -> Hz. cbn. destruct (Z.eqb_spec z 0); [contradiction|].
    reflexivity. }
  do 6 (split; [auto|]).
  split.
  - intros [H|H]; [now rewrite H|].
    assert (Hs : VideoConfig.shuffle c2 = true).
    { assert (H1 : VideoConfig.shuffle c1 = true).
      { destruct (truthy_string (VideoArgs.export args)) as [n|];
          [|congruence].
        unfold apply_export_profile in E1.
        destruct (lookup n EXPORT_PROFILES); [|discriminate].
        injection E1 as <-. exact H. }
      destruct (truthy_string (VideoArgs.preset args)) as [n|];
        [|congruence].
      destruct (apply_preset_inv _ _ E2) as (p & _ & ->). exact H1. }
    rewrite Hs. now destruct (VideoArgs.shuffle args).
  - intros e p pf pr He Hp Hpf Hpr.
    assert (He' : truthy_string (VideoArgs.export args) = Some e).
    { rewrite He. cbn. destruct (String.eqb_spec e ""); [|reflexivity].
      subst. discriminate. }
    assert (Hp' : truthy_string (VideoArgs.preset args) = Some p).
    { rewrite Hp. cbn. destruct (String.eqb_spec p ""); [|reflexivity].
      subst. discriminate. }
    rewrite He' in E1. rewrite Hp' in E2.
    unfold apply_export_profile in E1. rewrite Hpf in E1.
    injection E1 as <-.
    unfold apply_preset in E2. rewrite Hpr in E2. injection E2 as <-.
    cbn [VideoConfig.preset VideoConfig.audio_bitrate VideoConfig.fps
         VideoConfig.crf VideoConfig.width VideoConfig.height].
    split; [reflexivity|]. split; [reflexivity|].
    repeat split; intros ->; reflexivity.
Qed.

Lemma configure_video_precedence_witness :
  exists c',
    configure_video
      (VideoArgs.mk (Some "fast") (Some "youtube") None None None None
         (Some 720%Z) None None None None None true false None)
      VideoConfig.default = inr c'
    /\ VideoConfig.height c' = 720%Z /\ VideoConfig.width c' = 1920%Z
    /\ VideoConfig.fps c' = 30%Z /\ VideoConfig.preset c' = "fast"
    /\ VideoConfig.audio_bitrate c' = "320k"
    /\ VideoConfig.shuffle c' = true.
Proof.
  destruct (configure_video
              (VideoArgs.mk (Some "fast") (Some "youtube") None None None
                 None (Some 720%Z) None None None None None true false None)
              VideoConfig.default) as [e|c'] eqn:E;
    [vm_compute in E; discriminate E|].
  exists c'. split; [reflexivity|].
  destruct (@configure_video_precedence _ _ _ E)
    as (_ & _ & _ & _ & Hh & _ & Hs & Hp).
  destruct (Hp "youtube" "fast" _ _ eq_refl eq_refl eq_refl eq_refl)
    as (H1 & H2 & H3 & _ & H5 & _).
  split; [apply Hh; [reflexivity | discriminate]|].
  split; [apply H5; reflexivity|].
  split; [apply H3; reflexivity|].
  split; [exact H1|]. split; [exact H2|].
  apply Hs. left. reflexivity.
Defined.

(** ** The progress bar, progress snapshots and [find_images] *)







Lemma pump_sane (cb : bar_callback) (total : Q) (its : list iteration)
    (g : Generator.t) :
  sane (Generator._progress_info g) ->
  sane (Generator._progress_info (snd (pump cb total its g))).
Proof.
  revert g. induction its as [|it rest IH]; intros g Hs.
  - simpl. now destruct (Generator._stop_flag g).
  - cbn [pump].
    set (g1 := if cancel_requested it then cancel g else g).
    assert (H1 : sane (Generator._progress_info g1))
      by (subst g1; now destruct (cancel_requested it)).
    destruct (Generator._stop_flag g1); [exact H1|].
    destruct (String.eqb (line it) "").
    + destruct (exited it); [exact H1 | now apply IH].
    + destruct cb as [f|]; [|now apply IH].
      pose proof (parse_sane (VideoConfig.fps (Generator.config g1))
                    (line it) total H1) as H2.
      destruct (_parse_ffmpeg_progress _ _ _ _) as [[e|u] info].
      * exact H2.
      * destruct (f info); [exact H2 | now apply IH].
Qed.

Lemma pump_callback_on_sane (f f' : ProgressInfo.t -> option exn)
    (total : Q) (its : list iteration) (g : Generator.t) :
  (forall info, sane info -> f info = f' info) ->
  sane (Generator._progress_info g) ->
  pump (Some f) total its g = pump (Some f') total its g.
Proof.
  intro Hf. revert g. induction its as [|it rest IH]; intros g Hs.
  - reflexivity.
  - cbn [pump].
    set (g1 := if cancel_requested it then cancel g else g).
    assert (H1 : sane (Generator._progress_info g1))
      by (subst g1; now destruct (cancel_requested it)).
    destruct (Generator._stop_flag g1); [reflexivity|].
    destruct (String.eqb (line it) "").
    + destruct (exited it); [reflexivity | now apply IH].
    + pose proof (parse_sane (VideoConfig.fps (Generator.config g1))
                    (line it) total H1) as H2.
      destruct (_parse_ffmpeg_progress _ _ _ _) as [[e|u] info];
        [reflexivity|].
      cbn [snd] in H2. rewrite <- (Hf info H2).
      destruct (f info); [reflexivity|]. now apply IH.
Qed.

(** X24. A progress snapshot whose frame, fps, encoded time and speed are not
    negative and whose percent lies between 0 and 100 stays so: after any
    line parsed, after any run of [generate], and for every snapshot handed
    to the progress-bar callback (the loop does not depend on what the
    callback would do on any other snapshot). *)
Theorem progress_snapshots_stay_sane (fs : filesystem) (r : rng)
    (child : popen) (g : Generator.t)
    (image_path audio_path output_path : string)
    (cb1 : text_callback) (cb2 : bar_callback) (preview : bool) :
  sane (Generator._progress_info g) ->
  sane (Generator._progress_info
          (final (generate fs r child g image_path audio_path output_path
                    cb1 cb2 preview)))
  /\ (forall cfps line total,
        sane (snd (_parse_ffmpeg_progress cfps line total
                     (Generator._progress_info g))))
  /\ (forall f f' total its,
        (forall info, sane info -> f info = f' info) ->
        pump (Some f) total its g = pump (Some f') total its g).
Proof.
  intro Hs. split; [|split].
  - unfold generate.
    destruct (negb (path_exists fs audio_path)); [exact Hs|].
    destruct (negb (in_strings _ SUPPORTED_AUDIO)); [exact Hs|].
    destruct (find_images fs image_path) as [|f files]; [exact Hs|].
    destruct (@prepare_images_returns (Generator.set_stop_flag false g)
                (f :: files) r ltac:(discriminate))
      as (images & r' & Ep & _ & _).
    rewrite Ep.
    destruct (call cb1 _); [exact Hs|].
    destruct (call cb1 _); [now destruct preview|].
    destruct child as [e|p]; [now destruct preview|].
    match goal with
    | |- context [pump cb2 ?t (script p) ?g0] =>
        assert (Hp : sane (Generator._progress_info
                             (snd (pump cb2 t (script p) g0))))
          by (apply pump_sane; now destruct preview);
        destruct (pump cb2 t (script p) g0) as [[| |e] g3]
    end; cbn [snd] in Hp; cbn [final]; try exact Hp.
    destruct (negb _); [|destruct (output_size p)];
      cbn [final]; now destruct preview.
  - intros cfps line total. now apply parse_sane.
  - intros f f' total its Hf. now apply pump_callback_on_sane.
Qed.

Lemma progress_snapshots_stay_sane_witness :
  sane (Generator._progress_info default_generator)
  /\ sane (Generator._progress_info
             (final (generate sample_fs sample_rng
                       (PopenStarts finished_child) default_generator
                       "pics" "song.mp3" "out.mp4" None silent_bar false))).
Proof.
  assert (H : sane (Generator._progress_info default_generator)).
  { cbv. repeat split; discriminate. }
  split; [exact H|].
  apply (progress_snapshots_stay_sane sample_fs sample_rng
           (PopenStarts finished_child) default_generator
           "pics" "song.mp3" "out.mp4" None silent_bar false H).
Defined.

(** X25. What [find_images] returns is sorted, has no duplicate, and holds nothing
    but the path itself (a file with a supported suffix) or entries of the
    directory whose name ends in a supported extension written in lower or
    in upper case; every such entry of a directory is returned. *)
Theorem find_images_result (fs : filesystem) (path : string) :
  Sorted string_le (find_images fs path)
  /\ NoDup (find_images fs path)
  /\ (forall x, In x (find_images fs path) ->
        (fs path = Some File /\ x = path
         /\ in_strings (lower (path_suffix path)) SUPPORTED_FORMATS = true)
        \/ (exists entries name,
              fs path = Some (Dir entries) /\ In name entries
              /\ matches_extension name = true /\ x = joinpath path name))
  /\ (forall entries name,
        fs path = Some (Dir entries) -> In name entries ->
        matches_extension name = true ->
        In (joinpath path name) (find_images fs path)).
Proof.
  split; [apply find_images_sorted|]. split; [apply find_images_nodup|].
  split.
  - intros x Hx. destruct (fs path) as [[|entries]|] eqn:E.
    + left. rewrite (find_images_file fs path E) in Hx.
      destruct (in_strings _ SUPPORTED_FORMATS); [|contradiction].
      destruct Hx as [<-|[]]. auto.
    + right. apply (find_images_directory fs path x E) in Hx.
      destruct Hx as (name & H1 & H2 & H3). exists entries, name. auto.
    + rewrite find_images_missing in Hx; [contradiction|].
      unfold path_exists. now rewrite E.
  - intros entries name E Hin Hm.
    apply (find_images_directory fs path (joinpath path name) E).
    exists name. auto.
Qed.

Lemma find_images_result_witness :
  In (joinpath "pics" "b.png") (find_images sample_fs "pics")
  /\ ~ In "song.mp3" (find_images sample_fs "song.mp3").
Proof.
  destruct (find_images_result sample_fs "pics") as (_ & _ & _ & H).
  split.
  - apply (H ["b.png"; "a.JPG"; "notes.txt"] "b.png");
      [reflexivity | left; reflexivity | reflexivity].
  - intro Hx.
    destruct (find_images_result sample_fs "song.mp3") as (_ & _ & H' & _).
    destruct (H' _ Hx) as [(_ & _ & E) | (en & n & E & _)]; discriminate E.
Defined.

(** ** The cross-fade offsets in double precision *)






(** ** The progress parser in double precision *)

Lemma ltb64_positive (x : Float64.t) :
  Float64.ltb Float64.zero x = true -> Float64.is_zero x = false.
Proof. destruct x as [s|s| |s m e]; [discriminate|reflexivity..]. Qed.




Lemma parse_frame64_returns (line : string)
    (info : Float64.ProgressInfo.t) :
  frame_within_limit line = true ->
  exists info',
    Float64.parse_frame line info = (inr tt, info')
    /\ Float64.ProgressInfo.fps info' = Float64.ProgressInfo.fps info
    /\ Float64.ProgressInfo.percent info'
       = Float64.ProgressInfo.percent info
    /\ Float64.ProgressInfo.eta_seconds info'
       = Float64.ProgressInfo.eta_seconds info.
Proof.
  unfold frame_within_limit, Float64.parse_frame, Float64.py_int.
  destruct (search frame_at line) as [d|]; [|eauto 6].
  intro H. apply Nat.leb_le in H.
  assert (E : (Float64.max_str_digits <? String.length d)%nat = false)
    by (apply Nat.ltb_ge; exact H).
  rewrite E. cbn. eauto 6.
Qed.

Lemma parse_fps64_returns (line : string) (info : Float64.ProgressInfo.t) :
  fps_well_formed line = true ->
  exists info',
    Float64.parse_fps line info = (inr tt, info')
    /\ Float64.ProgressInfo.fps info' = line_fps64 line info
    /\ Float64.ProgressInfo.percent info'
       = Float64.ProgressInfo.percent info
    /\ Float64.ProgressInfo.eta_seconds info'
       = Float64.ProgressInfo.eta_seconds info.
Proof.
  unfold fps_well_formed, line_fps64, Float64.parse_fps, Float64.py_float.
  destruct (search fps_at line) as [d|]; [|eauto 6].
  destruct (py_float d) as [e|q]; [discriminate|]. cbn. eauto 6.
Qed.

Lemma line_fps64_frame (line : string) (info info' : Float64.ProgressInfo.t) :
  Float64.ProgressInfo.fps info' = Float64.ProgressInfo.fps info ->
  line_fps64 line info' = line_fps64 line info.
Proof.
  intro H. unfold line_fps64. destruct (search fps_at line) as [d|]; [|exact H].
  now destruct (Float64.py_float d).
Qed.

Lemma parse_speed64_keeps (line : string) (info : Float64.ProgressInfo.t) :
  Float64.ProgressInfo.percent (snd (Float64.parse_speed line info))
  = Float64.ProgressInfo.percent info
  /\ Float64.ProgressInfo.eta_seconds (snd (Float64.parse_speed line info))
     = Float64.ProgressInfo.eta_seconds info.
Proof.
  unfold Float64.parse_speed.
  destruct (search speed_at line) as [d|]; [|now split].
  destruct (Float64.py_float d); now split.
Qed.





(** The snapshot after the whole method is the one after the time step, as
    far as percent and eta go, when the two steps before it return. *)
Lemma parse64_after_time (cfps : Z) (line : string) (total : Float64.t)
    (info info1 info2 : Float64.ProgressInfo.t) :
  Float64.parse_frame line info = (inr tt, info1) ->
  Float64.parse_fps line info1 = (inr tt, info2) ->
  Float64.ProgressInfo.percent
    (snd (Float64._parse_ffmpeg_progress cfps line total info))
  = Float64.ProgressInfo.percent
      (snd (Float64.parse_time cfps line total info2))
  /\ Float64.ProgressInfo.eta_seconds
       (snd (Float64._parse_ffmpeg_progress cfps line total info))
     = Float64.ProgressInfo.eta_seconds
         (snd (Float64.parse_time cfps line total info2))
  /\ (forall e,
        fst (Float64.parse_time cfps line total info2) = inl e ->
        fst (Float64._parse_ffmpeg_progress cfps line total info) = inl e)
  /\ (fst (Float64.parse_time cfps line total info2) = inr tt ->
      fst (Float64._parse_ffmpeg_progress cfps line total info)
      = fst (Float64.parse_speed line
               (snd (Float64.parse_time cfps line total info2)))).
Proof.
  intros E1 E2. unfold Float64._parse_ffmpeg_progress.
  rewrite E1. cbn [Float64.and_then]. rewrite E2. cbn [Float64.and_then].
  destruct (Float64.parse_time cfps line total info2) as [[e|[]] info3].
  - cbn. repeat split; [congruence | discriminate].
  - cbn [Float64.and_then snd fst].
    destruct (parse_speed64_keeps line info3) as [Hp He].
    repeat split; [exact Hp | exact He | discriminate].
Qed.




(** The time step up to the test of the fps figure. *)
Lemma parse_time64_eta (cfps : Z) (line : string) (total : Float64.t)
    (info : Float64.ProgressInfo.t) (h m s : string) (sec : Q)
    (whole : Float64.t) :
  search time_at line = Some (h, m, s) ->
  (String.length h <= Float64.max_str_digits)%nat ->
  (String.length m <= Float64.max_str_digits)%nat ->
  py_float s = inr sec ->
  Float64.of_int (py_int h * 3600 + py_int m * 60) = inr whole ->
  Float64.ltb Float64.zero total = true ->
  exists info',
    Float64.ProgressInfo.eta_seconds info'
    = Float64.ProgressInfo.eta_seconds info
    /\ Float64.parse_time cfps line total info
       = if Float64.ltb Float64.zero (Float64.ProgressInfo.fps info) then
           Float64.try (Float64.of_int cfps) info' (fun c =>
           Float64.try (Float64.div (Float64.ProgressInfo.fps info) c) info'
             (fun ratio =>
           Float64.try
             (Float64.div
                (Float64.sub total (Float64.add whole (Float64.of_Q sec)))
                ratio) info'
             (fun eta => (inr tt, Float64.set_eta_seconds eta info'))))
         else (inr tt, info').
Proof.
  intros Et Hh Hm Es Ew Htot.
  unfold Float64.parse_time. rewrite Et.
  unfold Float64.py_int, Float64.py_float.
  assert (Eh : (Float64.max_str_digits <? String.length h)%nat = false)
    by (apply Nat.ltb_ge; exact Hh).
  assert (Em : (Float64.max_str_digits <? String.length m)%nat = false)
    by (apply Nat.ltb_ge; exact Hm).
  rewrite Eh, Em, Es. cbn [Float64.try]. rewrite Ew. cbn [Float64.try].
  rewrite Htot.
  cbn [Float64.set_time_encoded Float64.ProgressInfo.time_encoded].
  assert (Hd : Float64.div (Float64.add whole (Float64.of_Q sec)) total
               = inr (SFdiv Float64.prec Float64.emax
                        (Float64.add whole (Float64.of_Q sec)) total))
    by (unfold Float64.div; now rewrite (ltb64_positive _ Htot)).
  rewrite Hd. cbn [Float64.try].
  cbn [Float64.set_percent Float64.set_time_encoded
       Float64.ProgressInfo.fps Float64.ProgressInfo.time_encoded].
  eexists. split; [|reflexivity]. reflexivity.
Qed.

(** X14, for the numbers of the interpreter.  On a line with a time field,
    when every step before the division by the total returns and the total
    is positive: if the fps figure in force is positive, eta is
    [remaining / (fps / config_fps)], two divisions each rounded to a double,
    provided the quotient [fps / config_fps] is not zero; when that quotient
    is zero, because the configured fps is 0 or because the quotient is too
    small for a double, the method raises [ZeroDivisionError] and eta keeps
    its value; if the fps figure in force is not positive, eta keeps its
    value. *)
Theorem eta_after_time_field (cfps : Z) (line : string) (total : Float64.t)
    (info : Float64.ProgressInfo.t) (h m s : string) (whole : Float64.t) :
  frame_within_limit line = true ->
  fps_well_formed line = true ->
  search time_at line = Some (h, m, s) ->
  (String.length h <= Float64.max_str_digits)%nat ->
  (String.length m <= Float64.max_str_digits)%nat ->
  Float64.of_int (py_int h * 3600 + py_int m * 60) = inr whole ->
  Float64.ltb Float64.zero total = true ->
  exists sec,
    py_float s = inr sec
    /\ (forall c ratio,
          Float64.ltb Float64.zero (line_fps64 line info) = true ->
          Float64.of_int cfps = inr c ->
          Float64.div (line_fps64 line info) c = inr ratio ->
          Float64.is_zero ratio = false ->
          Float64.div
            (Float64.sub total (Float64.add whole (Float64.of_Q sec))) ratio
          = inr (Float64.ProgressInfo.eta_seconds
                   (snd (Float64._parse_ffmpeg_progress cfps line total
                           info))))
    /\ (forall c ratio,
          Float64.ltb Float64.zero (line_fps64 line info) = true ->
          Float64.of_int cfps = inr c ->
          Float64.div (line_fps64 line info) c = inr ratio ->
          Float64.is_zero ratio = true ->
          fst (Float64._parse_ffmpeg_progress cfps line total info)
          = inl ZeroDivisionError
          /\ Float64.ProgressInfo.eta_seconds
               (snd (Float64._parse_ffmpeg_progress cfps line total info))
             = Float64.ProgressInfo.eta_seconds info)
    /\ (Float64.ltb Float64.zero (line_fps64 line info) = true ->
        cfps = 0%Z ->
        fst (Float64._parse_ffmpeg_progress cfps line total info)
        = inl ZeroDivisionError
        /\ Float64.ProgressInfo.eta_seconds
             (snd (Float64._parse_ffmpeg_progress cfps line total info))
           = Float64.ProgressInfo.eta_seconds info)
    /\ (Float64.ltb Float64.zero (line_fps64 line info) = false ->
        Float64.ProgressInfo.eta_seconds
          (snd (Float64._parse_ffmpeg_progress cfps line total info))
        = Float64.ProgressInfo.eta_seconds info).
Proof.
  intros Hframe Hfps Htime Hh Hm Hw Htot.
  pose proof Htime as Ht. apply search_some in Ht. destruct Ht as [t Ht].
  apply time_at_float in Ht. destruct Ht as [sec Hsec].
  exists sec. split; [exact Hsec|].
  destruct (parse_frame64_returns line info Hframe)
    as (info1 & E1 & F1 & _ & A1).
  destruct (parse_fps64_returns line info1 Hfps)
    as (info2 & E2 & F2 & _ & A2).
  rewrite (@line_fps64_frame line info info1 F1) in F2.
  destruct (@parse64_after_time cfps line total info info1 info2 E1 E2)
    as (_ & Heta & Hraise & _).
  destruct (@parse_time64_eta cfps line total info2 h m s sec whole
              Htime Hh Hm Hsec Hw Htot) as (info' & A' & Hpt).
  rewrite F2 in Hpt. rewrite Heta.
  assert (A0 : Float64.ProgressInfo.eta_seconds info'
               = Float64.ProgressInfo.eta_seconds info) by congruence.
  split; [|split; [|split]].
  - intros c ratio Hpos Hc Hr Hnz. rewrite Hpt, Hpos, Hc. cbn [Float64.try].
    rewrite Hr. cbn [Float64.try]. unfold Float64.div at 1 2.
    rewrite Hnz. reflexivity.
  - intros c ratio Hpos Hc Hr Hz.
    assert (Ept : Float64.parse_time cfps line total info2
                  = (inl ZeroDivisionError, info')).
    { rewrite Hpt, Hpos, Hc. cbn [Float64.try]. rewrite Hr.
      cbn [Float64.try]. unfold Float64.div. now rewrite Hz. }
    split; [apply Hraise; now rewrite Ept | now rewrite Ept].
  - intros Hpos ->.
    assert (Ept : Float64.parse_time 0 line total info2
                  = (inl ZeroDivisionError, info')).
    { rewrite Hpt, Hpos. reflexivity. }
    split; [apply Hraise; now rewrite Ept | now rewrite Ept].
  - intro Hneg. rewrite Hpt, Hneg. exact A0.
Qed.

(** At 30 frames a second against 60 configured, 36 seconds remain and eta
    is 72; at 25 frames a second it is the double 86.39999999999999; and an
    fps figure of 5e-324 makes the quotient by 60 zero, so the method
    raises. *)
Lemma eta_after_time_field_witness :
  Float64.ProgressInfo.eta_seconds
    (snd (Float64._parse_ffmpeg_progress 60
            "frame=120 fps=30.0 time=00:00:04.00 speed=2.0x"
            (Float64.of_Q 40) Float64.ProgressInfo.initial))
  = Float64.of_Q 72
  /\ Float64.ProgressInfo.eta_seconds
       (snd (Float64._parse_ffmpeg_progress 60
               "frame=120 fps=25 time=00:00:04.00 speed=2.0x"
               (Float64.of_Q 40) Float64.ProgressInfo.initial))
     = S754_finite false 6079859496950169 (-46)
  /\ fst (Float64._parse_ffmpeg_progress 60
            ("fps=0." ++ String.concat "" (repeat "0" 323)
             ++ "5 time=00:00:04.00")
            (Float64.of_Q 40) Float64.ProgressInfo.initial)
     = inl ZeroDivisionError.
Proof.
  split; [|split].
  - destruct (@eta_after_time_field 60
                "frame=120 fps=30.0 time=00:00:04.00 speed=2.0x"
                (Float64.of_Q 40) Float64.ProgressInfo.initial
                "00" "00" "04.00" Float64.zero eq_refl eq_refl eq_refl
                ltac:(apply Nat.leb_le; vm_compute; reflexivity)
                ltac:(apply Nat.leb_le; vm_compute; reflexivity)
                eq_refl eq_refl)
      as (sec & Hsec & He & _).
    injection Hsec as <-.
    specialize (He (Float64.of_Q 60) (Float64.of_Q (1 # 2))
                  eq_refl eq_refl eq_refl eq_refl).
    apply (f_equal (fun r : exn + Float64.t =>
                      match r with inr x => x | inl _ => Float64.zero end))
      in He.
    rewrite <- He. vm_compute. reflexivity.
  - destruct (@eta_after_time_field 60
                "frame=120 fps=25 time=00:00:04.00 speed=2.0x"
                (Float64.of_Q 40) Float64.ProgressInfo.initial
                "00" "00" "04.00" Float64.zero eq_refl eq_refl eq_refl
                ltac:(apply Nat.leb_le; vm_compute; reflexivity)
                ltac:(apply Nat.leb_le; vm_compute; reflexivity)
                eq_refl eq_refl)
      as (sec & Hsec & He & _).
    injection Hsec as <-.
    specialize (He (Float64.of_Q 60) (Float64.of_Q (5 # 12))
                  eq_refl eq_refl eq_refl eq_refl).
    apply (f_equal (fun r : exn + Float64.t =>
                      match r with inr x => x | inl _ => Float64.zero end))
      in He.
    rewrite <- He. vm_compute. reflexivity.
  - destruct (@eta_after_time_field 60
                ("fps=0." ++ String.concat "" (repeat "0" 323)
                 ++ "5 time=00:00:04.00")
                (Float64.of_Q 40) Float64.ProgressInfo.initial
                "00" "00" "04.00" Float64.zero eq_refl eq_refl eq_refl
                ltac:(apply Nat.leb_le; vm_compute; reflexivity)
                ltac:(apply Nat.leb_le; vm_compute; reflexivity)
                eq_refl eq_refl)
      as (sec & Hsec & _ & Hz & _).
    apply (Hz (Float64.of_Q 60) Float64.zero); reflexivity.
Defined.

Lemma parse_speed64_returns (line : string) (info : Float64.ProgressInfo.t) :
  (speed_well_formed line = true ->
   fst (Float64.parse_speed line info) = inr tt)
  /\ (speed_well_formed line = false ->
      exists msg, fst (Float64.parse_speed line info) = inl (ValueError msg)).
Proof.
  unfold speed_well_formed, Float64.parse_speed, Float64.py_float.
  destruct (search speed_at line) as [d|]; [|split; [reflexivity|discriminate]].
  unfold py_float.
  destruct (_ && _); split; try discriminate; try reflexivity.
  intros _. eexists. reflexivity.
Qed.

Lemma py_int64_limit (s : string) :
  ((String.length s <= Float64.max_str_digits)%nat ->
   Float64.py_int s = inr (py_int s))
  /\ ((Float64.max_str_digits < String.length s)%nat ->
      exists msg, Float64.py_int s = inl (ValueError msg)).
Proof.
  unfold Float64.py_int. split; intro H.
  - apply Nat.ltb_ge in H. now rewrite H.
  - apply Nat.ltb_lt in H. rewrite H. eexists. reflexivity.
Qed.

Lemma parse_time64_returns (cfps : Z) (line : string) (total : Float64.t)
    (info : Float64.ProgressInfo.t) :
  search time_at line = None
  \/ (exists h m s whole,
        search time_at line = Some (h, m, s)
        /\ (String.length h <= Float64.max_str_digits)%nat
        /\ (String.length m <= Float64.max_str_digits)%nat
        /\ Float64.of_int (py_int h * 3600 + py_int m * 60) = inr whole
        /\ (Float64.ltb Float64.zero total = false
            \/ Float64.ltb Float64.zero (Float64.ProgressInfo.fps info)
               = false
            \/ exists c ratio,
                 Float64.of_int cfps = inr c
                 /\ Float64.div (Float64.ProgressInfo.fps info) c = inr ratio
                 /\ Float64.is_zero ratio = false)) ->
  fst (Float64.parse_time cfps line total info) = inr tt.
Proof.
  intros [E | (h & m & s & whole & Et & Hh & Hm & Hw & Hrest)].
  - unfold Float64.parse_time. now rewrite E.
  - pose proof Et as Ht. apply search_some in Ht. destruct Ht as [t Ht].
    apply time_at_float in Ht. destruct Ht as [sec Hsec].
    destruct (Float64.ltb Float64.zero total) eqn:Htot.
    + destruct (@parse_time64_eta cfps line total info h m s sec whole
                  Et Hh Hm Hsec Hw Htot) as (info' & _ & ->).
      destruct Hrest as [H | [H | (c & ratio & Hc & Hr & Hnz)]];
        [discriminate | now rewrite H|].
      destruct (Float64.ltb Float64.zero (Float64.ProgressInfo.fps info));
        [|reflexivity].
      rewrite Hc. cbn [Float64.try]. rewrite Hr. cbn [Float64.try].
      unfold Float64.div. now rewrite Hnz.
    + unfold Float64.parse_time. rewrite Et.
      rewrite (proj1 (py_int64_limit h) Hh), (proj1 (py_int64_limit m) Hm).
      cbn [Float64.try]. unfold Float64.py_float. rewrite Hsec.
      cbn [Float64.try]. rewrite Hw. cbn [Float64.try]. now rewrite Htot.
Qed.

Lemma parse_time64_raises (cfps : Z) (line : string) (total : Float64.t)
    (info : Float64.ProgressInfo.t) (h m s : string) :
  search time_at line = Some (h, m, s) ->
  ((Float64.max_str_digits < String.length h)%nat
   \/ (Float64.max_str_digits < String.length m)%nat ->
   exists msg,
     Float64.parse_time cfps line total info = (inl (ValueError msg), info))
  /\ ((String.length h <= Float64.max_str_digits)%nat ->
      (String.length m <= Float64.max_str_digits)%nat ->
      Float64.of_int (py_int h * 3600 + py_int m * 60) = inl OverflowError ->
      Float64.parse_time cfps line total info = (inl OverflowError, info)).
Proof.
  intro Et. pose proof Et as Ht. apply search_some in Ht.
  destruct Ht as [t Ht]. apply time_at_float in Ht. destruct Ht as [sec Hsec].
  unfold Float64.parse_time. rewrite Et. split.
  - intros [H|H].
    + destruct (proj2 (py_int64_limit h) H) as [msg ->]. now exists msg.
    + destruct (Float64.py_int h) as [e|hv] eqn:Eh.
      * unfold Float64.py_int in Eh.
        destruct (_ <? _)%nat; [|discriminate]. injection Eh as <-.
        eexists. reflexivity.
      * cbn [Float64.try].
        destruct (proj2 (py_int64_limit m) H) as [msg ->]. now exists msg.
  - intros Hh Hm Hw.
    rewrite (proj1 (py_int64_limit h) Hh), (proj1 (py_int64_limit m) Hm).
    cbn [Float64.try]. unfold Float64.py_float. rewrite Hsec.
    cbn [Float64.try]. now rewrite Hw.
Qed.

Lemma py_int64_error (s : string) (e : exn) :
  Float64.py_int s = inl e -> exists msg, e = ValueError msg.
Proof.
  unfold Float64.py_int. destruct (_ <? _)%nat; [|discriminate].
  intros [= <-]. eexists. reflexivity.
Qed.

Lemma py_float64_error (s : string) (e : exn) :
  Float64.py_float s = inl e -> exists msg, e = ValueError msg.
Proof.
  unfold Float64.py_float, py_float. destruct (_ && _); [discriminate|].
  intros [= <-]. eexists. reflexivity.
Qed.

Lemma of_int64_error (z : Z) (e : exn) :
  Float64.of_int z = inl e -> e = OverflowError.
Proof.
  unfold Float64.of_int.
  destruct (binary_normalize _ _ _ _ _); try discriminate. now intros [= <-].
Qed.

Lemma div64_error (x y : Float64.t) (e : exn) :
  Float64.div x y = inl e -> e = ZeroDivisionError.
Proof.
  unfold Float64.div. destruct (Float64.is_zero y); [|discriminate].
  now intros [= <-].
Qed.

Lemma parse_time64_errors (cfps : Z) (line : string) (total : Float64.t)
    (info : Float64.ProgressInfo.t) (e : exn) :
  fst (Float64.parse_time cfps line total info) = inl e -> parser_error e.
Proof.
  unfold Float64.parse_time, parser_error.
  destruct (search time_at line) as [[[h m] s]|]; [|discriminate].
  destruct (Float64.py_int h) as [e1|hv] eqn:E1; cbn [Float64.try fst].
  { intros [= <-]. left. eapply py_int64_error; eassumption. }
  destruct (Float64.py_int m) as [e2|mv] eqn:E2; cbn [Float64.try fst].
  { intros [= <-]. left. eapply py_int64_error; eassumption. }
  destruct (Float64.py_float s) as [e3|sec] eqn:E3; cbn [Float64.try fst].
  { intros [= <-]. left. eapply py_float64_error; eassumption. }
  destruct (Float64.of_int _) as [e4|whole] eqn:E4; cbn [Float64.try fst].
  { intros [= <-]. right. left. eapply of_int64_error; eassumption. }
  destruct (Float64.ltb Float64.zero total); [|discriminate].
  destruct (Float64.div _ total) as [e5|q] eqn:E5; cbn [Float64.try fst].
  { intros [= <-]. right. right. eapply div64_error; eassumption. }
  destruct (Float64.ltb Float64.zero _); [|discriminate].
  destruct (Float64.of_int cfps) as [e6|c] eqn:E6; cbn [Float64.try fst].
  { intros [= <-]. right. left. eapply of_int64_error; eassumption. }
  destruct (Float64.div _ c) as [e7|ratio] eqn:E7; cbn [Float64.try fst].
  { intros [= <-]. right. right. eapply div64_error; eassumption. }
  destruct (Float64.div _ ratio) as [e8|eta] eqn:E8; cbn [Float64.try fst].
  { intros [= <-]. right. right. eapply div64_error; eassumption. }
  discriminate.
Qed.

Lemma parse64_errors (cfps : Z) (line : string) (total : Float64.t)
    (info : Float64.ProgressInfo.t) (e : exn) :
  fst (Float64._parse_ffmpeg_progress cfps line total info) = inl e ->
  parser_error e.
Proof.
  unfold Float64._parse_ffmpeg_progress.
  destruct (Float64.parse_frame line info) as [[e1|[]] info1] eqn:E1;
    cbn [Float64.and_then fst].
  { intros [= <-]. left. unfold Float64.parse_frame in E1.
    destruct (search frame_at line) as [d|]; [|discriminate].
    destruct (Float64.py_int d) as [e0|v] eqn:E0; [|discriminate].
    injection E1 as <- _. eapply py_int64_error; eassumption. }
  destruct (Float64.parse_fps line info1) as [[e2|[]] info2] eqn:E2;
    cbn [Float64.and_then fst].
  { intros [= <-]. left. unfold Float64.parse_fps in E2.
    destruct (search fps_at line) as [d|]; [|discriminate].
    destruct (Float64.py_float d) as [e0|v] eqn:E0; [|discriminate].
    injection E2 as <- _. eapply py_float64_error; eassumption. }
  destruct (Float64.parse_time cfps line total info2) as [[e3|[]] info3]
    eqn:E3; cbn [Float64.and_then fst].
  { intros [= <-]. apply (@parse_time64_errors cfps line total info2).
    now rewrite E3. }
  unfold Float64.parse_speed.
  destruct (search speed_at line) as [d|]; [|discriminate].
  destruct (Float64.py_float d) as [e0|v] eqn:E0; [|discriminate].
  cbn. intros [= <-]. left. eapply py_float64_error; eassumption.
Qed.

(** X15, for the numbers of the interpreter: when the method returns and
    when it raises.  It raises nothing but [ValueError], [OverflowError] and
    [ZeroDivisionError].  It returns when the frame field and the hour and
    minute groups have at most 4300 digits, the fps and speed fields are
    numbers, the whole seconds fit a double and, where eta is computed, the
    quotient of the fps figure by the configured fps is not zero.  It raises
    [ValueError] on a frame field or an hour or minute group of more than
    4300 digits and on an fps or speed field that is not a number, and
    [OverflowError] when the whole seconds are too large for a double. *)
Theorem parser_exceptions (cfps : Z) (line : string) (total : Float64.t)
    (info : Float64.ProgressInfo.t) :
  (forall e,
     fst (Float64._parse_ffmpeg_progress cfps line total info) = inl e ->
     parser_error e)
  /\ (frame_within_limit line = true -> fps_well_formed line = true ->
      time_step_returns cfps line total info ->
      (speed_well_formed line = true ->
       fst (Float64._parse_ffmpeg_progress cfps line total info) = inr tt)
      /\ (speed_well_formed line = false ->
          exists msg,
            fst (Float64._parse_ffmpeg_progress cfps line total info)
            = inl (ValueError msg)))
  /\ (frame_within_limit line = false ->
      exists msg,
        fst (Float64._parse_ffmpeg_progress cfps line total info)
        = inl (ValueError msg))
  /\ (frame_within_limit line = true -> fps_well_formed line = false ->
      exists msg,
        fst (Float64._parse_ffmpeg_progress cfps line total info)
        = inl (ValueError msg))
  /\ (forall h m s,
        frame_within_limit line = true -> fps_well_formed line = true ->
        search time_at line = Some (h, m, s) ->
        (Float64.max_str_digits < String.length h)%nat
        \/ (Float64.max_str_digits < String.length m)%nat ->
        exists msg,
          fst (Float64._parse_ffmpeg_progress cfps line total info)
          = inl (ValueError msg))
  /\ (forall h m s,
        frame_within_limit line = true -> fps_well_formed line = true ->
        search time_at line = Some (h, m, s) ->
        (String.length h <= Float64.max_str_digits)%nat ->
        (String.length m <= Float64.max_str_digits)%nat ->
        Float64.of_int (py_int h * 3600 + py_int m * 60)
        = inl OverflowError ->
        fst (Float64._parse_ffmpeg_progress cfps line total info)
        = inl OverflowError).
Proof.
  assert (Hstart : frame_within_limit line = true ->
                   fps_well_formed line = true ->
                   exists info1 info2,
                     Float64.parse_frame line info = (inr tt, info1)
                     /\ Float64.parse_fps line info1 = (inr tt, info2)
                     /\ Float64.ProgressInfo.fps info2
                        = line_fps64 line info).
  { intros Hframe Hfps.
    destruct (parse_frame64_returns line info Hframe)
      as (info1 & E1 & F1 & _).
    destruct (parse_fps64_returns line info1 Hfps) as (info2 & E2 & F2 & _).
    rewrite (@line_fps64_frame line info info1 F1) in F2.
    exists info1, info2. auto. }
  split; [intro e; apply parse64_errors|].
  split; [|split; [|split; [|split]]].
  - intros Hframe Hfps Htime.
    destruct (Hstart Hframe Hfps) as (info1 & info2 & E1 & E2 & F2).
    destruct (@parse64_after_time cfps line total info info1 info2 E1 E2)
      as (_ & _ & _ & Hret).
    unfold time_step_returns in Htime. rewrite <- F2 in Htime.
    pose proof (@parse_time64_returns cfps line total info2 Htime) as Ht.
    rewrite (Hret Ht). apply parse_speed64_returns.
  - unfold frame_within_limit, Float64._parse_ffmpeg_progress,
      Float64.parse_frame.
    destruct (search frame_at line) as [d|]; [|discriminate].
    intro H. apply Nat.leb_gt in H.
    destruct (proj2 (py_int64_limit d) H) as [msg ->]. now exists msg.
  - intros Hframe Hfps.
    destruct (parse_frame64_returns line info Hframe) as (info1 & E1 & _).
    unfold Float64._parse_ffmpeg_progress. rewrite E1.
    cbn [Float64.and_then]. unfold Float64.parse_fps, Float64.py_float.
    unfold fps_well_formed in Hfps.
    destruct (search fps_at line) as [d|]; [|discriminate].
    unfold py_float in *. destruct (_ && _); [discriminate|].
    eexists. reflexivity.
  - intros h m s Hframe Hfps Htime Hlong.
    destruct (Hstart Hframe Hfps) as (info1 & info2 & E1 & E2 & _).
    destruct (@parse64_after_time cfps line total info info1 info2 E1 E2)
      as (_ & _ & Hraise & _).
    destruct (proj1 (@parse_time64_raises cfps line total info2 h m s Htime)
                Hlong) as [msg Hm].
    exists msg. apply Hraise. now rewrite Hm.
  - intros h m s Hframe Hfps Htime Hh Hm Hw.
    destruct (Hstart Hframe Hfps) as (info1 & info2 & E1 & E2 & _).
    destruct (@parse64_after_time cfps line total info info1 info2 E1 E2)
      as (_ & _ & Hraise & _).
    apply Hraise.
    now rewrite (proj2 (@parse_time64_raises cfps line total info2 h m s
                          Htime) Hh Hm Hw).
Qed.

(** A full line returns; a frame field of 4301 digits, an fps field with two
    dots and an hour group of 400 nines raise. *)
Lemma parser_exceptions_witness :
  fst (Float64._parse_ffmpeg_progress 60
         "frame=120 fps=30.0 time=00:00:04.00 speed=2.0x"
         (Float64.of_Q 40) Float64.ProgressInfo.initial) = inr tt
  /\ (exists msg,
        fst (Float64._parse_ffmpeg_progress 60
               ("frame=" ++ nines 4301)
               (Float64.of_Q 40) Float64.ProgressInfo.initial)
        = inl (ValueError msg))
  /\ (exists msg,
        fst (Float64._parse_ffmpeg_progress 60 malformed_fps_line
               (Float64.of_Q 40) Float64.ProgressInfo.initial)
        = inl (ValueError msg))
  /\ fst (Float64._parse_ffmpeg_progress 60
            ("time=" ++ nines 400 ++ ":00:00")
            (Float64.of_Q 40) Float64.ProgressInfo.initial)
     = inl OverflowError.
Proof.
  split; [|split; [|split]].
  - apply (proj1 (proj2 (parser_exceptions 60
                    "frame=120 fps=30.0 time=00:00:04.00 speed=2.0x"
                    (Float64.of_Q 40) Float64.ProgressInfo.initial)));
      [reflexivity | reflexivity | | reflexivity].
    right. exists "00", "00", "04.00", Float64.zero.
    split; [reflexivity|].
    split; [apply Nat.leb_le; vm_compute; reflexivity|].
    split; [apply Nat.leb_le; vm_compute; reflexivity|].
    split; [reflexivity|]. right. right.
    exists (Float64.of_Q 60), (Float64.of_Q (1 # 2)).
    split; [reflexivity|]. split; reflexivity.
  - apply (proj1 (proj2 (proj2 (parser_exceptions 60
                    ("frame=" ++ nines 4301)
                    (Float64.of_Q 40) Float64.ProgressInfo.initial)))).
    vm_compute. reflexivity.
  - apply (proj1 (proj2 (proj2 (proj2 (parser_exceptions 60
                    malformed_fps_line
                    (Float64.of_Q 40) Float64.ProgressInfo.initial)))));
      reflexivity.
  - apply (proj2 (proj2 (proj2 (proj2 (proj2 (parser_exceptions 60
                    ("time=" ++ nines 400 ++ ":00:00")
                    (Float64.of_Q 40) Float64.ProgressInfo.initial)))))
             (nines 400) "00" "00");
      try (vm_compute; reflexivity);
      apply Nat.leb_le; vm_compute; reflexivity.
Defined.

(** ** Callbacks of [generate] *)

(** X8. The text callback is called outside the [try] block, before the
    command is launched.  With an audio file that exists and is supported
    and at least one image found, an exception it raises on its first
    message, which carries the number of images found, leaves [generate] as
    it is: nothing has been launched, the configuration is untouched and the
    prepared images are in place. *)
Theorem text_callback_exception_propagates (fs : filesystem) (r : rng)
    (child : popen) (g : Generator.t)
    (image_path audio_path output_path : string)
    (f : milestone -> option exn) (cb2 : bar_callback) (preview : bool)
    (e : exn) :
  path_exists fs audio_path = true ->
  in_strings (lower (path_suffix audio_path)) SUPPORTED_AUDIO = true ->
  find_images fs image_path <> [] ->
  f (FoundImages (length (find_images fs image_path))) = Some e ->
  result (generate fs r child g image_path audio_path output_path
            (Some f) cb2 preview) = Raised e
  /\ launches (generate fs r child g image_path audio_path output_path
                 (Some f) cb2 preview) = []
  /\ Generator.config
       (final (generate fs r child g image_path audio_path output_path
                 (Some f) cb2 preview)) = Generator.config g
  /\ Permutation
       (map ImageInfo.path
          (Generator.images
             (final (generate fs r child g image_path audio_path
                       output_path (Some f) cb2 preview))))
       (find_images fs image_path).
Proof.
  intros Ha Hs Hne. unfold generate. rewrite Ha, Hs. cbn [negb].
  destruct (find_images fs image_path) as [|p0 files] eqn:Ef; [congruence|].
  destruct (@prepare_images_returns (Generator.set_stop_flag false g)
              (p0 :: files) r ltac:(discriminate))
    as (images & r' & Ep & Hp & Hi).
  rewrite Ep.
  assert (Hlen : length images = length (p0 :: files))
    by (rewrite <- (length_map ImageInfo.index), Hi; apply length_seq).
  cbn [call Generator.images Generator.set_images]. rewrite Hlen.
  intros ->. cbn [result launches final Generator.images Generator.config
                  Generator.set_images Generator.set_stop_flag].
  split; [reflexivity|]. split; [reflexivity|]. split; [now destruct g|].
  rewrite Hp. apply ordered_paths_perm.
Qed.

Lemma text_callback_exception_propagates_witness :
  result (generate sample_fs sample_rng (PopenStarts finished_child)
            default_generator "pics" "song.mp3" "out.mp4"
            (Some (fun _ => Some ZeroDivisionError)) silent_bar false)
  = Raised ZeroDivisionError
  /\ launches (generate sample_fs sample_rng (PopenStarts finished_child)
                 default_generator "pics" "song.mp3" "out.mp4"
                 (Some (fun _ => Some ZeroDivisionError)) silent_bar false)
     = [].
Proof.
  destruct (@text_callback_exception_propagates sample_fs sample_rng
              (PopenStarts finished_child) default_generator
              "pics" "song.mp3" "out.mp4"
              (fun _ => Some ZeroDivisionError) silent_bar false
              ZeroDivisionError eq_refl eq_refl
              ltac:(vm_compute; discriminate) eq_refl)
    as (H1 & H2 & _).
  split; [exact H1 | exact H2].
Defined.

(** X10. Without a progress-bar callback [generate] never parses a line:
    the progress snapshot of the generator is the one before the call,
    however the call ends. *)
Theorem generate_without_bar_callback (fs : filesystem) (r : rng)
    (child : popen) (g : Generator.t)
    (image_path audio_path output_path : string)
    (cb1 : text_callback) (preview : bool) :
  Generator._progress_info
    (final (generate fs r child g image_path audio_path output_path
              cb1 None preview)) = Generator._progress_info g.
Proof.
  unfold generate.
  destruct (negb (path_exists fs audio_path)); [now destruct g|].
  destruct (negb (in_strings _ SUPPORTED_AUDIO)); [now destruct g|].
  destruct (find_images fs image_path) as [|f files]; [now destruct g|].
  destruct (@prepare_images_returns (Generator.set_stop_flag false g)
              (f :: files) r ltac:(discriminate))
    as (images & r' & Ep & _ & _).
  rewrite Ep.
  destruct (call cb1 _); [now destruct g|].
  destruct (call cb1 _); [now destruct g, preview|].
  destruct child as [e|p]; [now destruct g, preview|].
  match goal with
  | |- context [pump None ?t (script p) ?g0] =>
      destruct (pump_without_callback t (script p) g0) as [Hi _];
      destruct (pump None t (script p) g0) as [[| |e] g3]
  end; cbn [fst snd] in Hi.
  - destruct (negb _); [|destruct (output_size p)];
      destruct g, preview; cbn in Hi |- *; exact Hi.
  - destruct g, preview; exact Hi.
  - destruct g, preview; exact Hi.
Qed.
